(** * Expression parser and evaluator (parser.py, evaluator.py)

    A shallow embedding of the tokenizer, the syntax validator, the
    Shunting-Yard converter and the postfix evaluator, followed by the
    properties of the specification that concern them.

    Conventions of the embedding.
    - A Python [str] whose code points are below 256 is a [string]: the
      character [c] is the code point [nat_of_ascii c], so that a string is
      read as Latin-1 and not as UTF-8.  The character classes
      [str.isdigit], [str.isalpha], [str.isalnum] and the conversions
      [str.lower], [repr] and [float] are those of Python on these code
      points; texts with a code point above 255 are outside the embedding.
    - A Python [float] is an IEEE binary64 number, [spec_float] at precision
      53 and maximal exponent 1024, with the operations of [SpecFloat].
    - A [while] loop whose trip count is bounded by the length of its input
      is a [Fixpoint] on a fuel argument; the entry point supplies the bound
      and [tokenize_loop_fuel] shows that any larger fuel gives the same
      result.
    - A raised exception is the [inl] side of a sum. *)

From Stdlib Require Import ZArith List String Ascii Bool Arith Lia.
From Stdlib Require Import Permutation DecimalString SpecFloat.
Import ListNotations.

Local Open Scope string_scope.
Local Open Scope list_scope.

(** ** Python strings *)

Module PyStr.

(** [a <= n <= b] *)
Definition between (a n b : nat) : bool := ((a <=? n) && (n <=? b))%nat.

(** [c.isdecimal()]: the digits [0] to [9]. *)
Definition isdecimal (c : ascii) : bool := between 48 (nat_of_ascii c) 57.

(** [c.isdigit()]: the decimal digits and the superscripts two, three and
    one (U+00B2, U+00B3, U+00B9). *)
Definition isdigit (c : ascii) : bool :=
  let n := nat_of_ascii c in
  between 48 n 57 || between 178 n 179 || (n =? 185)%nat.

(** [c.isnumeric()]: the digits and the fractions U+00BC to U+00BE. *)
Definition isnumeric (c : ascii) : bool :=
  isdigit c || between 188 (nat_of_ascii c) 190.

(** [c.isalpha()]: the letters of Basic Latin and of Latin-1 Supplement
    (U+00AA, U+00B5, U+00BA, U+00C0 to U+00FF without the signs U+00D7 and
    U+00F7). *)
Definition isalpha (c : ascii) : bool :=
  let n := nat_of_ascii c in
  between 65 n 90 || between 97 n 122
  || (n =? 170)%nat || (n =? 181)%nat || (n =? 186)%nat
  || between 192 n 214 || between 216 n 246 || between 248 n 255.

(** [c.isalnum()] *)
Definition isalnum (c : ascii) : bool :=
  isalpha c || isdecimal c || isdigit c || isnumeric c.

(** [c.lower()] on one character. *)
Definition lower (c : ascii) : ascii :=
  let n := nat_of_ascii c in
  if between 65 n 90 || between 192 n 214 || between 216 n 222
  then ascii_of_nat (n + 32) else c.

(** [c.isprintable()] *)
Definition isprintable (c : ascii) : bool :=
  let n := nat_of_ascii c in
  negb (between 0 n 31 || between 127 n 160 || (n =? 173)%nat).

(** [c in s] for a one-character string [c]. *)
Fixpoint char_in (c : ascii) (s : string) : bool :=
  match s with
  | EmptyString => false
  | String d s' => Ascii.eqb c d || char_in c s'
  end.

(** [s[n:]] *)
Fixpoint drop (n : nat) (s : string) : string :=
  match n, s with
  | O, _ => s
  | S n', String _ s' => drop n' s'
  | S _, EmptyString => EmptyString
  end.

(** [s.replace(' ', '')] *)
Fixpoint remove_spaces (s : string) : string :=
  match s with
  | EmptyString => EmptyString
  | String c s' =>
      if Ascii.eqb c " " then remove_spaces s' else String c (remove_spaces s')
  end.

(** [x in xs] for a collection of strings. *)
Definition mem (x : string) (xs : list string) : bool :=
  existsb (String.eqb x) xs.

(** [d.get(k)] on a dictionary kept as an association list. *)
Fixpoint lookup {A : Type} (k : string) (d : list (string * A)) : option A :=
  match d with
  | [] => None
  | (k', v) :: d' => if String.eqb k k' then Some v else lookup k d'
  end.

(** [str(n)] for a non-negative integer. *)
Definition of_nat (n : nat) : string :=
  NilEmpty.string_of_uint (Nat.to_uint n).

(** [repr(s)]: the text between quotes, the quote that the text holds, the
    backslash and the characters that are not printable being escaped. *)
Definition quotation_mark : ascii := ascii_of_nat 34.
Definition apostrophe : ascii := ascii_of_nat 39.
Definition backslash : ascii := ascii_of_nat 92.

Definition hex_digit (n : nat) : ascii :=
  if (n <? 10)%nat then ascii_of_nat (48 + n) else ascii_of_nat (87 + n).

Definition escape (quote c : ascii) : string :=
  let n := nat_of_ascii c in
  if Ascii.eqb c quote || Ascii.eqb c backslash then String backslash (String c "")
  else if (n =? 9)%nat then String backslash "t"
  else if (n =? 10)%nat then String backslash "n"
  else if (n =? 13)%nat then String backslash "r"
  else if negb (isprintable c) then
    String backslash
      (String "x" (String (hex_digit (n / 16)) (String (hex_digit (n mod 16)) "")))
  else String c "".

Fixpoint escape_all (quote : ascii) (s : string) : string :=
  match s with
  | EmptyString => EmptyString
  | String c s' => (escape quote c ++ escape_all quote s')%string
  end.

Definition repr (s : string) : string :=
  let quote :=
    if char_in apostrophe s && negb (char_in quotation_mark s)
    then quotation_mark else apostrophe in
  String quote (escape_all quote s ++ String quote "")%string.

End PyStr.

(** ** parser.py *)

Module Parser.
Import PyStr.

Inductive TokenType : Set :=
| NUMBER | VARIABLE | OPERATOR | FUNCTION
| LEFT_PAREN | RIGHT_PAREN | COMMA | CONSTANT | EOF.

Definition TokenType_eqb (a b : TokenType) : bool :=
  match a, b with
  | NUMBER, NUMBER | VARIABLE, VARIABLE | OPERATOR, OPERATOR
  | FUNCTION, FUNCTION | LEFT_PAREN, LEFT_PAREN
  | RIGHT_PAREN, RIGHT_PAREN | COMMA, COMMA | CONSTANT, CONSTANT
  | EOF, EOF => true
  | _, _ => false
  end.

Record Token : Set := mkToken {
  type : TokenType;
  value : string;
  position : nat
}.

Inductive associativity : Set := left | right.

Record descriptor : Set := mkDescriptor {
  precedence : nat;
  assoc : associativity
}.

(** [MathParser.__init__] *)
Definition operators : list (string * descriptor) :=
  [ ("+", mkDescriptor 1 left);
    ("-", mkDescriptor 1 left);
    ("*", mkDescriptor 2 left);
    ("/", mkDescriptor 2 left);
    ("^", mkDescriptor 3 right);
    ("**", mkDescriptor 3 right) ].

Definition functions : list string :=
  [ "sin"; "cos"; "tan"; "asin"; "acos"; "atan";
    "sinh"; "cosh"; "tanh"; "ln"; "log"; "exp";
    "sqrt"; "abs"; "floor"; "ceil"; "round";
    "derivative"; "integral"; "diff"; "int" ].

Definition constants : list string :=
  [ "pi"; "e"; "phi"; "gamma"; "inf"; "nan" ].

(** *** [_parse_number]

    [digits_prefix s] is what the innermost loop
    [while end < len(expression) and expression[end].isdigit()] consumes
    of the unread text [s]. *)
Fixpoint digits_prefix (s : string) : string :=
  match s with
  | String c s' => if isdigit c then String c (digits_prefix s') else ""
  | EmptyString => ""
  end.

(** [number_prefix s has_decimal] is [expression[start:end]] where [s] is
    the unread text [expression[end:]] at the head of the outer loop. *)
Fixpoint number_prefix (s : string) (has_decimal : bool) : string :=
  match s with
  | EmptyString => ""
  | String char s' =>
      if isdigit char then String char (number_prefix s' has_decimal)
      else if Ascii.eqb char "." && negb has_decimal then
        String char (number_prefix s' true)
      else if Ascii.eqb (lower char) "e" && negb (String.eqb s' "") then
        (* scientific notation: [end + 1 < len(expression)] *)
        match s' with
        | String c s'' =>
            if char_in c "+-" then String char (String c (digits_prefix s''))
            else String char (digits_prefix s')
        | EmptyString => String char ""
        end
      else ""
  end.

Definition _parse_number (expression : string) (start : nat) : string * nat :=
  let number := number_prefix (drop start expression) false in
  (number, start + String.length number).

(** *** [_parse_identifier] *)
Fixpoint identifier_prefix (s : string) : string :=
  match s with
  | String c s' =>
      if isalnum c || Ascii.eqb c "_" then String c (identifier_prefix s')
      else ""
  | EmptyString => ""
  end.

Definition _parse_identifier (expression : string) (start : nat) : string * nat :=
  let identifier := identifier_prefix (drop start expression) in
  (identifier, start + String.length identifier).

(** *** [tokenize] *)
Fixpoint tokenize_loop (fuel : nat) (expression : string) (position : nat)
  : list Token :=
  match fuel with
  | O => []
  | S fuel' =>
      match String.get position expression with
      | None => [mkToken EOF "" position]
      | Some char =>
          if isdigit char || Ascii.eqb char "." then
            let '(number, new_pos) := _parse_number expression position in
            mkToken NUMBER number position
              :: tokenize_loop fuel' expression new_pos
          else if isalpha char then
            let '(identifier, new_pos) := _parse_identifier expression position in
            (if mem identifier functions then
               mkToken FUNCTION identifier position
             else if mem identifier constants then
               mkToken CONSTANT identifier position
             else mkToken VARIABLE identifier position)
              :: tokenize_loop fuel' expression new_pos
          else if char_in char "+-*/^" then
            if Ascii.eqb char "*" &&
               match String.get (position + 1) expression with
               | Some c => Ascii.eqb c "*"
               | None => false
               end
            then mkToken OPERATOR "**" position
                   :: tokenize_loop fuel' expression (position + 2)
            else mkToken OPERATOR (String char "") position
                   :: tokenize_loop fuel' expression (position + 1)
          else if Ascii.eqb char "(" then
            mkToken LEFT_PAREN (String char "") position
              :: tokenize_loop fuel' expression (position + 1)
          else if Ascii.eqb char ")" then
            mkToken RIGHT_PAREN (String char "") position
              :: tokenize_loop fuel' expression (position + 1)
          else if Ascii.eqb char "," then
            mkToken COMMA (String char "") position
              :: tokenize_loop fuel' expression (position + 1)
          else tokenize_loop fuel' expression (position + 1)
      end
  end.

Definition tokenize (expression : string) : list Token :=
  let expression := remove_spaces expression in
  tokenize_loop (S (String.length expression)) expression 0.

(** *** [parse_to_postfix]

    [output] is the output list in order, [operator_stack] has its top at
    the head. *)

(** [_has_higher_precedence] *)
Definition _has_higher_precedence (op1 op2 : Token) : bool :=
  match lookup (value op1) operators, lookup (value op2) operators with
  | Some d1, Some d2 =>
      let prec1 := precedence d1 in
      let prec2 := precedence d2 in
      let assoc2 := assoc d2 in
      (prec2 <? prec1)%nat
      || ((prec1 =? prec2)%nat && match assoc2 with left => true | right => false end)
  | _, _ => false
  end.

(** [while operator_stack and operator_stack[-1].type != LEFT_PAREN:
       output.append(operator_stack.pop())] *)
Fixpoint pop_until_left_paren (output operator_stack : list Token)
  : list Token * list Token :=
  match operator_stack with
  | [] => (output, [])
  | top :: below =>
      if TokenType_eqb (type top) LEFT_PAREN then (output, operator_stack)
      else pop_until_left_paren (output ++ [top]) below
  end.

(** [while operator_stack and operator_stack[-1].type == OPERATOR and
       self._has_higher_precedence(operator_stack[-1], token):
       output.append(operator_stack.pop())] *)
Fixpoint pop_higher_precedence (token : Token) (output operator_stack : list Token)
  : list Token * list Token :=
  match operator_stack with
  | [] => (output, [])
  | top :: below =>
      if TokenType_eqb (type top) OPERATOR && _has_higher_precedence top token
      then pop_higher_precedence token (output ++ [top]) below
      else (output, operator_stack)
  end.

(** The body of the [for] loop, with its [break] on [EOF], followed by the
    final [while operator_stack: output.append(operator_stack.pop())]. *)
Fixpoint postfix_loop (tokens output operator_stack : list Token) : list Token :=
  match tokens with
  | [] => output ++ operator_stack
  | token :: rest =>
      match type token with
      | EOF => output ++ operator_stack
      | NUMBER | VARIABLE | CONSTANT =>
          postfix_loop rest (output ++ [token]) operator_stack
      | FUNCTION =>
          postfix_loop rest output (token :: operator_stack)
      | COMMA =>
          let '(output, operator_stack) :=
            pop_until_left_paren output operator_stack in
          postfix_loop rest output operator_stack
      | OPERATOR =>
          let '(output, operator_stack) :=
            pop_higher_precedence token output operator_stack in
          postfix_loop rest output (token :: operator_stack)
      | LEFT_PAREN =>
          postfix_loop rest output (token :: operator_stack)
      | RIGHT_PAREN =>
          let '(output, operator_stack) :=
            pop_until_left_paren output operator_stack in
          (* remove left parenthesis *)
          let operator_stack := List.tl operator_stack in
          (* a function on top goes to the output *)
          match operator_stack with
          | top :: below =>
              if TokenType_eqb (type top) FUNCTION
              then postfix_loop rest (output ++ [top]) below
              else postfix_loop rest output operator_stack
          | [] => postfix_loop rest output operator_stack
          end
      end
  end.

Definition parse_to_postfix (tokens : list Token) : list Token :=
  postfix_loop tokens [] [].

(** *** [validate_syntax] *)

(** The checks that follow the loop. *)
Definition validate_end (paren_count : Z) (prev_token : option Token)
  : bool * string :=
  if negb (paren_count =? 0)%Z then (false, "Unmatched parentheses")
  else
    match prev_token with
    | Some prev =>
        if TokenType_eqb (type prev) OPERATOR
        then (false, "Expression cannot end with an operator")
        else (true, "")
    | None => (true, "")
    end.

Definition prev_has_type (prev_token : option Token) (t : TokenType) : bool :=
  match prev_token with
  | Some prev => TokenType_eqb (type prev) t
  | None => false
  end.

(** The [for] loop over the tokens: it returns at the first violation and
    leaves at [EOF]. *)
Fixpoint validate_loop (tokens : list Token) (paren_count : Z)
  (prev_token : option Token) : bool * string :=
  match tokens with
  | [] => validate_end paren_count prev_token
  | token :: rest =>
      if TokenType_eqb (type token) EOF then validate_end paren_count prev_token
      else
        let paren_count :=
          if TokenType_eqb (type token) LEFT_PAREN then (paren_count + 1)%Z
          else if TokenType_eqb (type token) RIGHT_PAREN then (paren_count - 1)%Z
          else paren_count in
        if TokenType_eqb (type token) RIGHT_PAREN && (paren_count <? 0)%Z then
          (false, ("Unmatched closing parenthesis at position "
                     ++ of_nat (position token))%string)
        else if prev_has_type prev_token OPERATOR
                && TokenType_eqb (type token) OPERATOR then
          (false, ("Consecutive operators at position "
                     ++ of_nat (position token))%string)
        else if TokenType_eqb (type token) FUNCTION
                && match prev_token with
                   | Some prev =>
                       negb (existsb (TokenType_eqb (type prev))
                               [OPERATOR; LEFT_PAREN; COMMA])
                   | None => false
                   end then
          (false, ("Invalid function call at position "
                     ++ of_nat (position token))%string)
        else validate_loop rest paren_count (Some token)
  end.

Definition validate_syntax (tokens : list Token) : bool * string :=
  match tokens with
  | [] => (false, "Empty expression")
  | first :: _ =>
      if TokenType_eqb (type first) EOF then (false, "Empty expression")
      else validate_loop tokens 0%Z None
  end.

(** *** [parse_expression]

    The dictionary it returns has one of two shapes. *)
Inductive parse_result : Set :=
| ParseFailure (error : string) (tokens : list Token)
| ParseSuccess (tokens postfix : list Token) (expression : string).

Definition parse_expression (expression : string) : parse_result :=
  let tokens := tokenize expression in
  let '(is_valid, error) := validate_syntax tokens in
  if negb is_valid then ParseFailure error tokens
  else
    let postfix_tokens := parse_to_postfix tokens in
    ParseSuccess tokens postfix_tokens expression.

End Parser.

(** ** Python numbers

    The values the evaluator's stack holds and the built-in operations the
    evaluator applies to them.  Floats are binary64; [math.floor],
    [math.ceil] and [round] return Python integers; a negative float raised
    to a non-integral power is a complex number.  The messages of the
    interpreter's own exceptions are those of CPython 3.8 to 3.13. *)

Module PyNum.
Import PyStr.

Definition prec : Z := 53.
Definition emax : Z := 1024.

Definition float : Set := spec_float.

Inductive exn : Set :=
| ValueError (msg : string)
| ZeroDivisionError (msg : string)
| OverflowError (msg : string)
| TypeError (msg : string).

(** [str(e)] *)
Definition str_exn (e : exn) : string :=
  match e with
  | ValueError m | ZeroDivisionError m | OverflowError m | TypeError m => m
  end.

Definition result (A : Type) : Type := exn + A.
Definition ret {A : Type} (a : A) : result A := inr a.
Definition raise {A : Type} (e : exn) : result A := inl e.
Definition bind {A B : Type} (r : result A) (k : A -> result B) : result B :=
  match r with
  | inl e => inl e
  | inr a => k a
  end.

Declare Scope py_scope.
Delimit Scope py_scope with py.
Notation "x <- r ;; k" := (bind r (fun x => k))
  (at level 61, r at next level, right associativity) : py_scope.
Local Open Scope py_scope.

(** *** binary64 *)

Definition fadd : float -> float -> float := SFadd prec emax.
Definition fsub : float -> float -> float := SFsub prec emax.
Definition fmul : float -> float -> float := SFmul prec emax.
Definition fdiv : float -> float -> float := SFdiv prec emax.
Definition fsqrt : float -> float := SFsqrt prec emax.
Definition fopp : float -> float := SFopp.
Definition fabs : float -> float := SFabs.
Definition feqb : float -> float -> bool := SFeqb.
Definition fltb : float -> float -> bool := SFltb.

Definition isnan (x : float) : bool :=
  match x with S754_nan => true | _ => false end.
Definition isinf (x : float) : bool :=
  match x with S754_infinity _ => true | _ => false end.
Definition isfinite (x : float) : bool :=
  match x with S754_zero _ | S754_finite _ _ _ => true | _ => false end.
Definition signbit (x : float) : bool :=
  match x with
  | S754_zero s | S754_infinity s | S754_finite s _ _ => s
  | S754_nan => false
  end.

Definition fzero : float := S754_zero false.
Definition finf : float := S754_infinity false.
Definition fnan : float := S754_nan.

(** The integer [z] rounded to the nearest float, ties to even; an
    infinity when it is out of range. *)
Definition float_of_Z (z : Z) : float := binary_normalize prec emax z 0 false.

Definition fone : float := Eval vm_compute in float_of_Z 1.
Definition ftwo : float := Eval vm_compute in float_of_Z 2.

(** The quotient [n / d] of two integers, [0 < d], rounded to the nearest
    float, ties to even; a zero carries the sign [szero]. *)
Definition float_of_quotient (n : Z) (d : positive) (szero : bool) : float :=
  match n with
  | Z0 => S754_zero szero
  | Zpos m => SFdiv prec emax (S754_finite false m 0) (S754_finite false d 0)
  | Zneg m => SFdiv prec emax (S754_finite true m 0) (S754_finite false d 0)
  end.

(** The value of a float as an exact fraction [n / 2^k]. *)
Definition float_to_fraction (x : float) : option (Z * Z) :=
  match x with
  | S754_zero _ => Some (0, 0)%Z
  | S754_finite s m e =>
      let n := if s then Zneg m else Zpos m in
      if (0 <=? e)%Z then Some (n * 2 ^ e, 0)%Z else Some (n, - e)%Z
  | _ => None
  end.

(** [floor(x)], [ceil(x)] and the nearest integer to [x], ties to even, as
    exact integers. *)
Definition floor_Z (x : float) : option Z :=
  match float_to_fraction x with
  | Some (n, k) => Some (n / 2 ^ k)%Z
  | None => None
  end.

Definition ceil_Z (x : float) : option Z :=
  match float_to_fraction x with
  | Some (n, k) => Some (- ((- n) / 2 ^ k))%Z
  | None => None
  end.

Definition round_half_even_Z (x : float) : option Z :=
  match float_to_fraction x with
  | Some (n, k) =>
      let q := (n / 2 ^ k)%Z in
      let r := (2 * (n mod 2 ^ k))%Z in
      Some (match (r ?= 2 ^ k)%Z with
            | Lt => q
            | Gt => q + 1
            | Eq => if Z.even q then q else q + 1
            end)%Z
  | None => None
  end.

(** [x == floor(x)] for a finite [x]. *)
Definition is_integral (x : float) : bool :=
  match float_to_fraction x with
  | Some (n, k) => (n mod 2 ^ k =? 0)%Z
  | None => false
  end.

(** [DOUBLE_IS_ODD_INTEGER(x)]: [fmod(fabs(x), 2.0) == 1.0]. *)
Definition is_odd_integer (x : float) : bool :=
  match float_to_fraction x with
  | Some (n, k) => (n mod 2 ^ k =? 0)%Z && Z.odd (n / 2 ^ k)
  | None => false
  end.

(** *** [float(s)]

    [PyFloat_FromString] on a string: the characters above U+007F become a
    space when they are white space and a question mark otherwise, the
    white space at both ends is removed, the underscores that stand between
    two digits are removed, and what is left is read in full as a decimal
    number ([digits [. [digits]]] or [. digits] with an optional sign and an
    optional exponent [e|E [+|-] digits]), rounded to the nearest float, or
    else as [inf], [infinity] or [nan] with an optional sign, in any
    case. *)

Fixpoint digits_value (s : string) (acc : Z) : Z :=
  match s with
  | String c s' =>
      if isdecimal c then digits_value s' (10 * acc + Z.of_nat (nat_of_ascii c - 48))
      else acc
  | EmptyString => acc
  end.

Fixpoint skip_digits (s : string) : string :=
  match s with
  | String c s' => if isdecimal c then skip_digits s' else s
  | EmptyString => s
  end.

Definition count_digits (s : string) : nat :=
  String.length s - String.length (skip_digits s).

Definition split_sign (s : string) : bool * string :=
  match s with
  | String "+" t => (false, t)
  | String "-" t => (true, t)
  | _ => (false, s)
  end.

(** [m * 10^e] rounded to the nearest float. *)
Definition float_of_decimal (m e : Z) : float :=
  match e with
  | Zneg p => float_of_quotient m (10 ^ p) false
  | _ => float_of_Z (m * 10 ^ e)
  end.

(** [_Py_dg_strtod] on a text it reads in full. *)
Definition strtod (s : string) : option float :=
  let '(negative, s0) := split_sign s in
  let int_digits := count_digits s0 in
  let s1 := skip_digits s0 in
  let '(frac_digits, s2) :=
    match s1 with
    | String "." t => (count_digits t, skip_digits t)
    | _ => (O, s1)
    end in
  if (int_digits + frac_digits =? 0)%nat then None
  else
    let mantissa :=
      match s1 with
      | String "." t => digits_value t (digits_value s0 0)
      | _ => digits_value s0 0
      end in
    let exponent : option Z :=
      match s2 with
      | EmptyString => Some 0%Z
      | String c t =>
          if Ascii.eqb (lower c) "e" then
            let '(negative_exp, t') := split_sign t in
            if (count_digits t' =? 0)%nat then None
            else if negb (String.eqb (skip_digits t') "") then None
            else Some (if negative_exp then - digits_value t' 0
                       else digits_value t' 0)%Z
          else None
      end in
    match exponent with
    | Some e =>
        let x := float_of_decimal mantissa (e - Z.of_nat frac_digits) in
        Some (if negative then fopp x else x)
    | None => None
    end.

(** [_Py_parse_inf_or_nan] on a text it reads in full. *)
Fixpoint lower_all (s : string) : string :=
  match s with
  | EmptyString => EmptyString
  | String c s' => String (lower c) (lower_all s')
  end.

Definition parse_inf_or_nan (s : string) : option float :=
  let '(negative, s0) := split_sign s in
  let word := lower_all s0 in
  if String.eqb word "inf" || String.eqb word "infinity" then
    Some (S754_infinity negative)
  else if String.eqb word "nan" then Some fnan
  else None.

(** [_PyUnicode_TransformDecimalAndSpaceToASCII]: no character above
    U+007F is a decimal digit, and U+0085 and U+00A0 are the white space
    there. *)
Fixpoint to_ascii (s : string) : string :=
  match s with
  | EmptyString => EmptyString
  | String c s' =>
      let n := nat_of_ascii c in
      String (if (n <? 128)%nat then c
              else if (n =? 133)%nat || (n =? 160)%nat then " "%char
              else "?"%char)
        (to_ascii s')
  end.

(** [Py_ISSPACE] *)
Definition is_space (c : ascii) : bool :=
  let n := nat_of_ascii c in between 9 n 13 || (n =? 32)%nat.

Fixpoint strip_left (s : string) : string :=
  match s with
  | String c s' => if is_space c then strip_left s' else s
  | EmptyString => s
  end.

(** The text without the white space at its end; [true] when it is all
    white space. *)
Fixpoint strip_right (s : string) : string * bool :=
  match s with
  | EmptyString => (EmptyString, true)
  | String c s' =>
      let '(t, blank) := strip_right s' in
      if blank && is_space c then (EmptyString, true) else (String c t, false)
  end.

Definition strip (s : string) : string := fst (strip_right (strip_left s)).

(** [_Py_string_to_number_with_underscores]: an underscore stands after a
    digit and before a digit; [prev] is the character before. *)
Fixpoint remove_underscores (prev : ascii) (s : string) : option string :=
  match s with
  | EmptyString => if Ascii.eqb prev "_" then None else Some EmptyString
  | String c s' =>
      if Ascii.eqb c "_" then
        if isdecimal prev then remove_underscores c s' else None
      else if Ascii.eqb prev "_" && negb (isdecimal c) then None
      else
        match remove_underscores c s' with
        | Some t => Some (String c t)
        | None => None
        end
  end.

Definition float_of_string (s : string) : option float :=
  match remove_underscores Ascii.zero (strip (to_ascii s)) with
  | Some t =>
      match strtod t with
      | Some x => Some x
      | None => parse_inf_or_nan t
      end
  | None => None
  end.

(** *** The numeric tower *)

Record complex : Set := mkComplex { real : float; imag : float }.

Inductive number : Set :=
| PyFloat (x : float)
| PyInt (n : Z)
| PyComplex (z : complex).

(** The functions of the C mathematical library and of the interpreter's
    complex arithmetic that the built-ins below call.  Their code is not
    part of the repository; the evaluator is parameterised by them. *)
Record Runtime : Type := mkRuntime {
  libm_sin : float -> float;
  libm_cos : float -> float;
  libm_tan : float -> float;
  libm_asin : float -> float;
  libm_acos : float -> float;
  libm_atan : float -> float;
  libm_sinh : float -> float;
  libm_cosh : float -> float;
  libm_tanh : float -> float;
  libm_exp : float -> float;
  libm_log : float -> float;
  libm_log10 : float -> float;
  libm_pow : float -> float -> float;
  libm_hypot : float -> float -> float;
  c_sum : complex -> complex -> complex;
  c_diff : complex -> complex -> complex;
  c_prod : complex -> complex -> complex;
  c_quot : complex -> complex -> complex;
  c_pow : complex -> complex -> complex
}.

(** [PyLong_AsDouble] *)
Definition int_as_double (n : Z) : result float :=
  let x := float_of_Z n in
  if isinf x then raise (OverflowError "int too large to convert to float")
  else ret x.

(** [PyFloat_AsDouble], the argument conversion of the [math] module *)
Definition as_double (v : number) : result float :=
  match v with
  | PyFloat x => ret x
  | PyInt n => int_as_double n
  | PyComplex _ => raise (TypeError "must be real number, not complex")
  end.

Definition as_complex (v : number) : result complex :=
  match v with
  | PyFloat x => ret (mkComplex x fzero)
  | PyInt n => x <- int_as_double n ;; ret (mkComplex x fzero)
  | PyComplex z => ret z
  end.

(** [PyLong_FromDouble] *)
Definition int_from_double (to_Z : float -> option Z) (x : float) : result number :=
  match to_Z x with
  | Some n => ret (PyInt n)
  | None =>
      if isnan x then raise (ValueError "cannot convert float NaN to integer")
      else raise (OverflowError "cannot convert float infinity to integer")
  end.

Section Builtins.
Variable R : Runtime.

(** **** The [math] module *)

(** [math_1]: the error is read off the result of the C function. *)
Definition math_1 (func : float -> float) (can_overflow : bool) (arg : number)
  : result number :=
  x <- as_double arg ;;
  let r := func x in
  if isnan r && negb (isnan x) then raise (ValueError "math domain error")
  else if isinf r && isfinite x then
    if can_overflow then raise (OverflowError "math range error")
    else raise (ValueError "math domain error")
  else ret (PyFloat r).

(** [m_log], [m_log10]: the C function guarded on its domain. *)
Definition m_log (func : float -> float) (x : float) : float :=
  if isfinite x then
    if fltb fzero x then func x
    else if feqb x fzero then S754_infinity true
    else fnan
  else if isnan x then x
  else if fltb fzero x then x
  else fnan.

(** [_PyLong_Frexp] on a positive integer: [n ~ x * 2^e], [0.5 <= x < 1]. *)
Definition long_frexp (n : Z) : float * Z :=
  let e := (Z.log2 n + 1)%Z in
  let x := binary_normalize prec emax n (- e) false in
  if feqb x fone then (fdiv fone ftwo, (e + 1)%Z) else (x, e).

(** [loghelper] *)
Definition loghelper (func : float -> float) (arg : number) : result number :=
  match arg with
  | PyInt n =>
      if (n <=? 0)%Z then raise (ValueError "math domain error")
      else
        let x := float_of_Z n in
        if isinf x then
          let '(x, e) := long_frexp n in
          ret (PyFloat (fadd (m_log func x)
                          (fmul (m_log func ftwo) (float_of_Z e))))
        else ret (PyFloat (m_log func x))
  | _ => math_1 (m_log func) false arg
  end.

Definition math_sin := math_1 (libm_sin R) false.
Definition math_cos := math_1 (libm_cos R) false.
Definition math_tan := math_1 (libm_tan R) false.
Definition math_asin := math_1 (libm_asin R) false.
Definition math_acos := math_1 (libm_acos R) false.
Definition math_atan := math_1 (libm_atan R) false.
Definition math_sinh := math_1 (libm_sinh R) true.
Definition math_cosh := math_1 (libm_cosh R) true.
Definition math_tanh := math_1 (libm_tanh R) false.
Definition math_exp := math_1 (libm_exp R) true.
Definition math_sqrt := math_1 fsqrt false.
Definition math_log := loghelper (libm_log R).
Definition math_log10 := loghelper (libm_log10 R).

Definition math_floor (arg : number) : result number :=
  match arg with
  | PyFloat x => int_from_double floor_Z x
  | PyInt n => ret (PyInt n)
  | PyComplex _ => raise (TypeError "must be real number, not complex")
  end.

Definition math_ceil (arg : number) : result number :=
  match arg with
  | PyFloat x => int_from_double ceil_Z x
  | PyInt n => ret (PyInt n)
  | PyComplex _ => raise (TypeError "must be real number, not complex")
  end.

(** **** [abs] and [round] *)

(** [_Py_c_abs] followed by the range check of [complex_abs] *)
Definition complex_abs (z : complex) : result number :=
  if negb (isfinite (real z)) || negb (isfinite (imag z)) then
    if isinf (real z) || isinf (imag z) then ret (PyFloat finf)
    else ret (PyFloat fnan)
  else
    let r := libm_hypot R (real z) (imag z) in
    if isfinite r then ret (PyFloat r)
    else raise (OverflowError "absolute value too large").

Definition py_abs (arg : number) : result number :=
  match arg with
  | PyFloat x => ret (PyFloat (fabs x))
  | PyInt n => ret (PyInt (Z.abs n))
  | PyComplex z => complex_abs z
  end.

Definition py_round (arg : number) : result number :=
  match arg with
  | PyFloat x => int_from_double round_half_even_Z x
  | PyInt n => ret (PyInt n)
  | PyComplex _ =>
      raise (TypeError "type complex doesn't define __round__ method")
  end.

(** **** Arithmetic *)

Definition float_div (a b : float) : result number :=
  if feqb b fzero then raise (ZeroDivisionError "float division by zero")
  else ret (PyFloat (fdiv a b)).

Definition complex_is_zero (z : complex) : bool :=
  feqb (real z) fzero && feqb (imag z) fzero.

Definition complex_div (a b : complex) : result number :=
  if complex_is_zero b then
    raise (ZeroDivisionError "complex division by zero")
  else ret (PyComplex (c_quot R a b)).

(** [complex_pow]: one for a zero exponent, an error for zero to a
    negative or complex power, an overflow when a component of the result
    is infinite. *)
Definition complex_pow (a b : complex) : result number :=
  if complex_is_zero b then ret (PyComplex (mkComplex fone fzero))
  else if complex_is_zero a
          && (negb (feqb (imag b) fzero) || fltb (real b) fzero) then
    raise (ZeroDivisionError "0.0 to a negative or complex power")
  else
    let p := c_pow R a b in
    if isinf (real p) || isinf (imag p) then
      raise (OverflowError "complex exponentiation")
    else ret (PyComplex p).

(** [copysign(0.0, x)] *)
Definition zero_with_sign_of (x : float) : float := S754_zero (signbit x).

(** [float_pow] *)
Definition float_pow (iv iw : float) : result number :=
  if feqb iw fzero then ret (PyFloat fone)
  else if isnan iv then ret (PyFloat iv)
  else if isnan iw then ret (PyFloat (if feqb iv fone then fone else iw))
  else if isinf iw then
    let iv := fabs iv in
    if feqb iv fone then ret (PyFloat fone)
    else if Bool.eqb (fltb fzero iw) (fltb fone iv) then ret (PyFloat (fabs iw))
    else ret (PyFloat fzero)
  else if isinf iv then
    let iw_is_odd := is_odd_integer iw in
    if fltb fzero iw then ret (PyFloat (if iw_is_odd then iv else fabs iv))
    else ret (PyFloat (if iw_is_odd then zero_with_sign_of iv else fzero))
  else if feqb iv fzero then
    let iw_is_odd := is_odd_integer iw in
    if fltb iw fzero then
      raise (ZeroDivisionError "0.0 cannot be raised to a negative power")
    else ret (PyFloat (if iw_is_odd then iv else fzero))
  else if fltb iv fzero && negb (is_integral iw) then
    (* a negative number to a non-integral power is complex *)
    complex_pow (mkComplex iv fzero) (mkComplex iw fzero)
  else
    let negate_result := fltb iv fzero && is_odd_integer iw in
    let iv := fabs iv in
    if feqb iv fone then
      ret (PyFloat (if negate_result then fopp fone else fone))
    else
      let ix := libm_pow R iv iw in
      if isinf ix then
        raise (OverflowError "(34, 'Numerical result out of range')")
      else ret (PyFloat (if negate_result then fopp ix else ix)).

(** [long_true_divide] *)
Definition int_true_divide (a b : Z) : result number :=
  match b with
  | Z0 => raise (ZeroDivisionError "division by zero")
  | _ =>
      let x := match b with
               | Zneg d => float_of_quotient (- a) d true
               | Zpos d => float_of_quotient a d false
               | Z0 => fzero
               end in
      if isinf x then
        raise (OverflowError "integer division result too large for a float")
      else ret (PyFloat x)
  end.

(** [long_pow]: a negative exponent goes through the floats. *)
Definition int_pow (a b : Z) : result number :=
  if (b <? 0)%Z then
    x <- int_as_double a ;; y <- int_as_double b ;; float_pow x y
  else ret (PyInt (a ^ b)).

(** The coercion of the two operands of a binary operator. *)
Definition binary_op
  (int_op : Z -> Z -> result number)
  (float_op : float -> float -> result number)
  (complex_op : complex -> complex -> result number)
  (a b : number) : result number :=
  match a, b with
  | PyInt m, PyInt n => int_op m n
  | PyComplex _, _ | _, PyComplex _ =>
      x <- as_complex a ;; y <- as_complex b ;; complex_op x y
  | _, _ =>
      x <- as_double a ;; y <- as_double b ;; float_op x y
  end.

Definition py_add : number -> number -> result number :=
  binary_op (fun m n => ret (PyInt (m + n)))
            (fun x y => ret (PyFloat (fadd x y)))
            (fun x y => ret (PyComplex (c_sum R x y))).

Definition py_sub : number -> number -> result number :=
  binary_op (fun m n => ret (PyInt (m - n)))
            (fun x y => ret (PyFloat (fsub x y)))
            (fun x y => ret (PyComplex (c_diff R x y))).

Definition py_mul : number -> number -> result number :=
  binary_op (fun m n => ret (PyInt (m * n)))
            (fun x y => ret (PyFloat (fmul x y)))
            (fun x y => ret (PyComplex (c_prod R x y))).

Definition py_truediv : number -> number -> result number :=
  binary_op int_true_divide float_div complex_div.

Definition py_pow : number -> number -> result number :=
  binary_op int_pow float_pow complex_pow.

End Builtins.

End PyNum.

(** ** evaluator.py *)

Module Evaluator.
Import PyStr Parser PyNum.
Local Open Scope py_scope.

(** [math.pi], [math.e] and the literal of [gamma], as floats. *)
Definition math_pi : float := S754_finite false 7074237752028440 (-51).
Definition math_e : float := S754_finite false 6121026514868073 (-51).
Definition gamma_literal : float := S754_finite false 5199096506725913 (-53).

Section WithRuntime.
Variable R : Runtime.

(** [MathEvaluator.__init__] *)
Definition functions : list (string * (number -> result number)) :=
  [ ("sin", math_sin R);
    ("cos", math_cos R);
    ("tan", math_tan R);
    ("asin", math_asin R);
    ("acos", math_acos R);
    ("atan", math_atan R);
    ("sinh", math_sinh R);
    ("cosh", math_cosh R);
    ("tanh", math_tanh R);
    ("ln", math_log R);
    ("log", math_log10 R);
    ("exp", math_exp R);
    ("sqrt", math_sqrt);
    ("abs", py_abs R);
    ("floor", math_floor);
    ("ceil", math_ceil);
    ("round", py_round) ].

Definition constants : list (string * number) :=
  [ ("pi", PyFloat math_pi);
    ("e", PyFloat math_e);
    ("phi", PyFloat (fdiv (fadd fone (fsqrt (float_of_Z 5))) ftwo));
    ("gamma", PyFloat gamma_literal);
    ("inf", PyFloat finf);
    ("nan", PyFloat fnan) ].

Definition operators : list (string * (number -> number -> result number)) :=
  [ ("+", py_add R);
    ("-", py_sub R);
    ("*", py_mul R);
    ("/", py_truediv R);
    ("^", py_pow R);
    ("**", py_pow R) ].

(** The names the [FUNCTION] branch treats as unary. *)
Definition unary_functions : list string :=
  [ "sin"; "cos"; "tan"; "asin"; "acos"; "atan";
    "sinh"; "cosh"; "tanh"; "ln"; "log"; "exp";
    "sqrt"; "abs"; "floor"; "ceil"; "round" ].

(** [float(token.value)] *)
Definition py_float (s : string) : result number :=
  match float_of_string s with
  | Some x => ret (PyFloat x)
  | None =>
      raise (ValueError ("could not convert string to float: " ++ repr s)%string)
  end.

(** One iteration of the [for] loop of [evaluate_postfix]; the top of
    [stack] is its head. *)
Definition evaluate_token (variables : list (string * number))
  (token : Token) (stack : list number) : result (list number) :=
  match type token with
  | NUMBER =>
      x <- py_float (value token) ;; ret (x :: stack)
  | VARIABLE =>
      match lookup (value token) variables with
      | Some v => ret (v :: stack)
      | None => raise (ValueError ("Undefined variable: " ++ value token)%string)
      end
  | CONSTANT =>
      match lookup (value token) constants with
      | Some v => ret (v :: stack)
      | None => raise (ValueError ("Unknown constant: " ++ value token)%string)
      end
  | OPERATOR =>
      match stack with
      | b :: a :: stack' =>
          match lookup (value token) operators with
          | Some op => r <- op a b ;; ret (r :: stack')
          | None => raise (ValueError ("Unknown operator: " ++ value token)%string)
          end
      | _ =>
          raise (ValueError
                   ("Insufficient operands for operator " ++ value token)%string)
      end
  | FUNCTION =>
      match lookup (value token) functions with
      | Some func =>
          if mem (value token) unary_functions then
            match stack with
            | arg :: stack' => r <- func arg ;; ret (r :: stack')
            | [] =>
                raise (ValueError
                         ("Insufficient arguments for function "
                            ++ value token)%string)
            end
          else ret stack
      | None => raise (ValueError ("Unknown function: " ++ value token)%string)
      end
  | LEFT_PAREN | RIGHT_PAREN | COMMA | EOF => ret stack
  end.

Fixpoint evaluate_loop (variables : list (string * number))
  (postfix_tokens : list Token) (stack : list number) : result (list number) :=
  match postfix_tokens with
  | [] => ret stack
  | token :: rest =>
      stack' <- evaluate_token variables token stack ;;
      evaluate_loop variables rest stack'
  end.

Definition evaluate_postfix (postfix_tokens : list Token)
  (variables : list (string * number)) : result number :=
  stack <- evaluate_loop variables postfix_tokens [] ;;
  match stack with
  | [v] => ret v
  | _ =>
      raise (ValueError
               "Invalid expression: incorrect number of values remaining")
  end.

(** The dictionary returned by [evaluate_expression]. *)
Inductive evaluation : Set :=
| EvalFailure (error expression : string)
| EvalSuccess (value : number) (expression : string) (tokens : nat).

Definition evaluate_expression (expression : string)
  (variables : list (string * number)) : evaluation :=
  match parse_expression expression with
  | ParseFailure error _ => EvalFailure error expression
  | ParseSuccess tokens postfix _ =>
      match evaluate_postfix postfix variables with
      | inr result => EvalSuccess result expression (List.length tokens - 1)
      | inl e => EvalFailure (str_exn e) expression
      end
  end.

End WithRuntime.

End Evaluator.


(** * Vocabulary of the properties *)

Module Vocabulary.
Import PyStr Parser PyNum Evaluator.

(** What one turn of the loop of [tokenize] does: it stops with the [EOF]
    token, emits a token and moves on, or skips one character. *)
Inductive turn (expression : string) (position : nat) : Prop :=
| Stop : String.get position expression = None -> turn expression position
| Emit (token : Token) (new_pos : nat) :
    position < String.length expression ->
    position < new_pos ->
    type token <> EOF ->
    Parser.position token = position ->
    (exists r, drop position expression = (value token ++ r)%string) ->
    new_pos = position + String.length (value token) ->
    (forall fuel, tokenize_loop (S fuel) expression position
                  = token :: tokenize_loop fuel expression new_pos) ->
    turn expression position
| Skip :
    position < String.length expression ->
    (forall fuel, tokenize_loop (S fuel) expression position
                  = tokenize_loop fuel expression (position + 1)) ->
    turn expression position.

(** A token moved [n] characters to the right. *)
Definition shift (n : nat) (token : Token) : Token :=
  mkToken (type token) (value token) (n + position token).

(** A numeric literal: a string that begins as a number does and that
    [_parse_number] reads in full. *)
Definition numeric_literal (a : string) : bool :=
  match a with
  | String c _ =>
      (isdigit c || Ascii.eqb c ".") && String.eqb (number_prefix a false) a
  | EmptyString => false
  end.

(** The text [r] cannot continue a number: it is empty or begins with a
    character other than a digit, a point and the letter e. *)
Definition stops_number (r : string) : bool :=
  match r with
  | String c _ =>
      negb (isdigit c || Ascii.eqb c "." || Ascii.eqb (lower c) "e")
  | EmptyString => true
  end.

(** What the evaluator reads of a token. *)
Definition erase (token : Token) : TokenType * string :=
  (type token, value token).

(** What an evaluation reports besides the text it was given and the number
    of its tokens: the message of a failure or the value of a success. *)
Definition outcome (e : evaluation) : string + number :=
  match e with
  | EvalFailure error _ => inl error
  | EvalSuccess v _ _ => inr v
  end.

(** The tokens that [validate_syntax] and [parse_to_postfix] read: those
    before the first [EOF]. *)
Fixpoint before_eof (tokens : list Token) : list Token :=
  match tokens with
  | [] => []
  | token :: rest =>
      if TokenType_eqb (type token) EOF then [] else token :: before_eof rest
  end.

Definition has_type (t : TokenType) (token : Token) : bool :=
  TokenType_eqb (type token) t.

Definition count_type (t : TokenType) (tokens : list Token) : nat :=
  List.length (filter (has_type t) tokens).

(** Value tokens. *)
Definition is_value (token : Token) : bool :=
  has_type NUMBER token || has_type VARIABLE token || has_type CONSTANT token.

(** Value, operator and function tokens: the ones a postfix sequence is
    made of. *)
Definition is_emitted (token : Token) : bool :=
  is_value token || has_type OPERATOR token || has_type FUNCTION token.

(** What the operator stack of the converter may hold. *)
Definition is_stackable (token : Token) : bool :=
  has_type FUNCTION token || has_type OPERATOR token || has_type LEFT_PAREN token.



Definition is_OverflowError (e : exn) : bool :=
  match e with OverflowError _ => true | _ => false end.


(** The integer a float is equal to, if any. *)
Definition float_to_integer (x : float) : option Z :=
  if is_integral x then floor_Z x else None.

(** The power function of the C library is exact on integers: for a
    positive integer base and a non-negative integer exponent whose power is
    below [2^53], hence a float, it returns that power. *)
Definition pow_exact_on_integers (R : Runtime) : Prop :=
  forall (x y : float) (a b : Z),
    float_to_integer x = Some a ->
    float_to_integer y = Some b ->
    (0 < a)%Z -> (0 <= b)%Z -> (a ^ b < 2 ^ 53)%Z ->
    libm_pow R x y = float_of_Z (a ^ b).

(** A runtime that is exact where integer arithmetic decides the result,
    the powers of integers, and answers NaN elsewhere.  The theorems hold
    for every runtime; this one instantiates them. *)
Definition integer_pow (x y : float) : float :=
  match float_to_integer x, float_to_integer y with
  | Some a, Some b =>
      if (0 <? a)%Z && (0 <=? b)%Z && (a ^ b <? 2 ^ 53)%Z
      then float_of_Z (a ^ b) else fnan
  | _, _ => fnan
  end.

Definition integer_runtime : Runtime :=
  let nan1 := fun _ : float => fnan in
  let nan2 := fun _ _ : complex => mkComplex fnan fnan in
  mkRuntime nan1 nan1 nan1 nan1 nan1 nan1 nan1 nan1 nan1 nan1 nan1 nan1
    integer_pow (fun _ _ => fnan) nan2 nan2 nan2 nan2 nan2.

(** *** The rules of the validator

    The five rules as the specification words them, each a predicate on the
    tokens before [EOF], and the lowest-numbered one that fails. *)

Fixpoint parens_balanced (tokens : list Token) (count : nat) : bool :=
  match tokens with
  | [] => (count =? 0)%nat
  | token :: rest =>
      if has_type LEFT_PAREN token then parens_balanced rest (S count)
      else if has_type RIGHT_PAREN token then
        match count with
        | O => false
        | S count' => parens_balanced rest count'
        end
      else parens_balanced rest count
  end.

Fixpoint no_consecutive_operators (tokens : list Token) : bool :=
  match tokens with
  | a :: rest =>
      match rest with
      | b :: _ => negb (has_type OPERATOR a && has_type OPERATOR b)
      | [] => true
      end && no_consecutive_operators rest
  | [] => true
  end.

Definition may_precede_function (prev_token : option Token) : bool :=
  match prev_token with
  | Some prev =>
      has_type OPERATOR prev || has_type LEFT_PAREN prev || has_type COMMA prev
  | None => true
  end.

Fixpoint functions_well_placed (prev_token : option Token) (tokens : list Token)
  : bool :=
  match tokens with
  | token :: rest =>
      (negb (has_type FUNCTION token) || may_precede_function prev_token)
      && functions_well_placed (Some token) rest
  | [] => true
  end.

Definition last_token (tokens : list Token) : option Token :=
  List.last (map Some tokens) None.

Definition ends_with_operator (tokens : list Token) : bool :=
  match last_token tokens with
  | Some token => has_type OPERATOR token
  | None => false
  end.

Definition first_failing_rule (tokens : list Token) : option nat :=
  let body := before_eof tokens in
  match body with
  | [] => Some 1
  | _ =>
      if negb (parens_balanced body 0) then Some 2
      else if negb (no_consecutive_operators body) then Some 3
      else if negb (functions_well_placed None body) then Some 4
      else if ends_with_operator body then Some 5
      else None
  end.

(** The rule that a result of [validate_syntax] reports, read off its
    message. *)
Definition reported_rule (r : bool * string) : option nat :=
  if fst r then None
  else if String.prefix "Empty expression" (snd r) then Some 1
  else if String.prefix "Unmatched" (snd r) then Some 2
  else if String.prefix "Consecutive operators" (snd r) then Some 3
  else if String.prefix "Invalid function call" (snd r) then Some 4
  else Some 5.

(** What the token [token] breaks when it comes after the tokens [pre]: it
    closes a parenthesis that is not open, it is an operator after an
    operator, or it is a function after a token other than an operator, a
    left parenthesis and a comma. *)
Definition offence (pre : list Token) (token : Token) : option string :=
  if has_type RIGHT_PAREN token
     && (count_type LEFT_PAREN pre <=? count_type RIGHT_PAREN pre)%nat then
    Some ("Unmatched closing parenthesis at position "
            ++ of_nat (position token))%string
  else if has_type OPERATOR token && ends_with_operator pre then
    Some ("Consecutive operators at position " ++ of_nat (position token))%string
  else if has_type FUNCTION token && negb (may_precede_function (last_token pre)) then
    Some ("Invalid function call at position " ++ of_nat (position token))%string
  else None.

(** No token of [tokens], read after [pre], is [EOF] or breaks anything. *)
Fixpoint inoffensive (pre tokens : list Token) : bool :=
  match tokens with
  | [] => true
  | token :: rest =>
      negb (has_type EOF token)
      && match offence pre token with Some _ => false | None => true end
      && inoffensive (pre ++ [token]) rest
  end.

(** The left parentheses of [pre] that are still open, as the counter of
    the validator holds them. *)
Definition balance (pre : list Token) : Z :=
  (Z.of_nat (count_type LEFT_PAREN pre) - Z.of_nat (count_type RIGHT_PAREN pre))%Z.

(** What is reported at the end of tokens none of which offends. *)
Definition end_report (body : list Token) : bool * string :=
  if negb (count_type LEFT_PAREN body =? count_type RIGHT_PAREN body)%nat then
    (false, "Unmatched parentheses")
  else if ends_with_operator body then
    (false, "Expression cannot end with an operator")
  else (true, "").

End Vocabulary.

(** * Vocabulary of the positions and of the further properties *)

Module Vocabulary2.
Import PyStr Parser PyNum Evaluator Vocabulary.

(** The tokens follow one another from the offset [from] on: each starts at
    or after the end of the one before it. *)
Fixpoint ordered (from : nat) (tokens : list Token) : bool :=
  match tokens with
  | [] => true
  | token :: rest =>
      (from <=? position token)%nat
      && ordered (position token + String.length (value token)) rest
  end.

(** The texts of the tokens, one after the other. *)
Fixpoint lexemes (tokens : list Token) : string :=
  match tokens with
  | [] => ""
  | token :: rest => (value token ++ lexemes rest)%string
  end.

(** The characters the tokenizer does not skip. *)
Definition recognised (c : ascii) : bool :=
  isdigit c || Ascii.eqb c "." || isalpha c || char_in c "+-*/^"
  || Ascii.eqb c "(" || Ascii.eqb c ")" || Ascii.eqb c ",".

(** The number of characters that the tokenizer skips at the beginning
    of [s]. *)
Fixpoint skipped (s : string) : nat :=
  match s with
  | String c s' => if recognised c then 0 else S (skipped s')
  | EmptyString => 0
  end.

(** Where tokens with the texts of [tokens] stand in [s] from the offset
    [from] on: each at the first character, after the end of the one
    before, that the tokenizer does not skip. *)
Fixpoint offsets (s : string) (from : nat) (tokens : list Token) : list nat :=
  match tokens with
  | [] => []
  | token :: rest =>
      let p := from + skipped (drop from s) in
      p :: offsets s (p + String.length (value token)) rest
  end.

(** The offset in [expression] of the character that stands at the offset
    [p] once the spaces are removed; the length of [expression] when [p] is
    the length of what is left. *)
Fixpoint source_offset (expression : string) (p : nat) : nat :=
  match expression with
  | EmptyString => 0
  | String c s =>
      if Ascii.eqb c " " then S (source_offset s p)
      else match p with
           | O => O
           | S p' => S (source_offset s p')
           end
  end.

(** The number of spaces among the first [q] characters of
    [expression]. *)
Fixpoint spaces_before (expression : string) (q : nat) : nat :=
  match q, expression with
  | S q', String c s =>
      (if Ascii.eqb c " " then 1 else 0) + spaces_before s q'
  | _, _ => 0
  end.

Fixpoint all_chars (p : ascii -> bool) (s : string) : bool :=
  match s with
  | EmptyString => true
  | String c s' => p c && all_chars p s'
  end.

(** The text of a token agrees with its type. *)
Definition well_classified (token : Token) : bool :=
  match type token with
  | NUMBER =>
      match value token with
      | String c _ => isdigit c || Ascii.eqb c "."
      | EmptyString => false
      end
  | OPERATOR => mem (value token) ["+"; "-"; "*"; "/"; "^"; "**"]
  | FUNCTION => mem (value token) Parser.functions
  | CONSTANT =>
      negb (mem (value token) Parser.functions)
      && mem (value token) Parser.constants
  | VARIABLE =>
      negb (mem (value token) Parser.functions)
      && negb (mem (value token) Parser.constants)
      && match value token with
         | String c _ => isalpha c
         | EmptyString => false
         end
  | LEFT_PAREN => String.eqb (value token) "("
  | RIGHT_PAREN => String.eqb (value token) ")"
  | COMMA => String.eqb (value token) ","
  | EOF => String.eqb (value token) ""
  end.

Definition is_operator (prev_token : option Token) : bool :=
  match prev_token with
  | Some prev => has_type OPERATOR prev
  | None => false
  end.

(** Rules 2 to 5 on the tokens [body] read after the token [prev_token],
    [count] left parentheses being open. *)
Definition rules_hold_from (count : nat) (prev_token : option Token)
  (body : list Token) : bool :=
  parens_balanced body count
  && match body with
     | first :: _ => negb (is_operator prev_token && has_type OPERATOR first)
     | [] => true
     end
  && no_consecutive_operators body
  && functions_well_placed prev_token body
  && negb (match last_token body with
           | Some token => has_type OPERATOR token
           | None => is_operator prev_token
           end).

(** An identifier: a string that begins with a letter and that
    [_parse_identifier] reads in full. *)
Definition identifier (x : string) : bool :=
  match x with
  | String c _ => isalpha c && String.eqb (identifier_prefix x) x
  | EmptyString => false
  end.

(** The text [r] cannot continue an identifier: it is empty or begins with
    a character other than a letter, a digit and the underscore. *)
Definition stops_identifier (r : string) : bool :=
  match r with
  | String c _ => negb (isalnum c || Ascii.eqb c "_")
  | EmptyString => true
  end.

(** The type the tokenizer gives to an identifier. *)
Definition classify (x : string) : TokenType :=
  if mem x Parser.functions then FUNCTION
  else if mem x Parser.constants then CONSTANT
  else VARIABLE.

(** The message or the value that [evaluate_expression] reports for a
    computation of the evaluator. *)
Definition reported (r : result number) : string + number :=
  match r with
  | inl e => inl (str_exn e)
  | inr v => inr v
  end.

(** *** Fully parenthesised expressions

    The expressions built from numeric literals, variables and constants
    with operations [(l op r)] and calls [f(arg)], and what each is expected
    to evaluate to. *)
Inductive expr : Set :=
| Literal (a : string)
| Var (x : string)
| Const (k : string)
| Operation (l : expr) (op : string) (r : expr)
| Call (f : string) (arg : expr).

(** The text of an expression. *)
Fixpoint written (e : expr) : string :=
  match e with
  | Literal a => a
  | Var x => x
  | Const k => k
  | Operation l op r => ("(" ++ written l ++ op ++ written r ++ ")")%string
  | Call f arg => (f ++ "(" ++ written arg ++ ")")%string
  end.

(** Its parts are what they are meant to be: the literals are numeric
    literals, the variables are identifiers that are neither functions nor
    constants, and the constants, the operators and the functions are those
    of the parser. *)
Fixpoint well_formed (e : expr) : bool :=
  match e with
  | Literal a => numeric_literal a
  | Var x => identifier x && TokenType_eqb (classify x) VARIABLE
  | Const k => mem k Parser.constants
  | Operation l op r =>
      well_formed l
      && match lookup op Parser.operators with Some _ => true | None => false end
      && well_formed r
  | Call f arg => mem f Parser.functions && well_formed arg
  end.

(** Its tokens, the first one at the offset [p]. *)
Fixpoint infix (e : expr) (p : nat) : list Token :=
  match e with
  | Literal a => [mkToken NUMBER a p]
  | Var x => [mkToken VARIABLE x p]
  | Const k => [mkToken CONSTANT k p]
  | Operation l op r =>
      let p1 := p + 1 in
      let p2 := p1 + String.length (written l) in
      let p3 := p2 + String.length op in
      let p4 := p3 + String.length (written r) in
      mkToken LEFT_PAREN "(" p
        :: infix l p1
        ++ mkToken OPERATOR op p2
        :: infix r p3
        ++ [mkToken RIGHT_PAREN ")" p4]
  | Call f arg =>
      let p1 := p + String.length f in
      let p2 := p1 + 1 in
      let p3 := p2 + String.length (written arg) in
      mkToken FUNCTION f p
        :: mkToken LEFT_PAREN "(" p1
        :: infix arg p2
        ++ [mkToken RIGHT_PAREN ")" p3]
  end.

(** The same tokens in postfix order. *)
Fixpoint postfix (e : expr) (p : nat) : list Token :=
  match e with
  | Literal a => [mkToken NUMBER a p]
  | Var x => [mkToken VARIABLE x p]
  | Const k => [mkToken CONSTANT k p]
  | Operation l op r =>
      let p1 := p + 1 in
      let p2 := p1 + String.length (written l) in
      let p3 := p2 + String.length op in
      postfix l p1 ++ postfix r p3 ++ [mkToken OPERATOR op p2]
  | Call f arg =>
      let p2 := p + String.length f + 1 in
      postfix arg p2 ++ [mkToken FUNCTION f p]
  end.

(** The text [r] may follow an expression: it is empty or begins with an
    operator or a right parenthesis. *)
Definition closes (r : string) : bool :=
  match r with
  | String c _ => char_in c "+-*/^)"
  | EmptyString => true
  end.

(** The token before an expression, if any, is an operator or a left
    parenthesis. *)
Definition starts_term (prev_token : option Token) : bool :=
  match prev_token with
  | Some prev =>
      TokenType_eqb (type prev) OPERATOR || TokenType_eqb (type prev) LEFT_PAREN
  | None => true
  end.

(** The last token of an expression is a value or a right parenthesis. *)
Definition ends_term (token : Token) : bool :=
  is_value token || has_type RIGHT_PAREN token.

(** No function waits on top of the operator stack. *)
Definition no_function_on_top (operator_stack : list Token) : bool :=
  match operator_stack with
  | top :: _ => negb (TokenType_eqb (type top) FUNCTION)
  | [] => true
  end.

Section Meaning.
Variable R : Runtime.
Variable variables : list (string * number).
Local Open Scope py_scope.

(** The value of an expression, computed on its structure: the operands
    from left to right, then the operation. *)
Fixpoint meaning (e : expr) : result number :=
  match e with
  | Literal a => py_float a
  | Var x =>
      match lookup x variables with
      | Some v => ret v
      | None => raise (ValueError ("Undefined variable: " ++ x)%string)
      end
  | Const k =>
      match lookup k Evaluator.constants with
      | Some v => ret v
      | None => raise (ValueError ("Unknown constant: " ++ k)%string)
      end
  | Operation l op r =>
      a <- meaning l ;;
      b <- meaning r ;;
      match lookup op (Evaluator.operators R) with
      | Some fn => fn a b
      | None => raise (ValueError ("Unknown operator: " ++ op)%string)
      end
  | Call f arg =>
      x <- meaning arg ;;
      match lookup f (Evaluator.functions R) with
      | Some func => func x
      | None => raise (ValueError ("Unknown function: " ++ f)%string)
      end
  end.

End Meaning.

End Vocabulary2.
(** * Properties *)

(** ** Strings *)

Module PyStrFacts.
Import PyStr.

Lemma length_app (a b : string) :
  String.length (a ++ b) = String.length a + String.length b.
Proof. induction a as [|c a IH]; simpl; [reflexivity | now rewrite IH]. Qed.

Lemma app_empty_r (a : string) : (a ++ "")%string = a.
Proof. induction a as [|c a IH]; simpl; [reflexivity | now rewrite IH]. Qed.

Lemma app_assoc (a b c : string) : ((a ++ b) ++ c = a ++ (b ++ c))%string.
Proof. induction a as [|x a IH]; simpl; [reflexivity | now rewrite IH]. Qed.

Lemma get_drop (n : nat) (s : string) :
  String.get n s = match drop n s with String c _ => Some c | EmptyString => None end.
Proof.
  revert s; induction n as [|n IH]; intros [|c s]; simpl; auto.
Qed.

Lemma get_Some_drop (n : nat) (s : string) (c : ascii) :
  String.get n s = Some c -> exists r, drop n s = String c r.
Proof.
  rewrite get_drop. destruct (drop n s) as [|d r]; [discriminate|].
  intros [= ->]. now exists r.
Qed.

Lemma get_Some_lt (n : nat) (s : string) (c : ascii) :
  String.get n s = Some c -> n < String.length s.
Proof.
  revert s; induction n as [|n IH]; intros [|d s]; simpl; try discriminate.
  - lia.
  - intros H. apply IH in H. lia.
Qed.

Lemma get_None_ge (n : nat) (s : string) :
  String.get n s = None -> String.length s <= n.
Proof.
  revert s; induction n as [|n IH]; intros [|d s]; simpl; try discriminate; try lia.
  intros H. apply IH in H. lia.
Qed.

Lemma drop_drop (n k : nat) (s : string) : drop k (drop n s) = drop (n + k) s.
Proof.
  revert s; induction n as [|n IH]; intros s; simpl; [reflexivity|].
  destruct s as [|c s]; [now destruct k | apply IH].
Qed.

Lemma drop_app_length (p s : string) (k : nat) :
  drop (String.length p + k) (p ++ s) = drop k s.
Proof. induction p as [|c p IH]; simpl; auto. Qed.

Lemma get_app_length (p s : string) (k : nat) :
  String.get (String.length p + k) (p ++ s) = String.get k s.
Proof. now rewrite !get_drop, drop_app_length. Qed.

Lemma length_drop (n : nat) (s : string) :
  String.length (drop n s) = String.length s - n.
Proof.
  revert s; induction n as [|n IH]; intros [|c s]; simpl; auto.
Qed.

(** [s[n : n + len(v)] = v] as soon as [s[n:]] starts with [v]. *)
Lemma substring_of_drop (n : nat) (s v r : string) :
  drop n s = (v ++ r)%string -> substring n (String.length v) s = v.
Proof.
  revert s; induction n as [|n IH]; intros s H; simpl in H.
  - subst s. induction v as [|c v IHv]; simpl.
    + now destruct r.
    + now rewrite IHv.
  - destruct s as [|c s]; simpl.
    + destruct v; [reflexivity | discriminate].
    + now apply IH.
Qed.

Lemma remove_spaces_app (a b : string) :
  remove_spaces (a ++ b) = (remove_spaces a ++ remove_spaces b)%string.
Proof.
  induction a as [|c a IH]; simpl; [reflexivity|].
  destruct (Ascii.eqb c " "); simpl; now rewrite IH.
Qed.

End PyStrFacts.

(** ** The tokenizer *)

Module TokenizerFacts.
Import PyStr PyStrFacts Parser Vocabulary.

Lemma digits_prefix_is_prefix (s : string) :
  exists r, s = (digits_prefix s ++ r)%string.
Proof.
  induction s as [|c s [r IH]]; simpl.
  - now exists "".
  - destruct (isdigit c); simpl.
    + exists r. now rewrite <- IH.
    + now exists (String c s).
Qed.

Lemma number_prefix_is_prefix (s : string) (has_decimal : bool) :
  exists r, s = (number_prefix s has_decimal ++ r)%string.
Proof.
  revert has_decimal; induction s as [|c s IH]; intros hd.
  - now exists "".
  - cbn [number_prefix].
    destruct (isdigit c).
    { destruct (IH hd) as [r Hr]. exists r. cbn [append]. now rewrite <- Hr. }
    destruct (Ascii.eqb c "." && negb hd).
    { destruct (IH true) as [r Hr]. exists r. cbn [append]. now rewrite <- Hr. }
    destruct (Ascii.eqb (lower c) "e" && negb (String.eqb s "")).
    2: now exists (String c s).
    destruct s as [|d s].
    { now exists "". }
    destruct (char_in d "+-").
    + destruct (digits_prefix_is_prefix s) as [r Hr].
      exists r. cbn [append]. now rewrite <- Hr.
    + destruct (digits_prefix_is_prefix (String d s)) as [r Hr].
      exists r. cbn [append]. now rewrite <- Hr.
Qed.

Lemma identifier_prefix_is_prefix (s : string) :
  exists r, s = (identifier_prefix s ++ r)%string.
Proof.
  induction s as [|c s [r IH]]; simpl.
  - now exists "".
  - destruct (isalnum c || Ascii.eqb c "_"); simpl.
    + exists r. now rewrite <- IH.
    + now exists (String c s).
Qed.

(** A number or an identifier is at least one character long. *)
Lemma number_prefix_nonempty (c : ascii) (s : string) :
  isdigit c || Ascii.eqb c "." = true ->
  1 <= String.length (number_prefix (String c s) false).
Proof.
  intros H. simpl. destruct (isdigit c); simpl in *; [lia|].
  rewrite H. simpl. lia.
Qed.

Lemma identifier_prefix_nonempty (c : ascii) (s : string) :
  isalpha c = true -> 1 <= String.length (identifier_prefix (String c s)).
Proof.
  intros H. simpl. unfold isalnum. rewrite H. simpl. lia.
Qed.

Lemma tokenize_turn (expression : string) (position : nat) :
  turn expression position.
Proof.
  destruct (String.get position expression) as [char|] eqn:G.
  2: now apply Stop.
  destruct (get_Some_drop _ _ _ G) as [r Hr].
  destruct (isdigit char || Ascii.eqb char ".") eqn:Hnum.
  { pose proof (number_prefix_nonempty char r Hnum) as Hlen.
    destruct (number_prefix_is_prefix (String char r) false) as [r' Hr'].
    apply (Emit _ _ (mkToken NUMBER (number_prefix (drop position expression) false) position)
             (position + String.length (number_prefix (drop position expression) false))).
    - eapply get_Some_lt; eassumption.
    - rewrite Hr. lia.
    - discriminate.
    - reflexivity.
    - exists r'. cbn [value]. now rewrite Hr.
    - reflexivity.
    - intros fuel. cbn [tokenize_loop]. rewrite G, Hnum. reflexivity. }
  destruct (isalpha char) eqn:Halpha.
  { pose proof (identifier_prefix_nonempty char r Halpha) as Hlen.
    destruct (identifier_prefix_is_prefix (String char r)) as [r' Hr'].
    set (identifier := identifier_prefix (drop position expression)).
    apply (Emit _ _ (if mem identifier functions then
                       mkToken FUNCTION identifier position
                     else if mem identifier constants then
                       mkToken CONSTANT identifier position
                     else mkToken VARIABLE identifier position)
             (position + String.length identifier)).
    - eapply get_Some_lt; eassumption.
    - subst identifier. rewrite Hr. lia.
    - now destruct (mem identifier functions), (mem identifier constants).
    - now destruct (mem identifier functions), (mem identifier constants).
    - exists r'.
      destruct (mem identifier functions), (mem identifier constants);
        cbn [value]; subst identifier; rewrite Hr; exact Hr'.
    - now destruct (mem identifier functions), (mem identifier constants).
    - intros fuel. cbn [tokenize_loop]. rewrite G, Hnum, Halpha. reflexivity. }
  destruct (char_in char "+-*/^") eqn:Hop.
  { destruct (Ascii.eqb char "*" &&
              match String.get (position + 1) expression with
              | Some c => Ascii.eqb c "*"
              | None => false
              end) eqn:Hstar.
    - apply (Emit _ _ (mkToken OPERATOR "**" position) (position + 2));
        try (cbn [value String.length]; lia); try reflexivity;
        try discriminate; try (eapply get_Some_lt; eassumption).
      + apply andb_prop in Hstar as [H1 H2].
        apply Ascii.eqb_eq in H1. subst char.
        destruct (String.get (position + 1) expression) as [c|] eqn:G1;
          [|discriminate].
        apply Ascii.eqb_eq in H2. subst c.
        rewrite get_drop, <- drop_drop, Hr in G1. cbn [drop] in G1.
        destruct r as [|c r]; [discriminate|]. injection G1 as ->.
        now exists r.
      + intros fuel. cbn [tokenize_loop]. rewrite G, Hnum, Halpha, Hop, Hstar.
        reflexivity.
    - apply (Emit _ _ (mkToken OPERATOR (String char "") position) (position + 1));
        try (cbn [value String.length]; lia); try reflexivity;
        try discriminate; try (eapply get_Some_lt; eassumption).
      + now exists r.
      + intros fuel. cbn [tokenize_loop]. rewrite G, Hnum, Halpha, Hop, Hstar.
        reflexivity. }
  destruct (Ascii.eqb char "(") eqn:Hlp.
  { apply (Emit _ _ (mkToken LEFT_PAREN (String char "") position) (position + 1));
      try (cbn [value String.length]; lia); try reflexivity;
        try discriminate; try (eapply get_Some_lt; eassumption).
    - now exists r.
    - intros fuel. cbn [tokenize_loop]. rewrite G, Hnum, Halpha, Hop, Hlp.
      reflexivity. }
  destruct (Ascii.eqb char ")") eqn:Hrp.
  { apply (Emit _ _ (mkToken RIGHT_PAREN (String char "") position) (position + 1));
      try (cbn [value String.length]; lia); try reflexivity;
        try discriminate; try (eapply get_Some_lt; eassumption).
    - now exists r.
    - intros fuel. cbn [tokenize_loop]. rewrite G, Hnum, Halpha, Hop, Hlp, Hrp.
      reflexivity. }
  destruct (Ascii.eqb char ",") eqn:Hcomma.
  { apply (Emit _ _ (mkToken COMMA (String char "") position) (position + 1));
      try (cbn [value String.length]; lia); try reflexivity;
        try discriminate; try (eapply get_Some_lt; eassumption).
    - now exists r.
    - intros fuel. cbn [tokenize_loop].
      rewrite G, Hnum, Halpha, Hop, Hlp, Hrp, Hcomma. reflexivity. }
  apply Skip.
  - eapply get_Some_lt; eassumption.
  - intros fuel. cbn [tokenize_loop].
    rewrite G, Hnum, Halpha, Hop, Hlp, Hrp, Hcomma. reflexivity.
Qed.

(** Fuel beyond the number of unread characters changes nothing: the loop
    of [tokenize] always runs to the [EOF] token. *)
Lemma tokenize_loop_fuel (expression : string) :
  forall fuel1 fuel2 position,
    String.length expression - position < fuel1 ->
    String.length expression - position < fuel2 ->
    tokenize_loop fuel1 expression position
    = tokenize_loop fuel2 expression position.
Proof.
  induction fuel1 as [|fuel1 IH]; intros fuel2 position H1 H2; [lia|].
  destruct fuel2 as [|fuel2]; [lia|].
  destruct (tokenize_turn expression position)
    as [Hstop | token new_pos Hlen Hlt _ _ _ _ Hstep | Hlen Hstep].
  - cbn [tokenize_loop]. now rewrite Hstop.
  - rewrite !Hstep. f_equal. apply IH; lia.
  - rewrite !Hstep. apply IH; lia.
Qed.

Lemma tokenize_loop_ends_with_EOF (expression : string) :
  forall fuel position,
    String.length expression - position < fuel ->
    exists body,
      tokenize_loop fuel expression position
      = body ++ [mkToken EOF "" (Nat.max position (String.length expression))]
      /\ Forall (fun t => type t <> EOF) body.
Proof.
  induction fuel as [|fuel IH]; intros position H; [lia|].
  destruct (tokenize_turn expression position)
    as [Hstop | token new_pos Hlen Hlt Hty Hpos Hval Hnew Hstep | Hlen Hstep].
  - exists []. cbn [tokenize_loop]. rewrite Hstop. split; [|constructor].
    apply get_None_ge in Hstop. cbn [app]. do 2 f_equal. lia.
  - destruct (IH new_pos) as [body [Hb Hall]]; [lia|].
    exists (token :: body). rewrite Hstep, Hb. split.
    + cbn [app]. do 4 f_equal.
      destruct Hval as [r Hr].
      assert (String.length (drop position expression)
              = String.length (value token) + String.length r)
        by (rewrite Hr; apply length_app).
      rewrite length_drop in H0. lia.
    + now constructor.
  - destruct (IH (position + 1)) as [body [Hb Hall]]; [lia|].
    exists body. rewrite Hstep, Hb. split; [|assumption].
    do 3 f_equal. lia.
Qed.

(** Every token starts, in the scanned text, at its position. *)
Lemma tokenize_loop_positions (expression : string) :
  forall fuel position token,
    In token (tokenize_loop fuel expression position) ->
    exists r,
      drop (Parser.position token) expression = (value token ++ r)%string.
Proof.
  induction fuel as [|fuel IH]; intros position token Hin; [destruct Hin|].
  destruct (tokenize_turn expression position)
    as [Hstop | token' new_pos _ _ _ Hpos Hval _ Hstep | _ Hstep].
  - cbn [tokenize_loop] in Hin. rewrite Hstop in Hin.
    destruct Hin as [<- | []]. cbn [Parser.position value].
    now exists (drop position expression).
  - rewrite Hstep in Hin. destruct Hin as [<- | Hin].
    + now rewrite Hpos.
    + now apply IH in Hin.
  - rewrite Hstep in Hin. now apply IH in Hin.
Qed.

(** The tokens of a text that follows a prefix [p] are those of the text
    alone, moved by the length of [p]. *)
Lemma tokenize_loop_shift (p s : string) :
  forall fuel k,
    tokenize_loop fuel (p ++ s) (String.length p + k)
    = map (shift (String.length p)) (tokenize_loop fuel s k).
Proof.
  induction fuel as [|fuel IH]; intros k; [reflexivity|].
  cbn [tokenize_loop]. unfold _parse_number, _parse_identifier.
  rewrite !get_app_length, !drop_app_length.
  replace (String.length p + k + 1) with (String.length p + (k + 1)) by lia.
  replace (String.length p + k + 2) with (String.length p + (k + 2)) by lia.
  rewrite get_app_length.
  destruct (String.get k s) as [char|]; [|reflexivity].
  repeat match goal with
         | |- context [String.length p + k + ?n] =>
             replace (String.length p + k + n)
               with (String.length p + (k + n)) by lia
         end.
  repeat match goal with
         | |- (if ?b then _ else _) = _ => destruct b
         end;
    cbn [map]; rewrite ?IH; try reflexivity.
  f_equal.
  match goal with
  | |- context [mem ?i functions] =>
      now destruct (mem i functions), (mem i constants)
  end.
Qed.

(** *** Numeric literals in front of other text *)

Lemma digits_prefix_app (a r : string) :
  digits_prefix a = a ->
  match r with String c _ => isdigit c = false | EmptyString => True end ->
  digits_prefix (a ++ r) = a.
Proof.
  intros Ha Hr. induction a as [|c a IH]; cbn [append].
  - destruct r as [|d r]; [reflexivity|]. cbn [digits_prefix]. now rewrite Hr.
  - cbn [digits_prefix] in *. destruct (isdigit c); [|discriminate].
    injection Ha as Ha. now rewrite IH.
Qed.

Lemma stops_number_digit (r : string) :
  stops_number r = true ->
  match r with String c _ => isdigit c = false | EmptyString => True end.
Proof.
  destruct r as [|c r]; [trivial|]. unfold stops_number.
  destruct (isdigit c); [discriminate | reflexivity].
Qed.

Lemma number_prefix_app (a r : string) :
  stops_number r = true ->
  forall has_decimal,
    number_prefix a has_decimal = a ->
    number_prefix (a ++ r) has_decimal = a.
Proof.
  intros Hr. induction a as [|c a IH]; intros hd Ha; cbn [append].
  - destruct r as [|d r]; [reflexivity|].
    cbn [number_prefix]. unfold stops_number in Hr.
    destruct (isdigit d); [discriminate|].
    destruct (Ascii.eqb d "."); [discriminate|].
    destruct (Ascii.eqb (lower d) "e"); [discriminate|].
    reflexivity.
  - cbn [number_prefix] in *.
    destruct (isdigit c).
    { injection Ha as Ha. now rewrite IH. }
    destruct (Ascii.eqb c "." && negb hd).
    { injection Ha as Ha. now rewrite IH. }
    destruct a as [|d a].
    { cbn in Ha. rewrite andb_false_r in Ha. discriminate. }
    cbn [append String.eqb] in *.
    destruct (Ascii.eqb (lower c) "e"); [|discriminate].
    cbn [andb negb] in *.
    destruct (char_in d "+-").
    + injection Ha as Ha. do 2 f_equal.
      apply digits_prefix_app; [assumption | now apply stops_number_digit].
    + injection Ha as Ha. f_equal.
      change (String d (a ++ r)) with (String d a ++ r)%string.
      apply digits_prefix_app; [assumption | now apply stops_number_digit].
Qed.

Lemma digit_not_space (c : ascii) : isdigit c = true -> Ascii.eqb c " " = false.
Proof.
  intros H. destruct (Ascii.eqb_spec c " ") as [-> |]; [discriminate | reflexivity].
Qed.

Lemma digits_prefix_no_space (a : string) :
  digits_prefix a = a -> remove_spaces a = a.
Proof.
  induction a as [|c a IH]; [reflexivity|]. cbn [digits_prefix remove_spaces].
  destruct (isdigit c) eqn:Hc; [|discriminate].
  intros [= Ha]. now rewrite (digit_not_space c Hc), IH.
Qed.

Lemma number_prefix_no_space (a : string) :
  forall has_decimal, number_prefix a has_decimal = a -> remove_spaces a = a.
Proof.
  induction a as [|c a IH]; intros hd Ha; [reflexivity|].
  cbn [number_prefix remove_spaces] in *.
  destruct (isdigit c) eqn:Hc.
  { injection Ha as Ha. now rewrite (digit_not_space c Hc), (IH hd). }
  destruct (Ascii.eqb_spec c " ") as [-> | _]; [discriminate|].
  destruct (Ascii.eqb c "." && negb hd).
  { injection Ha as Ha. now rewrite (IH true). }
  destruct (Ascii.eqb (lower c) "e" && negb (String.eqb a "")); [|discriminate].
  destruct a as [|d a]; [reflexivity|].
  f_equal. cbn [remove_spaces].
  destruct (char_in d "+-") eqn:Hd.
  - injection Ha as Ha.
    destruct (Ascii.eqb_spec d " ") as [-> | _]; [discriminate|].
    now rewrite (digits_prefix_no_space a Ha).
  - injection Ha as Ha.
    apply (digits_prefix_no_space (String d a)) in Ha. exact Ha.
Qed.

Lemma numeric_literal_inv (a : string) :
  numeric_literal a = true ->
  exists c a', a = String c a'
               /\ isdigit c || Ascii.eqb c "." = true
               /\ number_prefix a false = a.
Proof.
  destruct a as [|c a']; [discriminate|]. unfold numeric_literal.
  intros H. apply andb_prop in H as [H1 H2]. apply String.eqb_eq in H2.
  now exists c, a'.
Qed.

(** A numeric literal in front of text that cannot continue it is read as
    one [NUMBER] token. *)
Lemma tokenize_loop_literal (a r : string) (fuel : nat) :
  numeric_literal a = true ->
  stops_number r = true ->
  tokenize_loop (S fuel) (a ++ r) 0
  = mkToken NUMBER a 0
      :: map (shift (String.length a)) (tokenize_loop fuel r 0).
Proof.
  intros Ha Hr. destruct (numeric_literal_inv a Ha) as (c & a' & -> & Hc & Hp).
  cbn [tokenize_loop append String.get]. rewrite Hc.
  unfold _parse_number. cbn [drop].
  change (String c (a' ++ r)) with (String c a' ++ r)%string.
  rewrite (number_prefix_app _ _ Hr false Hp). cbn [Nat.add].
  f_equal.
  rewrite <- (tokenize_loop_shift (String c a') r fuel 0).
  now rewrite Nat.add_0_r.
Qed.

Lemma lookup_operators_inv (op : string) (d : descriptor) :
  lookup op operators = Some d ->
  In op ["+"; "-"; "*"; "/"; "^"; "**"].
Proof.
  unfold operators. cbn [lookup In].
  repeat match goal with
         | |- context [String.eqb op ?k] =>
             destruct (String.eqb_spec op k) as [-> | _]; [intros _; tauto|]
         end.
  discriminate.
Qed.

(** An operator lexeme in front of text that does not begin with a star is
    read as one [OPERATOR] token. *)
Lemma tokenize_loop_operator (op r : string) (d : descriptor) (fuel : nat) :
  lookup op operators = Some d ->
  String.get 0 r <> Some "*"%char ->
  tokenize_loop (S fuel) (op ++ r) 0
  = mkToken OPERATOR op 0
      :: map (shift (String.length op)) (tokenize_loop fuel r 0).
Proof.
  intros Hop Hr.
  rewrite <- (tokenize_loop_shift op r fuel 0).
  apply lookup_operators_inv in Hop. cbn [In] in Hop.
  assert (Hnext : match String.get 0 r with
                  | Some c => Ascii.eqb c "*"
                  | None => false
                  end = false).
  { destruct (String.get 0 r) as [c|]; [|reflexivity].
    destruct (Ascii.eqb_spec c "*") as [-> |]; [now elim Hr | reflexivity]. }
  destruct Hop as [<- | [<- | [<- | [<- | [<- | [<- | []]]]]]];
    cbn [tokenize_loop append String.get Nat.add]; cbn [String.length Nat.add];
    try reflexivity.
  - (* "*" *)
    change (isdigit "*" || ("*" =? ".")%char) with false.
    change (isalpha "*") with false.
    change (char_in "*" "+-*/^") with true.
    cbn match. rewrite Hnext. reflexivity.
Qed.

Lemma tokenize_loop_left_paren (r : string) (fuel : nat) :
  tokenize_loop (S fuel) ("(" ++ r) 0
  = mkToken LEFT_PAREN "(" 0 :: map (shift 1) (tokenize_loop fuel r 0).
Proof.
  pose proof (tokenize_loop_shift "(" r fuel 0) as H.
  cbn [String.length Nat.add] in H. now rewrite <- H.
Qed.

Lemma tokenize_loop_right_paren (r : string) (fuel : nat) :
  tokenize_loop (S fuel) (")" ++ r) 0
  = mkToken RIGHT_PAREN ")" 0 :: map (shift 1) (tokenize_loop fuel r 0).
Proof.
  pose proof (tokenize_loop_shift ")" r fuel 0) as H.
  cbn [String.length Nat.add] in H. now rewrite <- H.
Qed.

Lemma tokenize_loop_end (fuel : nat) :
  tokenize_loop (S fuel) "" 0 = [mkToken EOF "" 0].
Proof. reflexivity. Qed.

Lemma operator_no_space (op : string) (d : descriptor) :
  lookup op operators = Some d -> remove_spaces op = op.
Proof.
  intros H. apply lookup_operators_inv in H. cbn [In] in H.
  now destruct H as [<- | [<- | [<- | [<- | [<- | [<- | []]]]]]].
Qed.

Lemma operator_stops_number (op r : string) (d : descriptor) :
  lookup op operators = Some d -> stops_number (op ++ r) = true.
Proof.
  intros H. apply lookup_operators_inv in H. cbn [In] in H.
  now destruct H as [<- | [<- | [<- | [<- | [<- | [<- | []]]]]]].
Qed.

Lemma numeric_literal_no_space (a : string) :
  numeric_literal a = true -> remove_spaces a = a.
Proof.
  intros H. destruct (numeric_literal_inv a H) as (c & a' & -> & _ & Hp).
  now apply (number_prefix_no_space _ false).
Qed.

Lemma numeric_literal_not_star (a r : string) :
  numeric_literal a = true -> String.get 0 (a ++ r) <> Some "*"%char.
Proof.
  intros H. destruct (numeric_literal_inv a H) as (c & a' & -> & Hc & _).
  cbn. intros [= ->]. discriminate.
Qed.

End TokenizerFacts.

(** ** The validator and the converter *)

Module ConverterFacts.
Import PyStr Parser Vocabulary.

Lemma TokenType_eqb_eq (a b : TokenType) : TokenType_eqb a b = true <-> a = b.
Proof. destruct a, b; cbn; split; intros H; congruence. Qed.

(** The tokens [pop_until_left_paren] moves are the ones above the first
    left parenthesis. *)
Lemma pop_until_left_paren_spec (stack : list Token) :
  forall output,
  exists popped rest,
    pop_until_left_paren output stack = (output ++ popped, rest)
    /\ stack = popped ++ rest
    /\ Forall (fun t => has_type LEFT_PAREN t = false) popped
    /\ match rest with
       | [] => True
       | top :: _ => has_type LEFT_PAREN top = true
       end.
Proof.
  induction stack as [|top below IH]; intros output.
  - exists [], []. cbn. rewrite app_nil_r. auto.
  - cbn [pop_until_left_paren].
    destruct (TokenType_eqb (type top) LEFT_PAREN) eqn:Htop.
    + exists [], (top :: below). rewrite app_nil_r. cbn. auto.
    + destruct (IH (output ++ [top])) as (popped & rest & H1 & H2 & H3 & H4).
      exists (top :: popped), rest. rewrite H1, <- app_assoc. cbn.
      repeat split; auto. now rewrite H2.
Qed.

Lemma pop_higher_precedence_spec (token : Token) (stack : list Token) :
  forall output,
  exists popped rest,
    pop_higher_precedence token output stack = (output ++ popped, rest)
    /\ stack = popped ++ rest
    /\ Forall (fun t => has_type OPERATOR t = true) popped.
Proof.
  induction stack as [|top below IH]; intros output.
  - exists [], []. cbn. rewrite app_nil_r. auto.
  - cbn [pop_higher_precedence].
    destruct (TokenType_eqb (type top) OPERATOR) eqn:Htop; cbn [andb].
    2: { exists [], (top :: below). rewrite app_nil_r. cbn. auto. }
    destruct (_has_higher_precedence top token).
    2: { exists [], (top :: below). rewrite app_nil_r. cbn. auto. }
    destruct (IH (output ++ [top])) as (popped & rest & H1 & H2 & H3).
    exists (top :: popped), rest. rewrite H1, <- app_assoc. cbn.
    repeat split; auto. now rewrite H2.
Qed.

Lemma count_type_app (t : TokenType) (l1 l2 : list Token) :
  count_type t (l1 ++ l2) = count_type t l1 + count_type t l2.
Proof. unfold count_type. now rewrite filter_app, length_app. Qed.

Lemma count_type_none (t : TokenType) (l : list Token) :
  Forall (fun x => has_type t x = false) l -> count_type t l = 0.
Proof.
  unfold count_type. induction 1 as [|x l Hx _ IH]; cbn; [reflexivity|].
  now rewrite Hx.
Qed.

Lemma filter_all {A : Type} (f : A -> bool) (l : list A) :
  Forall (fun x => f x = true) l -> filter f l = l.
Proof.
  induction 1 as [|x l Hx _ IH]; cbn; [reflexivity|]. now rewrite Hx, IH.
Qed.

(** A stack without left parentheses holds operators and functions only. *)
Lemma stackable_emitted (stack : list Token) :
  Forall (fun t => is_stackable t = true) stack ->
  count_type LEFT_PAREN stack = 0 ->
  filter is_emitted stack = stack.
Proof.
  induction 1 as [|x l Hx _ IH]; [reflexivity|].
  unfold count_type. cbn [filter].
  unfold is_stackable, is_emitted, is_value, has_type in *.
  destruct (type x); cbn in *; try discriminate; intros H;
    try (f_equal; now apply IH).
Qed.

Lemma operators_stackable (l : list Token) :
  Forall (fun t => has_type OPERATOR t = true) l ->
  Forall (fun t => is_stackable t = true) l
  /\ Forall (fun t => has_type LEFT_PAREN t = false) l.
Proof.
  induction 1 as [|x l Hx _ [IH1 IH2]]; split; constructor; auto;
    unfold is_stackable, has_type in *; destruct (type x); cbn in *; congruence.
Qed.

(** One accepted turn of the loop of [validate_syntax]. *)
Lemma validate_loop_step (token : Token) (rest : list Token) (paren_count : Z)
  (prev_token : option Token) :
  type token <> EOF ->
  fst (validate_loop (token :: rest) paren_count prev_token) = true ->
  let paren_count' :=
    (if TokenType_eqb (type token) LEFT_PAREN then paren_count + 1
     else if TokenType_eqb (type token) RIGHT_PAREN then paren_count - 1
     else paren_count)%Z in
  fst (validate_loop rest paren_count' (Some token)) = true
  /\ (type token = RIGHT_PAREN -> 0 <= paren_count - 1)%Z.
Proof.
  intros Hne H. cbn [validate_loop] in H.
  destruct (TokenType_eqb (type token) EOF) eqn:He.
  { apply TokenType_eqb_eq in He. contradiction. }
  cbv zeta in *.
  destruct (TokenType_eqb (type token) RIGHT_PAREN &&
            ((if TokenType_eqb (type token) LEFT_PAREN then paren_count + 1
              else if TokenType_eqb (type token) RIGHT_PAREN then paren_count - 1
              else paren_count) <? 0)%Z) eqn:Hrp; [discriminate|].
  repeat match type of H with
         | fst (if ?b then _ else _) = true => destruct b; [discriminate|]
         end.
  split; [exact H|].
  intros Ht. rewrite Ht in Hrp. cbn in Hrp. lia.
Qed.

Lemma validate_end_balanced (paren_count : Z) (prev_token : option Token) :
  fst (validate_end paren_count prev_token) = true -> paren_count = 0%Z.
Proof.
  unfold validate_end. destruct (paren_count =? 0)%Z eqn:H; cbn; [lia | discriminate].
Qed.

(** The converter on an accepted sequence: its result is the output so far,
    the operators and functions on the stack and the value, operator and
    function tokens still to come, in some order. *)
Lemma postfix_loop_accepted (tokens : list Token) :
  forall paren_count prev_token output stack,
    fst (validate_loop tokens paren_count prev_token) = true ->
    paren_count = Z.of_nat (count_type LEFT_PAREN stack) ->
    Forall (fun t => is_stackable t = true) stack ->
    Permutation (postfix_loop tokens output stack)
      (output ++ filter is_emitted stack ++ filter is_emitted (before_eof tokens)).
Proof.
  induction tokens as [|token rest IH]; intros pc prev output stack Hv Hpc Hst.
  - cbn [postfix_loop before_eof filter]. rewrite app_nil_r.
    apply validate_end_balanced in Hv.
    rewrite stackable_emitted; [reflexivity | assumption | lia].
  - destruct (TokenType_eqb (type token) EOF) eqn:He.
    { cbn [validate_loop] in Hv. cbn [postfix_loop before_eof].
      rewrite He in *. apply TokenType_eqb_eq in He. rewrite He.
      cbn [filter]. rewrite app_nil_r.
      apply validate_end_balanced in Hv.
      rewrite stackable_emitted; [reflexivity | assumption | lia]. }
    assert (Hne : type token <> EOF).
    { intros E. rewrite E in He. discriminate. }
    destruct (validate_loop_step token rest pc prev Hne Hv) as [Hv' Hrp].
    cbv zeta in Hv'.
    cbn [postfix_loop before_eof]. rewrite He.
    assert (Hcnt : forall l, count_type LEFT_PAREN (token :: l)
                   = (if has_type LEFT_PAREN token then 1 else 0)
                     + count_type LEFT_PAREN l).
    { intros l. unfold count_type. cbn [filter].
      now destruct (has_type LEFT_PAREN token). }
    assert (Hstk : is_stackable token = true ->
                   forall l, Forall (fun t => is_stackable t = true) l ->
                   Forall (fun t => is_stackable t = true) (token :: l))
      by (intros; now constructor).
    unfold is_stackable at 1 in Hstk. unfold has_type in Hstk, Hcnt.
    assert (Hem : filter is_emitted (token :: before_eof rest)
                  = if is_emitted token then token :: filter is_emitted (before_eof rest)
                    else filter is_emitted (before_eof rest)) by reflexivity.
    rewrite Hem. clear Hem.
    assert (Hems : forall l, filter is_emitted (token :: l)
                  = if is_emitted token then token :: filter is_emitted l
                    else filter is_emitted l) by reflexivity.
    unfold is_emitted at 2 in Hems. unfold is_emitted at 2.
    unfold is_value, has_type in Hems |- *.
    destruct (type token) eqn:Ht; cbn [TokenType_eqb orb] in *.
    + (* NUMBER *)
      rewrite (IH _ _ _ _ Hv' Hpc Hst).
      rewrite <- app_assoc. cbn [app].
      apply Permutation_app_head. apply Permutation_middle.
    + (* VARIABLE *)
      rewrite (IH _ _ _ _ Hv' Hpc Hst).
      rewrite <- app_assoc. cbn [app].
      apply Permutation_app_head. apply Permutation_middle.
    + (* OPERATOR *)
      destruct (pop_higher_precedence_spec token stack output)
        as (popped & below & -> & -> & Hpop).
      destruct (operators_stackable popped Hpop) as [Hps Hpl].
      apply Forall_app in Hst as [_ Hbelow].
      rewrite (IH pc (Some token) _ (token :: below) Hv').
      * rewrite Hems, filter_app.
        rewrite (stackable_emitted popped Hps (count_type_none _ _ Hpl)).
        rewrite <- !app_assoc. cbn [app].
        apply Permutation_app_head, Permutation_app_head.
        apply Permutation_middle.
      * rewrite Hpc, count_type_app, (count_type_none _ _ Hpl), Hcnt.
        reflexivity.
      * now apply Hstk.
    + (* FUNCTION *)
      rewrite (IH pc (Some token) output (token :: stack) Hv').
      * rewrite Hems. apply Permutation_app_head. cbn [app].
        apply Permutation_middle.
      * rewrite Hpc, Hcnt. reflexivity.
      * now apply Hstk.
    + (* LEFT_PAREN *)
      rewrite (IH (pc + 1)%Z (Some token) output (token :: stack) Hv').
      * rewrite Hems. reflexivity.
      * rewrite Hpc, Hcnt. lia.
      * now apply Hstk.
    + (* RIGHT_PAREN *)
      specialize (Hrp eq_refl).
      destruct (pop_until_left_paren_spec stack output)
        as (popped & below & -> & -> & Hpop & Htop).
      apply Forall_app in Hst as [Hps Hbelow].
      assert (Hcount : count_type LEFT_PAREN (popped ++ below)
                       = count_type LEFT_PAREN below).
      { now rewrite count_type_app, (count_type_none _ _ Hpop). }
      rewrite Hcount in Hpc.
      destruct below as [|lp below].
      { cbn in Hpc. lia. }
      cbn [List.tl].
      inversion Hbelow as [|? ? Hlp Hbelow']; subst.
      assert (Hpc' : (Z.of_nat (count_type LEFT_PAREN (lp :: below)) - 1)%Z
                     = Z.of_nat (count_type LEFT_PAREN below)).
      { unfold count_type. cbn [filter]. rewrite Htop. cbn [List.length]. lia. }
      assert (Hfilter : filter is_emitted (popped ++ lp :: below)
                        = popped ++ filter is_emitted below).
      { rewrite filter_app. cbn [filter].
        rewrite (stackable_emitted popped Hps (count_type_none _ _ Hpop)).
        assert (Hlpe : is_emitted lp = false).
        { unfold is_emitted, is_value, has_type in *.
          destruct (type lp); cbn in *; try discriminate; reflexivity. }
        now rewrite Hlpe. }
      rewrite Hfilter.
      destruct below as [|top below].
      * rewrite (IH _ _ _ [] Hv' Hpc' Hbelow').
        cbn [filter app]. rewrite <- !app_assoc. reflexivity.
      * destruct (TokenType_eqb (type top) FUNCTION) eqn:Hf.
        -- inversion Hbelow' as [|? ? Htop' Hbelow'']; subst.
           rewrite (IH _ (Some token) _ below Hv').
           ++ cbn [filter].
              assert (Htope : is_emitted top = true).
              { unfold is_emitted, is_value, has_type. rewrite Hf.
                apply orb_true_r. }
              rewrite Htope, <- !app_assoc. cbn [app]. reflexivity.
           ++ rewrite Hpc'. unfold count_type. cbn [filter]. unfold has_type at 1.
              apply TokenType_eqb_eq in Hf. rewrite Hf. reflexivity.
           ++ assumption.
        -- rewrite (IH _ _ _ (top :: below) Hv' Hpc' Hbelow').
           rewrite <- !app_assoc. reflexivity.
    + (* COMMA *)
      destruct (pop_until_left_paren_spec stack output)
        as (popped & below & -> & -> & Hpop & Htop).
      apply Forall_app in Hst as [Hps Hbelow].
      rewrite (IH pc (Some token) _ below Hv').
      * rewrite filter_app.
        rewrite (stackable_emitted popped Hps (count_type_none _ _ Hpop)).
        rewrite <- !app_assoc. reflexivity.
      * now rewrite Hpc, count_type_app, (count_type_none _ _ Hpop).
      * assumption.
    + (* CONSTANT *)
      rewrite (IH _ _ _ _ Hv' Hpc Hst).
      rewrite <- app_assoc. cbn [app].
      apply Permutation_app_head. apply Permutation_middle.
    + (* EOF *)
      contradiction.
Qed.

Lemma validate_syntax_loop (tokens : list Token) :
  fst (validate_syntax tokens) = true ->
  fst (validate_loop tokens 0 None) = true.
Proof.
  unfold validate_syntax. destruct tokens as [|first rest]; [discriminate|].
  destruct (TokenType_eqb (type first) EOF); [discriminate | trivial].
Qed.

Lemma parse_to_postfix_accepted (tokens : list Token) :
  fst (validate_syntax tokens) = true ->
  Permutation (parse_to_postfix tokens) (filter is_emitted (before_eof tokens)).
Proof.
  intros H. apply validate_syntax_loop in H.
  apply (postfix_loop_accepted tokens 0%Z None [] [] H); [reflexivity | constructor].
Qed.

Lemma length_filter_emitted (l : list Token) :
  List.length (filter is_emitted l)
  = List.length (filter is_value l) + count_type OPERATOR l + count_type FUNCTION l.
Proof.
  unfold count_type.
  induction l as [|x l IH]; [reflexivity|]. cbn [filter].
  unfold is_emitted, is_value, has_type in *.
  destruct (type x); cbn [TokenType_eqb orb List.length]; lia.
Qed.

End ConverterFacts.

(** ** The evaluator *)

Module EvaluatorFacts.
Import PyStr Parser PyNum Evaluator Vocabulary.
Local Open Scope py_scope.

Section WithRuntime.
Variable R : Runtime.
Variable variables : list (string * number).

Lemma evaluate_loop_app (pre post : list Token) :
  forall stack,
    evaluate_loop R variables (pre ++ post) stack
    = (stack' <- evaluate_loop R variables pre stack ;;
       evaluate_loop R variables post stack').
Proof.
  induction pre as [|token pre IH]; intros stack; [reflexivity|].
  cbn [app evaluate_loop].
  destruct (evaluate_token R variables token stack) as [e|stack']; cbn [bind];
    [reflexivity | apply IH].
Qed.

(** The evaluator reads the type and the text of a token, not its position. *)
Lemma evaluate_token_erase (t1 t2 : Token) (stack : list number) :
  erase t1 = erase t2 ->
  evaluate_token R variables t1 stack = evaluate_token R variables t2 stack.
Proof.
  unfold erase. intros [= Ht Hv]. unfold evaluate_token. now rewrite Ht, Hv.
Qed.

Lemma evaluate_loop_erase (l1 : list Token) :
  forall l2 stack,
    map erase l1 = map erase l2 ->
    evaluate_loop R variables l1 stack = evaluate_loop R variables l2 stack.
Proof.
  induction l1 as [|t1 l1 IH]; intros [|t2 l2] stack H; try discriminate;
    [reflexivity|].
  cbn [map] in H.
  assert (Ht : erase t1 = erase t2) by congruence.
  assert (Hl : map erase l1 = map erase l2) by congruence.
  cbn [evaluate_loop].
  rewrite (evaluate_token_erase t1 t2 stack Ht).
  destruct (evaluate_token R variables t2 stack); cbn [bind]; auto.
Qed.

Lemma evaluate_postfix_erase (l1 l2 : list Token) :
  map erase l1 = map erase l2 ->
  evaluate_postfix R l1 variables = evaluate_postfix R l2 variables.
Proof.
  intros H. unfold evaluate_postfix. now rewrite (evaluate_loop_erase l1 l2 [] H).
Qed.

(** An exception raised by a token is the result of [evaluate_postfix]. *)
Lemma evaluate_postfix_raise (pre post : list Token) (token : Token)
  (stack : list number) (e : exn) :
  evaluate_loop R variables pre [] = inr stack ->
  evaluate_token R variables token stack = inl e ->
  evaluate_postfix R (pre ++ token :: post) variables = inl e.
Proof.
  intros Hpre Htok. unfold evaluate_postfix.
  rewrite evaluate_loop_app, Hpre. cbn [bind evaluate_loop]. now rewrite Htok.
Qed.


Lemma negative_float_cases (x : float) :
  fltb x fzero = true ->
  (exists m e, x = S754_finite true m e) \/ x = S754_infinity true.
Proof.
  destruct x as [s | s | | s m e]; cbn; try discriminate.
  - destruct s; [now right | discriminate].
  - destruct s; [left; now exists m, e | discriminate].
Qed.



Lemma isfinite_not_nan (x : float) : isfinite x = true -> isnan x = false.
Proof. now destruct x. Qed.

Lemma isfinite_not_inf (x : float) : isfinite x = true -> isinf x = false.
Proof. now destruct x. Qed.

Lemma negative_not_zero (x : float) : fltb x fzero = true -> feqb x fzero = false.
Proof.
  intros H. destruct (negative_float_cases x H) as [(m & e & ->) | ->]; reflexivity.
Qed.

Lemma fractional_not_zero (y : float) :
  is_integral y = false -> feqb y fzero = false.
Proof.
  destruct y as [s | s | | s m e]; intros H;
    try reflexivity; try (destruct s; reflexivity).
  discriminate H.
Qed.

(** A negative finite float raised to a finite power that is not an integer
    is a complex number, when the power does not overflow. *)
Lemma float_pow_negative_fractional (x y : float) :
  fltb x fzero = true ->
  isfinite x = true ->
  isfinite y = true ->
  is_integral y = false ->
  (exists z, float_pow R x y = inr (PyComplex z))
  \/ float_pow R x y = inl (OverflowError "complex exponentiation").
Proof.
  intros Hneg Hfx Hfy Hfrac. unfold float_pow.
  rewrite (fractional_not_zero y Hfrac), (isfinite_not_nan x Hfx),
    (isfinite_not_nan y Hfy), (isfinite_not_inf y Hfy),
    (isfinite_not_inf x Hfx), (negative_not_zero x Hneg), Hneg, Hfrac.
  cbn [andb negb]. unfold complex_pow, complex_is_zero. cbn [real imag].
  rewrite (fractional_not_zero y Hfrac), (negative_not_zero x Hneg).
  cbn [andb].
  destruct (isinf _ || isinf _); [now right | left; eexists; reflexivity].
Qed.

Lemma evaluate_token_negative_power (token : Token) (x y : float)
  (stack : list number) :
  type token = OPERATOR ->
  value token = "^" \/ value token = "**" ->
  fltb x fzero = true ->
  isfinite x = true ->
  isfinite y = true ->
  is_integral y = false ->
  (exists z, evaluate_token R variables token (PyFloat y :: PyFloat x :: stack)
             = inr (PyComplex z :: stack))
  \/ evaluate_token R variables token (PyFloat y :: PyFloat x :: stack)
     = inl (OverflowError "complex exponentiation").
Proof.
  intros Hty Hval Hneg Hfx Hfy Hfrac.
  unfold evaluate_token. rewrite Hty.
  assert (Hop : lookup (value token) (Evaluator.operators R) = Some (py_pow R))
    by (destruct Hval as [-> | ->]; reflexivity).
  rewrite Hop.
  change (py_pow R (PyFloat x) (PyFloat y)) with (float_pow R x y).
  destruct (float_pow_negative_fractional x y Hneg Hfx Hfy Hfrac)
    as [[z Hz] | Hz]; rewrite Hz; cbn [bind ret].
  - left. now exists z.
  - now right.
Qed.

(** The power operators on two floats. *)
Lemma evaluate_token_power (token : Token) (x y : float) (stack : list number) :
  type token = OPERATOR ->
  value token = "^" \/ value token = "**" ->
  evaluate_token R variables token (PyFloat y :: PyFloat x :: stack)
  = (r <- float_pow R x y ;; ret (r :: stack)).
Proof.
  intros Hty Hval. unfold evaluate_token. rewrite Hty.
  assert (Hop : lookup (value token) (Evaluator.operators R) = Some (py_pow R))
    by (destruct Hval as [-> | ->]; reflexivity).
  now rewrite Hop.
Qed.

(** The result of [evaluate_postfix] in terms of the last token. *)
Lemma evaluate_postfix_last (pre : list Token) (token : Token)
  (stack : list number) :
  evaluate_loop R variables pre [] = inr stack ->
  evaluate_postfix R (pre ++ [token]) variables
  = (stack' <- evaluate_token R variables token stack ;;
     match stack' with
     | [v] => ret v
     | _ =>
         raise (ValueError
                  "Invalid expression: incorrect number of values remaining")
     end).
Proof.
  intros Hpre. unfold evaluate_postfix.
  rewrite evaluate_loop_app, Hpre. cbn [bind evaluate_loop].
  now destruct (evaluate_token R variables token stack).
Qed.

(** [floor], [ceil] and [round] of a finite float are integers. *)
Lemma rounding_returns_an_integer (x : float) :
  isfinite x = true ->
  exists n1 n2 n3,
    math_floor (PyFloat x) = inr (PyInt n1)
    /\ math_ceil (PyFloat x) = inr (PyInt n2)
    /\ py_round (PyFloat x) = inr (PyInt n3).
Proof.
  intros H. unfold math_floor, math_ceil, py_round, int_from_double,
    floor_Z, ceil_Z, round_half_even_Z.
  destruct x as [s | s | | s m e]; try discriminate; cbn [float_to_fraction].
  - do 3 eexists. repeat split; reflexivity.
  - destruct (0 <=? e)%Z; do 3 eexists; repeat split; reflexivity.
Qed.

End WithRuntime.

Lemma integer_runtime_pow_exact : pow_exact_on_integers integer_runtime.
Proof.
  intros x y a b Hx Hy Ha Hb Hlt. cbn [libm_pow integer_runtime].
  unfold integer_pow. rewrite Hx, Hy.
  destruct (Z.ltb_spec 0 a); [|lia].
  destruct (Z.leb_spec 0 b); [|lia].
  destruct (Z.ltb_spec (a ^ b) (2 ^ 53)); [reflexivity | lia].
Qed.

End EvaluatorFacts.

(** ** Infix expressions of two operators *)

Module InfixFacts.
Import PyStr PyStrFacts Parser PyNum Evaluator Vocabulary TokenizerFacts EvaluatorFacts.

(** [b op c] in front of text that cannot continue the literal [c]. *)
Lemma tokenize_loop_binary (b c op r : string) (d : descriptor) (fuel : nat) :
  numeric_literal b = true ->
  numeric_literal c = true ->
  lookup op Parser.operators = Some d ->
  stops_number r = true ->
  exists p1 p2 tail,
    tokenize_loop (S (S (S fuel))) (b ++ op ++ c ++ r) 0
    = mkToken NUMBER b 0 :: mkToken OPERATOR op p1 :: mkToken NUMBER c p2 :: tail
    /\ tail = map (shift p2) (map (shift (String.length c)) (tokenize_loop fuel r 0))
    /\ p2 = String.length b + String.length op.
Proof.
  intros Hb Hc Hop Hr.
  rewrite (tokenize_loop_literal b _ _ Hb (operator_stops_number op _ d Hop)).
  rewrite (tokenize_loop_operator op _ d _ Hop (numeric_literal_not_star c r Hc)).
  rewrite (tokenize_loop_literal c r fuel Hc Hr).
  cbn [map shift type value position].
  do 3 eexists. split; [reflexivity|]. split.
  - rewrite !map_map. apply map_ext. intros t. unfold shift. cbn.
    f_equal. lia.
  - cbn. lia.
Qed.


Lemma tokenize_infix (a b c op1 op2 : string) (d1 d2 : descriptor) :
  numeric_literal a = true ->
  numeric_literal b = true ->
  numeric_literal c = true ->
  lookup op1 Parser.operators = Some d1 ->
  lookup op2 Parser.operators = Some d2 ->
  exists p1 p2 p3 p4 p5,
    tokenize (a ++ op1 ++ b ++ op2 ++ c)
    = [ mkToken NUMBER a 0; mkToken OPERATOR op1 p1; mkToken NUMBER b p2;
        mkToken OPERATOR op2 p3; mkToken NUMBER c p4; mkToken EOF "" p5 ].
Proof.
  intros Ha Hb Hc H1 H2. unfold tokenize.
  rewrite !remove_spaces_app.
  rewrite (numeric_literal_no_space a Ha), (numeric_literal_no_space b Hb),
    (numeric_literal_no_space c Hc), (operator_no_space op1 d1 H1),
    (operator_no_space op2 d2 H2).
  replace (a ++ op1 ++ b ++ op2 ++ c)%string
    with (a ++ op1 ++ b ++ op2 ++ c ++ "")%string by now rewrite app_empty_r.
  set (s := (a ++ op1 ++ b ++ op2 ++ c ++ "")%string).
  rewrite (tokenize_loop_fuel s (S (String.length s))
             (S (S (S (S (S (S (String.length s))))))) 0) by lia.
  subst s.
  rewrite (tokenize_loop_literal a _ _ Ha (operator_stops_number op1 _ d1 H1)).
  rewrite (tokenize_loop_operator op1 _ d1 _ H1 (numeric_literal_not_star b _ Hb)).
  destruct (tokenize_loop_binary b c op2 "" d2
              (S (String.length (a ++ op1 ++ b ++ op2 ++ c ++ ""))) Hb Hc H2 eq_refl)
    as (q1 & q2 & tail & -> & -> & _).
  rewrite tokenize_loop_end.
  cbn [map shift type value position].
  do 5 eexists. reflexivity.
Qed.

Lemma tokenize_infix_parenthesized (a b c op1 op2 : string) (d1 d2 : descriptor) :
  numeric_literal a = true ->
  numeric_literal b = true ->
  numeric_literal c = true ->
  lookup op1 Parser.operators = Some d1 ->
  lookup op2 Parser.operators = Some d2 ->
  exists p1 p2 p3 p4 p5 p6 p7,
    tokenize (a ++ op1 ++ "(" ++ b ++ op2 ++ c ++ ")")
    = [ mkToken NUMBER a 0; mkToken OPERATOR op1 p1; mkToken LEFT_PAREN "(" p2;
        mkToken NUMBER b p3; mkToken OPERATOR op2 p4; mkToken NUMBER c p5;
        mkToken RIGHT_PAREN ")" p6; mkToken EOF "" p7 ].
Proof.
  intros Ha Hb Hc H1 H2. unfold tokenize.
  rewrite !remove_spaces_app.
  rewrite (numeric_literal_no_space a Ha), (numeric_literal_no_space b Hb),
    (numeric_literal_no_space c Hc), (operator_no_space op1 d1 H1),
    (operator_no_space op2 d2 H2).
  change (remove_spaces "(") with "(". change (remove_spaces ")") with ")".
  set (s := (a ++ op1 ++ "(" ++ b ++ op2 ++ c ++ ")")%string).
  rewrite (tokenize_loop_fuel s (S (String.length s))
             (S (S (S (S (S (S (S (S (String.length s))))))))) 0) by lia.
  subst s.
  rewrite (tokenize_loop_literal a _ _ Ha (operator_stops_number op1 _ d1 H1)).
  rewrite (tokenize_loop_operator op1 _ d1 _ H1).
  2: { cbn. discriminate. }
  rewrite tokenize_loop_left_paren.
  change (b ++ op2 ++ c ++ ")")%string with (b ++ op2 ++ c ++ ")" ++ "")%string.
  destruct (tokenize_loop_binary b c op2 (")" ++ "") d2
              (S (S (String.length (a ++ op1 ++ "(" ++ b ++ op2 ++ c ++ ")" ++ ""))))
              Hb Hc H2 eq_refl)
    as (q1 & q2 & tail & -> & -> & _).
  rewrite tokenize_loop_right_paren, tokenize_loop_end.
  cbn [map shift type value position].
  do 7 eexists. reflexivity.
Qed.

Lemma has_higher_precedence_lower (t1 t2 : Token) (d1 d2 : descriptor) :
  lookup (value t1) Parser.operators = Some d1 ->
  lookup (value t2) Parser.operators = Some d2 ->
  precedence d1 < precedence d2 ->
  _has_higher_precedence t1 t2 = false.
Proof.
  intros H1 H2 Hlt. unfold _has_higher_precedence. rewrite H1, H2.
  destruct (Nat.ltb_spec (precedence d2) (precedence d1)); [lia|].
  destruct (Nat.eqb_spec (precedence d1) (precedence d2)); [lia|].
  reflexivity.
Qed.

Lemma postfix_infix (a b c op1 op2 : string) (d1 d2 : descriptor)
  (p0 p1 p2 p3 p4 p5 : nat) :
  lookup op1 Parser.operators = Some d1 ->
  lookup op2 Parser.operators = Some d2 ->
  precedence d1 < precedence d2 ->
  parse_to_postfix
    [ mkToken NUMBER a p0; mkToken OPERATOR op1 p1; mkToken NUMBER b p2;
      mkToken OPERATOR op2 p3; mkToken NUMBER c p4; mkToken EOF "" p5 ]
  = [ mkToken NUMBER a p0; mkToken NUMBER b p2; mkToken NUMBER c p4;
      mkToken OPERATOR op2 p3; mkToken OPERATOR op1 p1 ].
Proof.
  intros H1 H2 Hlt. unfold parse_to_postfix.
  cbn [postfix_loop type pop_higher_precedence app TokenType_eqb andb].
  rewrite (has_higher_precedence_lower
             (mkToken OPERATOR op1 p1) (mkToken OPERATOR op2 p3) d1 d2 H1 H2 Hlt).
  reflexivity.
Qed.

Lemma postfix_infix_parenthesized (a b c op1 op2 : string)
  (p0 p1 p2 p3 p4 p5 p6 p7 : nat) :
  parse_to_postfix
    [ mkToken NUMBER a p0; mkToken OPERATOR op1 p1; mkToken LEFT_PAREN "(" p2;
      mkToken NUMBER b p3; mkToken OPERATOR op2 p4; mkToken NUMBER c p5;
      mkToken RIGHT_PAREN ")" p6; mkToken EOF "" p7 ]
  = [ mkToken NUMBER a p0; mkToken NUMBER b p3; mkToken NUMBER c p5;
      mkToken OPERATOR op2 p4; mkToken OPERATOR op1 p1 ].
Proof. reflexivity. Qed.

End InfixFacts.

(** ** The order of the checks of the validator *)

Module ValidatorFacts.
Import PyStr Parser Vocabulary ConverterFacts.

Lemma last_token_snoc (pre : list Token) (token : Token) :
  last_token (pre ++ [token]) = Some token.
Proof.
  unfold last_token. rewrite List.map_app. cbn [map]. apply List.last_last.
Qed.

Lemma count_type_snoc (t : TokenType) (pre : list Token) (token : Token) :
  count_type t (pre ++ [token])
  = count_type t pre + (if has_type t token then 1 else 0).
Proof.
  rewrite count_type_app. unfold count_type at 2. cbn [filter].
  now destruct (has_type t token).
Qed.

(** One turn of the loop of [validate_syntax] after the tokens [pre]. *)
Lemma validate_loop_turn (pre rest : list Token) (token : Token) :
  has_type EOF token = false ->
  validate_loop (token :: rest) (balance pre) (last_token pre)
  = match offence pre token with
    | Some message => (false, message)
    | None => validate_loop rest (balance (pre ++ [token])) (Some token)
    end.
Proof.
  intros He. cbn [validate_loop]. unfold has_type in He. rewrite He.
  unfold offence, balance, ends_with_operator, prev_has_type, may_precede_function.
  rewrite !count_type_snoc. unfold has_type.
  destruct (last_token pre) as [prev|];
    destruct (type token) eqn:Ht; cbn [TokenType_eqb andb orb negb existsb];
    try discriminate;
    rewrite ?Z.add_0_r, ?Nat.add_0_r, ?andb_false_r; cbn [andb orb negb];
    try reflexivity;
    repeat match goal with
           | |- context [(?a <=? ?b)%nat] => destruct (Nat.leb_spec a b)
           | |- context [(?a <? ?b)%Z] => destruct (Z.ltb_spec a b)
           end; try lia; cbn [andb orb negb];
    try (f_equal; lia);
    try (destruct (type prev); cbn; try reflexivity; f_equal; lia).
Qed.

Lemma offence_not_EOF (pre : list Token) (token : Token) (message : string) :
  offence pre token = Some message -> has_type EOF token = false.
Proof.
  unfold offence, has_type. destruct (type token); cbn; try discriminate;
    reflexivity.
Qed.

(** Tokens that do not offend take the loop to its state after them. *)
Lemma validate_loop_inoffensive (rest : list Token) :
  forall pre post,
    inoffensive pre rest = true ->
    validate_loop (rest ++ post) (balance pre) (last_token pre)
    = validate_loop post (balance (pre ++ rest)) (last_token (pre ++ rest)).
Proof.
  induction rest as [|token rest IH]; intros pre post H.
  - now rewrite app_nil_r.
  - cbn [inoffensive] in H.
    apply andb_prop in H as [H Hrest]. apply andb_prop in H as [He Ho].
    apply negb_true_iff in He.
    cbn [app]. rewrite (validate_loop_turn pre (rest ++ post) token He).
    destruct (offence pre token); [discriminate|].
    rewrite <- (last_token_snoc pre token).
    rewrite (IH (pre ++ [token]) post Hrest), <- app_assoc. reflexivity.
Qed.

Lemma inoffensive_first (body post : list Token) :
  inoffensive [] body = true ->
  body <> [] ->
  validate_syntax (body ++ post) = validate_loop (body ++ post) 0 None.
Proof.
  intros H Hne. destruct body as [|first rest]; [contradiction|].
  cbn [inoffensive] in H. apply andb_prop in H as [H _].
  apply andb_prop in H as [He _]. apply negb_true_iff in He.
  unfold has_type in He. cbn [app validate_syntax]. now rewrite He.
Qed.

Lemma validate_end_report (body : list Token) :
  validate_end (balance body) (last_token body) = end_report body.
Proof.
  unfold validate_end, end_report, balance, ends_with_operator, has_type.
  destruct (Nat.eqb_spec (count_type LEFT_PAREN body) (count_type RIGHT_PAREN body));
    destruct (Z.eqb_spec
                (Z.of_nat (count_type LEFT_PAREN body)
                 - Z.of_nat (count_type RIGHT_PAREN body)) 0);
    try lia; cbn [negb]; [|reflexivity].
  destruct (last_token body); reflexivity.
Qed.

End ValidatorFacts.

(** ** The positions of the tokens *)

Module PositionFacts.
Import PyStr PyStrFacts Parser Vocabulary Vocabulary2 TokenizerFacts.

Lemma skipped_recognised (expression : string) (position : nat) (c : ascii) :
  String.get position expression = Some c ->
  recognised c = true ->
  position + skipped (drop position expression) = position.
Proof.
  intros G Hc. destruct (get_Some_drop _ _ _ G) as [r ->].
  cbn [skipped]. rewrite Hc. lia.
Qed.

Lemma skipped_unrecognised (expression : string) (position : nat) (c : ascii) :
  String.get position expression = Some c ->
  recognised c = false ->
  position + skipped (drop position expression)
  = position + 1 + skipped (drop (position + 1) expression).
Proof.
  intros G Hc. destruct (get_Some_drop _ _ _ G) as [r Hr].
  rewrite <- (drop_drop position 1), Hr. cbn [skipped drop]. rewrite Hc. lia.
Qed.

Lemma offsets_skip (expression : string) (position : nat) (c : ascii)
  (tokens : list Token) :
  String.get position expression = Some c ->
  recognised c = false ->
  offsets expression position tokens = offsets expression (position + 1) tokens.
Proof.
  intros G Hc. destruct tokens as [|token rest]; [reflexivity|].
  cbn [offsets]. cbv zeta.
  now rewrite (skipped_unrecognised expression position c G Hc).
Qed.

(** Every token stands at the first character, after the end of the token
    before it, that the tokenizer does not skip. *)
Lemma tokenize_loop_offsets (expression : string) :
  forall fuel position,
    map Parser.position (tokenize_loop fuel expression position)
    = offsets expression position (tokenize_loop fuel expression position).
Proof.
  induction fuel as [|fuel IH]; intros position; [reflexivity|].
  cbn [tokenize_loop].
  destruct (String.get position expression) as [c|] eqn:G.
  2: { cbn [map offsets Parser.position]. cbv zeta.
       rewrite get_drop in G. destruct (drop position expression); [|discriminate].
       cbn [skipped]. now rewrite Nat.add_0_r. }
  destruct (isdigit c || Ascii.eqb c ".") eqn:H1.
  { assert (Hc : recognised c = true) by (unfold recognised; now rewrite H1).
    unfold _parse_number. cbn [map offsets Parser.position value]. cbv zeta.
    rewrite (skipped_recognised expression position c G Hc). f_equal. apply IH. }
  destruct (isalpha c) eqn:H2.
  { assert (Hc : recognised c = true)
      by (unfold recognised; rewrite H1, H2; reflexivity).
    unfold _parse_identifier.
    destruct (mem (identifier_prefix (drop position expression)) functions);
      [|destruct (mem (identifier_prefix (drop position expression)) constants)];
      cbn [map offsets Parser.position value]; cbv zeta;
      rewrite (skipped_recognised expression position c G Hc); f_equal; apply IH. }
  destruct (char_in c "+-*/^") eqn:H3.
  { assert (Hc : recognised c = true)
      by (unfold recognised; rewrite H1, H2, H3; reflexivity).
    match goal with |- context [if ?b then _ else _] => destruct b end;
      cbn [map offsets Parser.position value String.length]; cbv zeta;
      rewrite (skipped_recognised expression position c G Hc); f_equal; apply IH. }
  destruct (Ascii.eqb c "(") eqn:H4.
  { assert (Hc : recognised c = true)
      by (unfold recognised; rewrite H1, H2, H3, H4; reflexivity).
    cbn [map offsets Parser.position value String.length]. cbv zeta.
    rewrite (skipped_recognised expression position c G Hc). f_equal. apply IH. }
  destruct (Ascii.eqb c ")") eqn:H5.
  { assert (Hc : recognised c = true)
      by (unfold recognised; rewrite H1, H2, H3, H4, H5; reflexivity).
    cbn [map offsets Parser.position value String.length]. cbv zeta.
    rewrite (skipped_recognised expression position c G Hc). f_equal. apply IH. }
  destruct (Ascii.eqb c ",") eqn:H6.
  { assert (Hc : recognised c = true)
      by (unfold recognised; rewrite H1, H2, H3, H4, H5, H6; reflexivity).
    cbn [map offsets Parser.position value String.length]. cbv zeta.
    rewrite (skipped_recognised expression position c G Hc). f_equal. apply IH. }
  assert (Hc : recognised c = false)
    by (unfold recognised; rewrite H1, H2, H3, H4, H5, H6; reflexivity).
  rewrite IH. symmetry. now apply (offsets_skip expression position c).
Qed.

(** No token stands beyond the end of the text. *)
Lemma tokenize_loop_in_bounds (expression : string) :
  forall fuel position token,
    position <= String.length expression ->
    In token (tokenize_loop fuel expression position) ->
    Parser.position token <= String.length expression.
Proof.
  induction fuel as [|fuel IH]; intros position token Hle Hin; [destruct Hin|].
  destruct (tokenize_turn expression position)
    as [Hstop | token' new_pos Hlen _ _ Hpos [r Hval] Hnew Hstep | Hlen Hstep].
  - cbn [tokenize_loop] in Hin. rewrite Hstop in Hin.
    destruct Hin as [<- | []]. exact Hle.
  - rewrite Hstep in Hin. destruct Hin as [<- | Hin]; [lia|].
    apply (IH new_pos); [|exact Hin].
    pose proof (f_equal String.length Hval) as Hl.
    rewrite length_drop, length_app in Hl. lia.
  - rewrite Hstep in Hin. apply (IH (position + 1)); [lia | exact Hin].
Qed.

(** The character at an offset of the text without spaces is the
    character at the corresponding offset of the text. *)
Lemma get_source_offset (expression : string) :
  forall p,
    String.get (source_offset expression p) expression
    = String.get p (remove_spaces expression).
Proof.
  induction expression as [|c s IH]; intros p.
  - now destruct p.
  - cbn [source_offset remove_spaces].
    destruct (Ascii.eqb c " ").
    + cbn [String.get]. apply IH.
    + destruct p as [|p]; [reflexivity|]. cbn [String.get]. apply IH.
Qed.

(** The two offsets differ by the number of spaces that come before. *)
Lemma source_offset_spaces (expression : string) :
  forall p,
    p <= String.length (remove_spaces expression) ->
    source_offset expression p
    = p + spaces_before expression (source_offset expression p).
Proof.
  induction expression as [|c s IH]; intros p Hp.
  - cbn in *. lia.
  - cbn [source_offset remove_spaces] in *.
    destruct (Ascii.eqb c " ") eqn:E.
    + cbn [spaces_before]. rewrite E. rewrite (IH p Hp) at 1. lia.
    + destruct p as [|p]; [reflexivity|].
      cbn [spaces_before String.length] in *. rewrite E.
      rewrite (IH p) at 1 by lia. lia.
Qed.

End PositionFacts.

(** * The claims of the specification *)

Import PyStr PyStrFacts Parser PyNum Evaluator Vocabulary Vocabulary2.
Import TokenizerFacts ConverterFacts EvaluatorFacts InfixFacts ValidatorFacts.
Import PositionFacts.

(** C9, counterexample: in [" 1"] the literal is at offset 1 of the source,
    and the tokenizer gives its token the position 0. *)
Lemma position_is_not_the_source_offset :
  In (mkToken NUMBER "1" 0) (tokenize " 1")
  /\ substring 0 1 " 1" <> "1"
  /\ substring 1 1 " 1" = "1".
Proof.
  split; [left; reflexivity|]. split; [discriminate | reflexivity].
Qed.

(** C9, amended: the position of every token is the offset of its text in
    the expression after the removal of the spaces: the token stands at the
    first character, after the end of the token before it, that the
    tokenizer does not skip, and its text is read there.  The offset of this
    character in the source is the position plus the number of spaces that
    come before it in the source, so that the position is the source offset
    only when no space comes before the token. *)
Theorem position_is_offset_without_spaces (expression : string) :
  map position (tokenize expression)
  = offsets (remove_spaces expression) 0 (tokenize expression)
  /\ (forall token,
        In token (tokenize expression) ->
        substring (position token) (String.length (value token))
          (remove_spaces expression)
        = value token
        /\ String.get (source_offset expression (position token)) expression
           = String.get (position token) (remove_spaces expression)
        /\ source_offset expression (position token)
           = position token
             + spaces_before expression
                 (source_offset expression (position token))
        /\ (position token = source_offset expression (position token)
            <-> spaces_before expression
                  (source_offset expression (position token)) = 0)).
Proof.
  split; [apply tokenize_loop_offsets|].
  unfold tokenize. intros token Hin.
  pose proof (tokenize_loop_in_bounds _ _ _ _ (Nat.le_0_l _) Hin) as Hle.
  pose proof (source_offset_spaces expression (position token) Hle) as Hs.
  split; [|split; [|split]].
  - destruct (tokenize_loop_positions _ _ _ _ Hin) as [r Hr].
    exact (substring_of_drop _ _ _ _ Hr).
  - apply get_source_offset.
  - exact Hs.
  - lia.
Qed.

Lemma position_is_offset_without_spaces_witness :
  position (mkToken OPERATOR "+" 2) = 2
  /\ source_offset "+ ++" (position (mkToken OPERATOR "+" 2)) = 3
  /\ spaces_before "+ ++" 3 = 1
  /\ source_offset "+ ++" (position (mkToken OPERATOR "+" 2))
     = position (mkToken OPERATOR "+" 2)
       + spaces_before "+ ++"
           (source_offset "+ ++" (position (mkToken OPERATOR "+" 2))).
Proof.
  split; [reflexivity|]. split; [reflexivity|]. split; [reflexivity|].
  apply (proj2 (position_is_offset_without_spaces "+ ++")
           (mkToken OPERATOR "+" 2)).
  vm_compute. right; right; left; reflexivity.
Defined.

(** C8: on a sequence the validator accepts, the postfix sequence is a
    rearrangement of the value, operator and function tokens read (those
    before the [EOF] token), so its length is [m + k + f]. *)
Theorem postfix_length (tokens : list Token) :
  fst (validate_syntax tokens) = true ->
  Permutation (parse_to_postfix tokens)
    (filter is_emitted (before_eof tokens))
  /\ List.length (parse_to_postfix tokens)
     = List.length (filter is_value (before_eof tokens))
       + count_type OPERATOR (before_eof tokens)
       + count_type FUNCTION (before_eof tokens).
Proof.
  intros H. pose proof (parse_to_postfix_accepted tokens H) as Hp.
  split; [exact Hp|].
  rewrite (Permutation_length Hp). apply length_filter_emitted.
Qed.

Lemma postfix_length_witness :
  List.length (parse_to_postfix (tokenize "sin(x) + 2 * 3")) = 3 + 2 + 1.
Proof.
  apply (postfix_length (tokenize "sin(x) + 2 * 3")). reflexivity.
Defined.

(** C10: on a sequence the validator accepts, every token of the postfix
    sequence is a value, an operator or a function; none is a parenthesis, a
    comma or the [EOF] token. *)
Theorem postfix_has_no_structural_token (tokens : list Token) :
  fst (validate_syntax tokens) = true ->
  Forall (fun token =>
            In (type token) [NUMBER; VARIABLE; CONSTANT; OPERATOR; FUNCTION])
    (parse_to_postfix tokens).
Proof.
  intros H. pose proof (parse_to_postfix_accepted tokens H) as Hp.
  apply (Permutation_Forall (Permutation_sym Hp)).
  apply Forall_forall. intros token Hin. apply filter_In in Hin as [_ Hem].
  unfold is_emitted, is_value, has_type in Hem.
  destruct (type token); cbn in *; try discriminate; tauto.
Qed.

Lemma postfix_has_no_structural_token_witness :
  Forall (fun token =>
            In (type token) [NUMBER; VARIABLE; CONSTANT; OPERATOR; FUNCTION])
    (parse_to_postfix (tokenize "(1 + 2) * sqrt(x)")).
Proof.
  apply (postfix_has_no_structural_token (tokenize "(1 + 2) * sqrt(x)")).
  reflexivity.
Defined.

(** C7: for numeric literals [a], [b], [c] and operators [op1], [op2] with
    the precedence of [op2] above that of [op1], the expression
    [a op1 b op2 c] evaluates as [a op1 (b op2 c)] does: to the same value,
    or to the same failure. *)
Theorem precedence_law (R : Runtime) (variables : list (string * number))
  (a b c op1 op2 : string) (d1 d2 : descriptor) :
  numeric_literal a = true ->
  numeric_literal b = true ->
  numeric_literal c = true ->
  lookup op1 Parser.operators = Some d1 ->
  lookup op2 Parser.operators = Some d2 ->
  precedence d1 < precedence d2 ->
  outcome (evaluate_expression R (a ++ op1 ++ b ++ op2 ++ c) variables)
  = outcome (evaluate_expression R (a ++ op1 ++ "(" ++ b ++ op2 ++ c ++ ")")
               variables).
Proof.
  intros Ha Hb Hc H1 H2 Hlt.
  destruct (tokenize_infix a b c op1 op2 d1 d2 Ha Hb Hc H1 H2)
    as (p1 & p2 & p3 & p4 & p5 & Ht).
  destruct (tokenize_infix_parenthesized a b c op1 op2 d1 d2 Ha Hb Hc H1 H2)
    as (q1 & q2 & q3 & q4 & q5 & q6 & q7 & Hq).
  unfold evaluate_expression, parse_expression. rewrite Ht, Hq.
  change (validate_syntax _) with (true, "") at 1.
  change (validate_syntax _) with (true, "") at 1.
  cbn [negb].
  rewrite (postfix_infix a b c op1 op2 d1 d2 _ _ _ _ _ _ H1 H2 Hlt).
  rewrite postfix_infix_parenthesized.
  rewrite (evaluate_postfix_erase R variables
             [ mkToken NUMBER a 0; mkToken NUMBER b q3; mkToken NUMBER c q5;
               mkToken OPERATOR op2 q4; mkToken OPERATOR op1 q1 ]
             [ mkToken NUMBER a 0; mkToken NUMBER b p2; mkToken NUMBER c p4;
               mkToken OPERATOR op2 p3; mkToken OPERATOR op1 p1 ] eq_refl).
  now destruct (evaluate_postfix R _ variables).
Qed.


Lemma precedence_law_witness :
  outcome (evaluate_expression integer_runtime "2+3*4" [])
  = outcome (evaluate_expression integer_runtime "2+(3*4)" []).
Proof.
  apply (precedence_law integer_runtime [] "2" "3" "4" "+" "*"
           (mkDescriptor 1 left) (mkDescriptor 2 left));
    try reflexivity.
  cbn. lia.
Defined.





(** C3, counterexample: whatever the runtime, ["sqrt(-1)"] does not evaluate
    to a value. *)
Lemma sqrt_of_minus_one_has_no_value :
  ~ exists (R : Runtime) (v : number) (n : nat),
      evaluate_expression R "sqrt(-1)" [] = EvalSuccess v "sqrt(-1)" n.
Proof. intros (R & v & n & H). vm_compute in H. discriminate H. Qed.

(** C3, amended: the evaluation of ["sqrt(-1)"] fails.  There is no unary
    minus: [-] is read as a binary operator, the postfix sequence is
    [1 - sqrt], and the operator finds one operand on the stack. *)
Theorem sqrt_of_minus_one_fails (R : Runtime) :
  parse_to_postfix (tokenize "sqrt(-1)")
  = [mkToken NUMBER "1" 6; mkToken OPERATOR "-" 5; mkToken FUNCTION "sqrt" 0]
  /\ evaluate_expression R "sqrt(-1)" []
     = EvalFailure "Insufficient operands for operator -" "sqrt(-1)".
Proof. split; reflexivity. Qed.
(** C4, counterexample: an evaluation that succeeds with an integer, and an
    expression whose value, whatever the runtime, is a complex number and
    never a float. *)
Lemma evaluation_returns_non_floats :
  ~ (forall (R : Runtime) (expression : string) (v : number) (n : nat),
        evaluate_expression R expression [] = EvalSuccess v expression n ->
        exists x, v = PyFloat x)
  /\ (forall (R : Runtime) (v : number) (n : nat),
         evaluate_expression R "(0-8)^0.5" [] = EvalSuccess v "(0-8)^0.5" n ->
         exists z, v = PyComplex z).
Proof.
  split.
  - intros H.
    destruct (H integer_runtime "floor(2.5)" (PyInt 2) 4 eq_refl) as [x Hx].
    discriminate Hx.
  - intros R v n H.
    assert (Hpost : parse_expression "(0-8)^0.5"
                    = ParseSuccess (tokenize "(0-8)^0.5")
                        [ mkToken NUMBER "0" 1; mkToken NUMBER "8" 3;
                          mkToken OPERATOR "-" 2; mkToken NUMBER "0.5" 6;
                          mkToken OPERATOR "^" 5 ] "(0-8)^0.5") by reflexivity.
    unfold evaluate_expression in H. rewrite Hpost in H.
    change [ mkToken NUMBER "0" 1; mkToken NUMBER "8" 3;
             mkToken OPERATOR "-" 2; mkToken NUMBER "0.5" 6;
             mkToken OPERATOR "^" 5 ]
      with ([ mkToken NUMBER "0" 1; mkToken NUMBER "8" 3;
              mkToken OPERATOR "-" 2; mkToken NUMBER "0.5" 6 ]
              ++ [mkToken OPERATOR "^" 5]) in H.
    rewrite (evaluate_postfix_last R []
               [ mkToken NUMBER "0" 1; mkToken NUMBER "8" 3;
                 mkToken OPERATOR "-" 2; mkToken NUMBER "0.5" 6 ]
               (mkToken OPERATOR "^" 5)
               [PyFloat (fdiv fone ftwo); PyFloat (fopp (float_of_Z 8))] eq_refl)
      in H.
    destruct (evaluate_token_negative_power R [] (mkToken OPERATOR "^" 5)
                (fopp (float_of_Z 8)) (fdiv fone ftwo) []
                eq_refl (or_introl eq_refl) eq_refl eq_refl eq_refl eq_refl)
      as [[z Hz] | Hz]; rewrite Hz in H; cbn [bind ret raise] in H.
    + injection H as <- _. now exists z.
    + discriminate H.
Qed.

(** C4, amended: [^] and [**] applied to a negative finite float and a
    finite float that is not an integer give a complex number, or raise
    [OverflowError]; they never give a real float, NaN included.  And
    [floor], [ceil] and [round] of any finite float, whatever its sign, give
    an integer. *)
Theorem negative_base_fractional_power (R : Runtime)
  (variables : list (string * number)) (stack : list number) :
  (forall (token : Token) (x y : float),
      type token = OPERATOR ->
      value token = "^" \/ value token = "**" ->
      fltb x fzero = true ->
      isfinite x = true ->
      isfinite y = true ->
      is_integral y = false ->
      (exists z, evaluate_token R variables token (PyFloat y :: PyFloat x :: stack)
                 = inr (PyComplex z :: stack))
      \/ evaluate_token R variables token (PyFloat y :: PyFloat x :: stack)
         = inl (OverflowError "complex exponentiation"))
  /\ (forall (x : float) (name : string) (position : nat),
         isfinite x = true ->
         In name ["floor"; "ceil"; "round"] ->
         exists n, evaluate_token R variables (mkToken FUNCTION name position)
                     (PyFloat x :: stack)
                   = inr (PyInt n :: stack)).
Proof.
  split.
  - intros token x y Hty Hval Hneg Hfx Hfy Hfrac.
    now apply evaluate_token_negative_power.
  - intros x name position Hfx Hin.
    destruct (rounding_returns_an_integer x Hfx) as (n1 & n2 & n3 & H1 & H2 & H3).
    cbn [In] in Hin.
    destruct Hin as [<- | [<- | [<- | []]]]; unfold evaluate_token;
      cbn [type value].
    + change (lookup "floor" (Evaluator.functions R)) with (Some math_floor).
      cbv beta iota. change (mem "floor" unary_functions) with true. cbv iota.
      rewrite H1. now exists n1.
    + change (lookup "ceil" (Evaluator.functions R)) with (Some math_ceil).
      cbv beta iota. change (mem "ceil" unary_functions) with true. cbv iota.
      rewrite H2. now exists n2.
    + change (lookup "round" (Evaluator.functions R)) with (Some py_round).
      cbv beta iota. change (mem "round" unary_functions) with true. cbv iota.
      rewrite H3. now exists n3.
Qed.

Lemma negative_base_fractional_power_witness :
  ((exists z, evaluate_token integer_runtime [] (mkToken OPERATOR "^" 5)
                [PyFloat (fdiv fone ftwo); PyFloat (float_of_Z (-8))]
              = inr [PyComplex z])
   \/ evaluate_token integer_runtime [] (mkToken OPERATOR "^" 5)
        [PyFloat (fdiv fone ftwo); PyFloat (float_of_Z (-8))]
      = inl (OverflowError "complex exponentiation"))
  /\ (exists n, evaluate_token integer_runtime [] (mkToken FUNCTION "floor" 0)
                  [PyFloat (fdiv (float_of_Z 5) ftwo)]
                = inr [PyInt n]).
Proof.
  split.
  - apply (proj1 (negative_base_fractional_power integer_runtime [] [])
             (mkToken OPERATOR "^" 5) (float_of_Z (-8)) (fdiv fone ftwo));
      try reflexivity.
    now left.
  - apply (proj2 (negative_base_fractional_power integer_runtime [] [])
             (fdiv (float_of_Z 5) ftwo) "floor" 0); [reflexivity|].
    now left.
Defined.

(** C6: ["2^3^2"] evaluates to 512.0, the value of [2^(3^2)], and not to
    64.0, on a runtime whose power function is exact on integers. *)
Theorem power_is_right_associative (R : Runtime) :
  pow_exact_on_integers R ->
  evaluate_expression R "2^3^2" []
  = EvalSuccess (PyFloat (float_of_Z 512)) "2^3^2" 5
  /\ float_of_Z 512 <> float_of_Z 64.
Proof.
  intros H. split; [|discriminate].
  assert (H32 : libm_pow R (float_of_Z 3) (float_of_Z 2) = float_of_Z (3 ^ 2))
    by (apply (H _ _ 3 2)%Z; [reflexivity | reflexivity | lia | lia | reflexivity]).
  assert (H29 : libm_pow R (float_of_Z 2) (float_of_Z 9) = float_of_Z (2 ^ 9))
    by (apply (H _ _ 2 9)%Z; [reflexivity | reflexivity | lia | lia | reflexivity]).
  assert (Hpow1 : float_pow R (float_of_Z 3) (float_of_Z 2)
                  = inr (PyFloat (float_of_Z 9))).
  { vm_compute in H32. vm_compute. rewrite H32. reflexivity. }
  assert (Hpow2 : float_pow R (float_of_Z 2) (float_of_Z 9)
                  = inr (PyFloat (float_of_Z 512))).
  { vm_compute in H29. vm_compute. rewrite H29. reflexivity. }
  assert (Hparse : parse_expression "2^3^2"
                   = ParseSuccess (tokenize "2^3^2")
                       ([ mkToken NUMBER "2" 0; mkToken NUMBER "3" 2;
                          mkToken NUMBER "2" 4; mkToken OPERATOR "^" 3 ]
                          ++ [mkToken OPERATOR "^" 1]) "2^3^2")
    by (vm_compute; reflexivity).
  assert (Hpre : evaluate_loop R []
                   [ mkToken NUMBER "2" 0; mkToken NUMBER "3" 2;
                     mkToken NUMBER "2" 4; mkToken OPERATOR "^" 3 ] []
                 = inr [PyFloat (float_of_Z 9); PyFloat (float_of_Z 2)]).
  { change [ mkToken NUMBER "2" 0; mkToken NUMBER "3" 2;
             mkToken NUMBER "2" 4; mkToken OPERATOR "^" 3 ]
      with ([ mkToken NUMBER "2" 0; mkToken NUMBER "3" 2; mkToken NUMBER "2" 4 ]
              ++ [mkToken OPERATOR "^" 3]).
    rewrite evaluate_loop_app.
    assert (Hnum : evaluate_loop R []
                     [ mkToken NUMBER "2" 0; mkToken NUMBER "3" 2;
                       mkToken NUMBER "2" 4 ] []
                   = inr [ PyFloat (float_of_Z 2); PyFloat (float_of_Z 3);
                           PyFloat (float_of_Z 2) ])
      by (vm_compute; reflexivity).
    rewrite Hnum. cbn [bind evaluate_loop].
    rewrite (evaluate_token_power R [] (mkToken OPERATOR "^" 3) _ _ _
               eq_refl (or_introl eq_refl)), Hpow1.
    reflexivity. }
  unfold evaluate_expression. rewrite Hparse.
  rewrite (evaluate_postfix_last R [] _ (mkToken OPERATOR "^" 1) _ Hpre).
  rewrite (evaluate_token_power R [] (mkToken OPERATOR "^" 1) _ _ _
             eq_refl (or_introl eq_refl)), Hpow2.
  reflexivity.
Qed.

Lemma power_is_right_associative_witness :
  evaluate_expression integer_runtime "2^3^2" []
  = EvalSuccess (PyFloat (float_of_Z 512)) "2^3^2" 5
  /\ float_of_Z 512 <> float_of_Z 64.
Proof.
  apply (power_is_right_associative integer_runtime).
  exact integer_runtime_pow_exact.
Defined.

(** C5, counterexample: ["1++2)"] breaks rule 2 (the last parenthesis closes
    nothing) and rule 3 (two operators in a row); the lowest-numbered rule
    that fails is rule 2, and the validator reports rule 3. *)
Lemma lowest_rule_is_not_reported :
  first_failing_rule (tokenize "1++2)") = Some 2
  /\ validate_syntax (tokenize "1++2)")
     = (false, "Consecutive operators at position 2")
  /\ reported_rule (validate_syntax (tokenize "1++2)")) = Some 3.
Proof. repeat split. Qed.

(** C5, amended: the validator reads the tokens from left to right and
    reports the first token that offends, whichever rule it breaks: a right
    parenthesis that closes nothing, an operator after an operator, a
    function after a value or a right parenthesis.  When no token offends it
    reports, in this order, unbalanced parentheses and an operator at the
    end. *)
Theorem validator_reports_first_offence (body : list Token) :
  inoffensive [] body = true ->
  (forall token post message,
      offence body token = Some message ->
      validate_syntax (body ++ token :: post) = (false, message))
  /\ (body <> [] ->
      forall post,
        match post with [] => True | eof :: _ => type eof = EOF end ->
        validate_syntax (body ++ post) = end_report body).
Proof.
  intros H. split.
  - intros token post message Ho.
    pose proof (offence_not_EOF body token message Ho) as He.
    assert (Hs : validate_syntax (body ++ token :: post)
                 = validate_loop (body ++ token :: post) 0 None).
    { destruct body as [|first rest].
      - unfold has_type in He. cbn [app validate_syntax]. now rewrite He.
      - apply inoffensive_first; [assumption | discriminate]. }
    rewrite Hs.
    pose proof (validate_loop_inoffensive body [] (token :: post) H) as Hl.
    change (balance []) with 0%Z in Hl.
    change (last_token []) with (@None Token) in Hl.
    cbn [app] in Hl. rewrite Hl.
    rewrite (validate_loop_turn body post token He). now rewrite Ho.
  - intros Hne post Hpost.
    rewrite (inoffensive_first body post H Hne).
    pose proof (validate_loop_inoffensive body [] post H) as Hl.
    change (balance []) with 0%Z in Hl.
    change (last_token []) with (@None Token) in Hl.
    cbn [app] in Hl. rewrite Hl.
    destruct post as [|eof rest]; cbn [validate_loop].
    + apply validate_end_report.
    + rewrite Hpost. cbn [TokenType_eqb]. apply validate_end_report.
Qed.

Lemma validator_reports_first_offence_witness :
  validate_syntax (tokenize "1++2)")
  = (false, "Consecutive operators at position 2").
Proof.
  apply (proj1 (validator_reports_first_offence
                  [mkToken NUMBER "1" 0; mkToken OPERATOR "+" 1] eq_refl)
           (mkToken OPERATOR "+" 2)
           [mkToken NUMBER "2" 3; mkToken RIGHT_PAREN ")" 4; mkToken EOF "" 5]).
  reflexivity.
Defined.


(** * Further properties of the parser and the evaluator *)

(** ** The tokenizer *)

Module TokenizerFacts2.
Import PyStr PyStrFacts Parser Vocabulary Vocabulary2 TokenizerFacts.

Lemma ordered_weaken (tokens : list Token) (a b : nat) :
  b <= a -> ordered a tokens = true -> ordered b tokens = true.
Proof.
  destruct tokens as [|token rest]; [reflexivity|]. cbn [ordered].
  intros Hle H. apply andb_prop in H as [H1 H2]. apply Nat.leb_le in H1.
  rewrite H2, andb_true_r. apply Nat.leb_le. lia.
Qed.

Lemma tokenize_loop_ordered (expression : string) :
  forall fuel position,
    ordered position (tokenize_loop fuel expression position) = true.
Proof.
  induction fuel as [|fuel IH]; intros position; [reflexivity|].
  destruct (tokenize_turn expression position)
    as [Hstop | token new_pos _ _ _ Hpos _ Hnew Hstep | _ Hstep].
  - cbn [tokenize_loop]. rewrite Hstop. cbn. now rewrite Nat.leb_refl.
  - rewrite Hstep. cbn [ordered]. rewrite Hpos, Nat.leb_refl, <- Hnew.
    apply IH.
  - rewrite Hstep. apply (ordered_weaken _ (position + 1)); [lia | apply IH].
Qed.

Lemma drop_beyond (n : nat) (s : string) :
  String.get n s = None -> drop n s = "".
Proof.
  rewrite get_drop. now destruct (drop n s).
Qed.

Lemma all_chars_get (p : ascii -> bool) (s : string) :
  all_chars p s = true ->
  forall n c, String.get n s = Some c -> p c = true.
Proof.
  induction s as [|d s IH]; intros H n c G; [now destruct n|].
  cbn [all_chars] in H. apply andb_prop in H as [Hd Hs].
  destruct n as [|n]; cbn in G.
  - now injection G as <-.
  - now apply (IH Hs n).
Qed.

Lemma all_chars_remove_spaces (s : string) :
  all_chars (fun c => recognised c || Ascii.eqb c " ") s = true ->
  all_chars recognised (remove_spaces s) = true.
Proof.
  induction s as [|c s IH]; [reflexivity|]. cbn [all_chars remove_spaces].
  intros H. apply andb_prop in H as [Hc Hs].
  destruct (Ascii.eqb c " ") eqn:E; [now apply IH|].
  cbn [all_chars]. rewrite orb_false_r in Hc. now rewrite Hc, IH.
Qed.

(** A recognised character is never skipped. *)
Lemma recognised_emits (expression : string) (position : nat) (c : ascii) :
  String.get position expression = Some c ->
  recognised c = true ->
  tokenize_loop 1 expression position <> [].
Proof.
  intros G Hc. cbn [tokenize_loop]. rewrite G. unfold recognised in Hc.
  destruct (isdigit c || Ascii.eqb c ".") eqn:H1.
  { now destruct (_parse_number expression position). }
  cbn [orb] in Hc.
  destruct (isalpha c) eqn:H2.
  { destruct (_parse_identifier expression position) as [identifier new_pos].
    discriminate. }
  cbn [orb] in Hc.
  destruct (char_in c "+-*/^") eqn:H3.
  { match goal with |- context [if ?b then _ else _] => destruct b end;
      discriminate. }
  cbn [orb] in Hc.
  destruct (Ascii.eqb c "("); [discriminate|].
  destruct (Ascii.eqb c ")"); [discriminate|].
  destruct (Ascii.eqb c ","); [discriminate|].
  discriminate.
Qed.

Lemma tokenize_loop_lexemes (expression : string) :
  all_chars recognised expression = true ->
  forall fuel position,
    String.length expression - position < fuel ->
    lexemes (tokenize_loop fuel expression position) = drop position expression.
Proof.
  intros Hall. induction fuel as [|fuel IH]; intros position Hfuel; [lia|].
  destruct (tokenize_turn expression position)
    as [Hstop | token new_pos Hlen Hlt _ Hpos [r Hr] Hnew Hstep | Hlen Hstep].
  - cbn [tokenize_loop]. rewrite Hstop. cbn. now rewrite (drop_beyond _ _ Hstop).
  - rewrite Hstep. cbn [lexemes]. rewrite IH by lia.
    rewrite Hr. f_equal. subst new_pos.
    rewrite <- drop_drop, Hr.
    now rewrite <- (Nat.add_0_r (String.length (value token))), drop_app_length.
  - exfalso.
    destruct (String.get position expression) as [c|] eqn:G.
    + apply (recognised_emits expression position c G
               (all_chars_get _ _ Hall _ _ G)).
      now rewrite (Hstep 0).
    + apply get_None_ge in G. lia.
Qed.

(** The type and the text of every token agree. *)
Lemma tokenize_loop_classified (expression : string) :
  forall fuel position token,
    In token (tokenize_loop fuel expression position) ->
    well_classified token = true.
Proof.
  induction fuel as [|fuel IH]; intros position token Hin; [destruct Hin|].
  cbn [tokenize_loop] in Hin.
  destruct (String.get position expression) as [c|] eqn:G.
  2: { destruct Hin as [<- | []]. reflexivity. }
  destruct (get_Some_drop _ _ _ G) as [r Hr].
  destruct (isdigit c || Ascii.eqb c ".") eqn:H1.
  { unfold _parse_number in Hin. destruct Hin as [<- | Hin]; [|eauto].
    assert (Hx : exists x, number_prefix (String c r) false = String c x).
    { cbn [number_prefix]. destruct (isdigit c); [eexists; reflexivity|].
      cbn [orb] in H1. rewrite H1. cbn [andb negb]. eexists; reflexivity. }
    destruct Hx as [x Hx].
    unfold well_classified. cbn [type value]. rewrite Hr, Hx. exact H1. }
  destruct (isalpha c) eqn:H2.
  { unfold _parse_identifier in Hin. destruct Hin as [<- | Hin]; [|eauto].
    rewrite Hr. cbn [identifier_prefix]. unfold isalnum. rewrite H2. cbn [orb].
    set (identifier := String c (identifier_prefix r)).
    unfold well_classified.
    destruct (mem identifier functions) eqn:Hf; cbn [type value].
    { exact Hf. }
    destruct (mem identifier constants) eqn:Hc; cbn [type value];
      rewrite Hf, ?Hc; [reflexivity|]. cbn. exact H2. }
  destruct (char_in c "+-*/^") eqn:H3.
  { destruct (Ascii.eqb c "*" &&
              match String.get (position + 1) expression with
              | Some c0 => Ascii.eqb c0 "*"
              | None => false
              end).
    - destruct Hin as [<- | Hin]; [reflexivity | eauto].
    - destruct Hin as [<- | Hin]; [|eauto].
      unfold well_classified. cbn [type value].
      cbn [char_in] in H3.
      repeat match type of H3 with
             | (Ascii.eqb c ?k || _) = true =>
                 destruct (Ascii.eqb_spec c k) as [-> | _];
                 [reflexivity | cbn [orb] in H3]
             end.
      discriminate. }
  destruct (Ascii.eqb_spec c "(") as [-> | _].
  { destruct Hin as [<- | Hin]; [reflexivity | eauto]. }
  destruct (Ascii.eqb_spec c ")") as [-> | _].
  { destruct Hin as [<- | Hin]; [reflexivity | eauto]. }
  destruct (Ascii.eqb_spec c ",") as [-> | _].
  { destruct Hin as [<- | Hin]; [reflexivity | eauto]. }
  eauto.
Qed.

End TokenizerFacts2.

Import PyStr PyStrFacts Parser PyNum Evaluator Vocabulary Vocabulary2.
Import TokenizerFacts ConverterFacts EvaluatorFacts InfixFacts ValidatorFacts.
Import TokenizerFacts2.

(** X1: the tokens of an expression end with one [EOF] token, whose position
    is the length of the expression without its spaces; no other token is
    [EOF]. *)
Theorem tokenize_ends_with_one_EOF (expression : string) :
  exists body,
    tokenize expression
    = body ++ [mkToken EOF "" (String.length (remove_spaces expression))]
    /\ Forall (fun token => type token <> EOF) body.
Proof.
  unfold tokenize.
  destruct (tokenize_loop_ends_with_EOF (remove_spaces expression)
              (S (String.length (remove_spaces expression))) 0)
    as [body [H1 H2]]; [lia|].
  exists body. split; [|exact H2]. now rewrite H1.
Qed.

(** X2: the tokens are in the order of the text and do not overlap: each
    starts at or after the end of the one before it. *)
Theorem tokens_do_not_overlap (expression : string) :
  ordered 0 (tokenize expression) = true.
Proof. apply tokenize_loop_ordered. Qed.

(** X3: when every character of the expression is a space or a character
    the tokenizer recognises, the texts of the tokens, put end to end, are
    the expression without its spaces: nothing is lost. *)
Theorem lexemes_of_recognised_text (expression : string) :
  all_chars (fun c => recognised c || Ascii.eqb c " ") expression = true ->
  lexemes (tokenize expression) = remove_spaces expression.
Proof.
  intros H. unfold tokenize.
  rewrite (tokenize_loop_lexemes _ (all_chars_remove_spaces _ H)) by lia.
  reflexivity.
Qed.

Lemma lexemes_of_recognised_text_witness :
  lexemes (tokenize "sin(x1) + 2.5e-3 ** y") = "sin(x1)+2.5e-3**y".
Proof.
  apply (lexemes_of_recognised_text "sin(x1) + 2.5e-3 ** y"). reflexivity.
Defined.

(** X4: the type of every token agrees with its text; in particular the
    text of an [OPERATOR] token is a key of the operator tables of the
    parser and of the evaluator, and the text of a [CONSTANT] token is a key
    of the constants of the evaluator, so that a tokenized expression never
    meets an unknown operator or an unknown constant. *)
Theorem tokens_are_well_classified (R : Runtime) (expression : string)
  (token : Token) :
  In token (tokenize expression) ->
  well_classified token = true
  /\ (type token = OPERATOR ->
      exists d op,
        lookup (value token) Parser.operators = Some d
        /\ lookup (value token) (Evaluator.operators R) = Some op)
  /\ (type token = CONSTANT ->
      exists v, lookup (value token) Evaluator.constants = Some v).
Proof.
  intros Hin. unfold tokenize in Hin.
  pose proof (tokenize_loop_classified _ _ _ _ Hin) as Hc.
  split; [exact Hc|]. unfold well_classified in Hc. split; intros Ht;
    rewrite Ht in Hc; cbv iota in Hc.
  - revert Hc. unfold mem. cbn [existsb].
    repeat match goal with
           | |- context [String.eqb ?x ?k] =>
               destruct (String.eqb_spec x k) as [-> | _];
               [intros _; do 2 eexists; split; reflexivity|]
           end.
    intros Hc. vm_compute in Hc. discriminate Hc.
  - apply andb_prop in Hc as [_ Hc]. revert Hc.
    unfold mem, Parser.constants. cbn [existsb].
    repeat match goal with
           | |- context [String.eqb ?x ?k] =>
               destruct (String.eqb_spec x k) as [-> | _];
               [intros _; eexists; reflexivity|]
           end.
    intros Hc. vm_compute in Hc. discriminate Hc.
Qed.

Lemma tokens_are_well_classified_witness :
  well_classified (mkToken OPERATOR "**" 1) = true.
Proof.
  apply (tokens_are_well_classified integer_runtime "2**pi"
           (mkToken OPERATOR "**" 1)).
  vm_compute. right; left; reflexivity.
Defined.
(** The letters and the digits are those of [str.isalpha] and
    [str.isdigit]: the superscript two (U+00B2) begins a number, and the
    letter e with an acute accent (U+00E9) belongs to an identifier. *)
Lemma tokens_of_accented_text :
  tokenize (String (ascii_of_nat 178) (String "x" (String (ascii_of_nat 233) "")))
  = [ mkToken NUMBER (String (ascii_of_nat 178) "") 0;
      mkToken VARIABLE (String "x" (String (ascii_of_nat 233) "")) 1;
      mkToken EOF "" 3 ].
Proof. reflexivity. Qed.

(** ** The validator *)

Module ValidatorFacts2.
Import PyStr Parser Vocabulary Vocabulary2 ConverterFacts ValidatorFacts.

Lemma last_token_cons (token : Token) (rest : list Token) :
  last_token (token :: rest)
  = match last_token rest with
    | Some t => Some t
    | None => Some token
    end.
Proof.
  revert token. induction rest as [|t rest IH]; intros token; [reflexivity|].
  change (last_token (token :: t :: rest)) with (last_token (t :: rest)).
  rewrite (IH t). now destruct (last_token rest).
Qed.

(** The rules read token by token. *)
Lemma rules_hold_from_cons (count : nat) (prev_token : option Token)
  (token : Token) (rest : list Token) :
  rules_hold_from count prev_token (token :: rest)
  = if has_type LEFT_PAREN token then rules_hold_from (S count) (Some token) rest
    else if has_type RIGHT_PAREN token then
      match count with
      | O => false
      | S count' => rules_hold_from count' (Some token) rest
      end
    else
      negb (is_operator prev_token && has_type OPERATOR token)
      && (negb (has_type FUNCTION token) || may_precede_function prev_token)
      && rules_hold_from count (Some token) rest.
Proof.
  unfold rules_hold_from.
  rewrite last_token_cons.
  change (no_consecutive_operators (token :: rest))
    with (match rest with
          | first :: _ =>
              negb (is_operator (Some token) && has_type OPERATOR first)
          | [] => true
          end && no_consecutive_operators rest).
  change (functions_well_placed prev_token (token :: rest))
    with ((negb (has_type FUNCTION token) || may_precede_function prev_token)
          && functions_well_placed (Some token) rest).
  change (parens_balanced (token :: rest) count)
    with (if has_type LEFT_PAREN token then parens_balanced rest (S count)
          else if has_type RIGHT_PAREN token then
            match count with
            | O => false
            | S count' => parens_balanced rest count'
            end
          else parens_balanced rest count).
  generalize (match rest with
              | first :: _ =>
                  negb (is_operator (Some token) && has_type OPERATOR first)
              | [] => true
              end) as adjacent.
  generalize (no_consecutive_operators rest) as ncs.
  generalize (functions_well_placed (Some token) rest) as fwp.
  generalize (may_precede_function prev_token) as mpf.
  generalize (is_operator prev_token) as pop.
  generalize (last_token rest) as lt.
  cbn [is_operator]. unfold has_type.
  intros lt pop mpf fwp ncs adjacent.
  destruct lt as [t|]; cbv iota;
    destruct (type token); cbn [TokenType_eqb andb orb negb];
    try (destruct count as [|count']);
    repeat match goal with
           | |- context [parens_balanced rest ?c] =>
               destruct (parens_balanced rest c)
           end;
    destruct pop, mpf, fwp, ncs, adjacent;
    cbn [andb orb negb TokenType_eqb];
    try reflexivity;
    repeat match goal with
           | |- context [TokenType_eqb ?a ?b] => destruct (TokenType_eqb a b)
           end; reflexivity.
Qed.

Lemma validate_end_rules (count : nat) (prev_token : option Token) :
  fst (validate_end (Z.of_nat count) prev_token)
  = rules_hold_from count prev_token [].
Proof.
  unfold validate_end, rules_hold_from, is_operator, has_type.
  change (last_token []) with (@None Token).
  cbn [parens_balanced no_consecutive_operators functions_well_placed andb].
  destruct count as [|count].
  - change (Z.of_nat 0 =? 0)%Z with true. cbn [negb Nat.eqb andb].
    destruct prev_token as [prev|]; [|reflexivity].
    now destruct (TokenType_eqb (type prev) OPERATOR).
  - destruct (Z.eqb_spec (Z.of_nat (S count)) 0); [lia | reflexivity].
Qed.

(** The validator accepts what satisfies the rules. *)
Lemma validate_loop_rules (tokens : list Token) :
  forall count prev_token,
    fst (validate_loop tokens (Z.of_nat count) prev_token)
    = rules_hold_from count prev_token (before_eof tokens).
Proof.
  induction tokens as [|token rest IH]; intros count prev.
  - apply validate_end_rules.
  - cbn [validate_loop before_eof].
    destruct (TokenType_eqb (type token) EOF) eqn:He.
    { apply validate_end_rules. }
    rewrite rules_hold_from_cons.
    unfold prev_has_type, is_operator, may_precede_function, has_type.
    destruct (type token) eqn:Ht; cbn [TokenType_eqb andb orb negb existsb];
      rewrite ?andb_false_r; cbn [andb orb negb];
      try (rewrite <- IH; reflexivity);
      try (replace (Z.of_nat count + 1)%Z with (Z.of_nat (S count)) by lia;
           rewrite <- IH; reflexivity).
    + (* OPERATOR *)
      destruct prev as [prev|]; cbn [negb andb].
      * destruct (TokenType_eqb (type prev) OPERATOR); cbn [negb andb fst];
          [reflexivity | apply IH].
      * apply IH.
    + (* FUNCTION *)
      destruct prev as [prev|]; cbn [negb andb orb].
      * rewrite orb_false_r.
        destruct (TokenType_eqb (type prev) OPERATOR);
          destruct (TokenType_eqb (type prev) LEFT_PAREN);
          destruct (TokenType_eqb (type prev) COMMA);
          cbn [negb andb orb fst]; try apply IH; reflexivity.
      * apply IH.
    + (* RIGHT_PAREN *)
      destruct count as [|count'].
      * reflexivity.
      * replace (Z.of_nat (S count') - 1)%Z with (Z.of_nat count') by lia.
        destruct (Z.ltb_spec (Z.of_nat count') 0); [lia|]. apply IH.
Qed.

End ValidatorFacts2.

Import PyStr PyStrFacts Parser PyNum Evaluator Vocabulary Vocabulary2.
Import ValidatorFacts2.

(** X5: the validator accepts a sequence exactly when none of the five
    rules fails on it: the order of its checks decides which rule it
    reports, not whether it accepts. *)
Theorem validator_accepts_what_the_rules_allow (tokens : list Token) :
  fst (validate_syntax tokens) = true <-> first_failing_rule tokens = None.
Proof.
  unfold first_failing_rule, validate_syntax.
  destruct tokens as [|first rest]; [cbn; split; discriminate|].
  cbn [before_eof].
  destruct (TokenType_eqb (type first) EOF) eqn:He;
    [cbn; split; discriminate|].
  pose proof (validate_loop_rules (first :: rest) 0 None) as H.
  cbn [before_eof] in H. rewrite He in H.
  change (Z.of_nat 0) with 0%Z in H. rewrite H. clear H.
  unfold rules_hold_from, ends_with_operator. cbn [is_operator andb negb].
  destruct (parens_balanced (first :: before_eof rest) 0);
    destruct (no_consecutive_operators (first :: before_eof rest));
    destruct (functions_well_placed None (first :: before_eof rest));
    destruct (last_token (first :: before_eof rest)) as [t|];
    cbn [andb negb]; try (split; [discriminate | discriminate]);
    try (destruct (has_type OPERATOR t)); cbn; split; congruence.
Qed.

(** ** The converter *)

Module ConverterFacts2.
Import PyStr Parser Vocabulary Vocabulary2 ConverterFacts.

Lemma stackable_no_value (stack : list Token) :
  Forall (fun t => is_stackable t = true) stack -> filter is_value stack = [].
Proof.
  induction 1 as [|x l Hx _ IH]; [reflexivity|]. cbn [filter].
  unfold is_stackable, is_value, has_type in *.
  destruct (type x); cbn in *; try discriminate; exact IH.
Qed.

(** The converter keeps the value tokens in the order it reads them. *)
Lemma postfix_loop_values (tokens : list Token) :
  forall output stack,
    Forall (fun t => is_stackable t = true) stack ->
    filter is_value (postfix_loop tokens output stack)
    = filter is_value output ++ filter is_value (before_eof tokens).
Proof.
  induction tokens as [|token rest IH]; intros output stack Hst.
  - cbn [postfix_loop before_eof filter].
    now rewrite filter_app, (stackable_no_value stack Hst).
  - cbn [postfix_loop before_eof].
    assert (Hv : forall l, filter is_value (token :: l)
                 = if is_value token then token :: filter is_value l
                   else filter is_value l) by reflexivity.
    assert (Hstk : is_stackable token = true ->
                   forall l, Forall (fun t => is_stackable t = true) l ->
                   Forall (fun t => is_stackable t = true) (token :: l))
      by (intros; now constructor).
    unfold is_value at 2 in Hv. unfold is_stackable at 1 in Hstk.
    unfold has_type in Hv, Hstk.
    destruct (type token) eqn:Ht; cbn [TokenType_eqb orb] in *.
    + assert (His : is_value token = true)
        by (unfold is_value, has_type; now rewrite Ht).
      rewrite (IH _ _ Hst), filter_app, Hv. cbn [filter]. rewrite His.
      now rewrite <- List.app_assoc.
    + assert (His : is_value token = true)
        by (unfold is_value, has_type; now rewrite Ht).
      rewrite (IH _ _ Hst), filter_app, Hv. cbn [filter]. rewrite His.
      now rewrite <- List.app_assoc.
    + destruct (pop_higher_precedence_spec token stack output)
        as (popped & below & -> & -> & Hpop).
      destruct (operators_stackable popped Hpop) as [Hps _].
      apply Forall_app in Hst as [_ Hbelow].
      rewrite (IH _ _ (Hstk eq_refl below Hbelow)), filter_app, Hv.
      now rewrite (stackable_no_value popped Hps), List.app_nil_r.
    + now rewrite (IH _ _ (Hstk eq_refl stack Hst)), Hv.
    + now rewrite (IH _ _ (Hstk eq_refl stack Hst)), Hv.
    + destruct (pop_until_left_paren_spec stack output)
        as (popped & below & -> & -> & _ & _).
      apply Forall_app in Hst as [Hps Hbelow].
      rewrite Hv.
      assert (Htl : Forall (fun t => is_stackable t = true) (List.tl below))
        by (destruct below; [constructor | now inversion Hbelow]).
      destruct (List.tl below) as [|top below'] eqn:E.
      * rewrite (IH _ _ Htl), filter_app.
        now rewrite (stackable_no_value popped Hps), List.app_nil_r.
      * inversion Htl as [|? ? Htop Hbelow']; subst.
        destruct (TokenType_eqb (type top) FUNCTION).
        -- rewrite (IH _ _ Hbelow'), !filter_app.
           rewrite (stackable_no_value popped Hps).
           rewrite (stackable_no_value [top]) by (now constructor).
           now rewrite !List.app_nil_r.
        -- rewrite (IH _ _ Htl), filter_app.
           now rewrite (stackable_no_value popped Hps), List.app_nil_r.
    + destruct (pop_until_left_paren_spec stack output)
        as (popped & below & -> & -> & _ & _).
      apply Forall_app in Hst as [Hps Hbelow].
      rewrite (IH _ _ Hbelow), filter_app, Hv.
      now rewrite (stackable_no_value popped Hps), List.app_nil_r.
    + assert (His : is_value token = true)
        by (unfold is_value, has_type; now rewrite Ht).
      rewrite (IH _ _ Hst), filter_app, Hv. cbn [filter]. rewrite His.
      now rewrite <- List.app_assoc.
    + cbn [filter]. rewrite filter_app, (stackable_no_value stack Hst).
      reflexivity.
Qed.

End ConverterFacts2.

Import ConverterFacts2.

(** X6: whatever the tokens, accepted by the validator or not, the postfix
    sequence holds the value tokens read, in the order in which they were
    read. *)
Theorem operands_keep_their_order (tokens : list Token) :
  filter is_value (parse_to_postfix tokens)
  = filter is_value (before_eof tokens).
Proof. apply (postfix_loop_values tokens [] []). constructor. Qed.

(** ** Grouping of two operators *)

Module InfixFacts2.
Import PyStr PyStrFacts Parser PyNum Evaluator Vocabulary Vocabulary2.
Import TokenizerFacts EvaluatorFacts InfixFacts.

Lemma tokenize_infix_left_parenthesized (a b c op1 op2 : string)
  (d1 d2 : descriptor) :
  numeric_literal a = true ->
  numeric_literal b = true ->
  numeric_literal c = true ->
  lookup op1 Parser.operators = Some d1 ->
  lookup op2 Parser.operators = Some d2 ->
  exists p1 p2 p3 p4 p5 p6 p7,
    tokenize ("(" ++ a ++ op1 ++ b ++ ")" ++ op2 ++ c)
    = [ mkToken LEFT_PAREN "(" 0; mkToken NUMBER a p1; mkToken OPERATOR op1 p2;
        mkToken NUMBER b p3; mkToken RIGHT_PAREN ")" p4;
        mkToken OPERATOR op2 p5; mkToken NUMBER c p6; mkToken EOF "" p7 ].
Proof.
  intros Ha Hb Hc H1 H2. unfold tokenize.
  rewrite !remove_spaces_app.
  rewrite (numeric_literal_no_space a Ha), (numeric_literal_no_space b Hb),
    (numeric_literal_no_space c Hc), (operator_no_space op1 d1 H1),
    (operator_no_space op2 d2 H2).
  change (remove_spaces "(") with "(". change (remove_spaces ")") with ")".
  replace ("(" ++ a ++ op1 ++ b ++ ")" ++ op2 ++ c)%string
    with ("(" ++ a ++ op1 ++ b ++ ")" ++ op2 ++ c ++ "")%string
    by now rewrite app_empty_r.
  set (s := ("(" ++ a ++ op1 ++ b ++ ")" ++ op2 ++ c ++ "")%string).
  rewrite (tokenize_loop_fuel s (S (String.length s))
             (S (S (S (S (S (S (S (S (String.length s))))))))) 0) by lia.
  subst s.
  rewrite tokenize_loop_left_paren.
  destruct (tokenize_loop_binary a b op1 (")" ++ op2 ++ c ++ "") d1
              (S (S (S (S (String.length
                             ("(" ++ a ++ op1 ++ b ++ ")" ++ op2 ++ c ++ ""))))))
              Ha Hb H1 eq_refl)
    as (q1 & q2 & tail & -> & -> & _).
  rewrite tokenize_loop_right_paren.
  rewrite (tokenize_loop_operator op2 _ d2 _ H2 (numeric_literal_not_star c _ Hc)).
  rewrite (tokenize_loop_literal c "" _ Hc eq_refl).
  rewrite tokenize_loop_end.
  cbn [map shift type value position].
  do 7 eexists. reflexivity.
Qed.

Lemma postfix_infix_pops (a b c op1 op2 : string) (p0 p1 p2 p3 p4 p5 : nat) :
  _has_higher_precedence (mkToken OPERATOR op1 p1) (mkToken OPERATOR op2 p3)
  = true ->
  parse_to_postfix
    [ mkToken NUMBER a p0; mkToken OPERATOR op1 p1; mkToken NUMBER b p2;
      mkToken OPERATOR op2 p3; mkToken NUMBER c p4; mkToken EOF "" p5 ]
  = [ mkToken NUMBER a p0; mkToken NUMBER b p2; mkToken OPERATOR op1 p1;
      mkToken NUMBER c p4; mkToken OPERATOR op2 p3 ].
Proof.
  intros H. unfold parse_to_postfix.
  cbn [postfix_loop type pop_higher_precedence app TokenType_eqb andb].
  rewrite H. reflexivity.
Qed.

Lemma postfix_infix_keeps (a b c op1 op2 : string) (p0 p1 p2 p3 p4 p5 : nat) :
  _has_higher_precedence (mkToken OPERATOR op1 p1) (mkToken OPERATOR op2 p3)
  = false ->
  parse_to_postfix
    [ mkToken NUMBER a p0; mkToken OPERATOR op1 p1; mkToken NUMBER b p2;
      mkToken OPERATOR op2 p3; mkToken NUMBER c p4; mkToken EOF "" p5 ]
  = [ mkToken NUMBER a p0; mkToken NUMBER b p2; mkToken NUMBER c p4;
      mkToken OPERATOR op2 p3; mkToken OPERATOR op1 p1 ].
Proof.
  intros H. unfold parse_to_postfix.
  cbn [postfix_loop type pop_higher_precedence app TokenType_eqb andb].
  rewrite H. reflexivity.
Qed.

Lemma postfix_infix_left_parenthesized (a b c op1 op2 : string)
  (p0 p1 p2 p3 p4 p5 p6 p7 : nat) :
  parse_to_postfix
    [ mkToken LEFT_PAREN "(" p0; mkToken NUMBER a p1; mkToken OPERATOR op1 p2;
      mkToken NUMBER b p3; mkToken RIGHT_PAREN ")" p4;
      mkToken OPERATOR op2 p5; mkToken NUMBER c p6; mkToken EOF "" p7 ]
  = [ mkToken NUMBER a p1; mkToken NUMBER b p3; mkToken OPERATOR op1 p2;
      mkToken NUMBER c p6; mkToken OPERATOR op2 p5 ].
Proof. reflexivity. Qed.

(** When does the operator on the stack leave it for the incoming one. *)
Lemma has_higher_precedence_spec (t1 t2 : Token) (d1 d2 : descriptor) :
  lookup (value t1) Parser.operators = Some d1 ->
  lookup (value t2) Parser.operators = Some d2 ->
  _has_higher_precedence t1 t2
  = (precedence d2 <? precedence d1)%nat
    || ((precedence d1 =? precedence d2)%nat
        && match assoc d2 with left => true | right => false end).
Proof.
  intros H1 H2. unfold _has_higher_precedence. now rewrite H1, H2.
Qed.

End InfixFacts2.

Import InfixFacts2.

(** X7: for numeric literals [a], [b], [c], when [op1] has a higher
    precedence than [op2], or the same precedence and [op2] associates to
    the left, [a op1 b op2 c] evaluates as [(a op1 b) op2 c] does. *)
Theorem grouping_to_the_left (R : Runtime) (variables : list (string * number))
  (a b c op1 op2 : string) (d1 d2 : descriptor) :
  numeric_literal a = true ->
  numeric_literal b = true ->
  numeric_literal c = true ->
  lookup op1 Parser.operators = Some d1 ->
  lookup op2 Parser.operators = Some d2 ->
  precedence d2 < precedence d1
  \/ (precedence d1 = precedence d2 /\ assoc d2 = left) ->
  outcome (evaluate_expression R (a ++ op1 ++ b ++ op2 ++ c) variables)
  = outcome (evaluate_expression R ("(" ++ a ++ op1 ++ b ++ ")" ++ op2 ++ c)
               variables).
Proof.
  intros Ha Hb Hc H1 H2 Hprec.
  destruct (tokenize_infix a b c op1 op2 d1 d2 Ha Hb Hc H1 H2)
    as (p1 & p2 & p3 & p4 & p5 & Ht).
  destruct (tokenize_infix_left_parenthesized a b c op1 op2 d1 d2 Ha Hb Hc H1 H2)
    as (q1 & q2 & q3 & q4 & q5 & q6 & q7 & Hq).
  unfold evaluate_expression, parse_expression. rewrite Ht, Hq.
  change (validate_syntax _) with (true, "") at 1.
  change (validate_syntax _) with (true, "") at 1.
  cbn [negb].
  rewrite (postfix_infix_pops a b c op1 op2).
  2: { rewrite (has_higher_precedence_spec (mkToken OPERATOR op1 p1)
                  (mkToken OPERATOR op2 p3) d1 d2 H1 H2).
       destruct Hprec as [Hlt | [Heq Hleft]].
       - apply Nat.ltb_lt in Hlt. now rewrite Hlt.
       - rewrite Heq, Nat.eqb_refl, Hleft. apply orb_true_r. }
  rewrite postfix_infix_left_parenthesized.
  rewrite (evaluate_postfix_erase R variables
             [ mkToken NUMBER a q1; mkToken NUMBER b q3; mkToken OPERATOR op1 q2;
               mkToken NUMBER c q6; mkToken OPERATOR op2 q5 ]
             [ mkToken NUMBER a 0; mkToken NUMBER b p2; mkToken OPERATOR op1 p1;
               mkToken NUMBER c p4; mkToken OPERATOR op2 p3 ] eq_refl).
  now destruct (evaluate_postfix R _ variables).
Qed.

Lemma grouping_to_the_left_witness :
  outcome (evaluate_expression integer_runtime "8-3-2" [])
  = outcome (evaluate_expression integer_runtime "(8-3)-2" []).
Proof.
  apply (grouping_to_the_left integer_runtime [] "8" "3" "2" "-" "-"
           (mkDescriptor 1 left) (mkDescriptor 1 left));
    try reflexivity.
  right. split; reflexivity.
Defined.

(** X8: for numeric literals [a], [b], [c], when [op1] and [op2] have the
    same precedence and [op2] associates to the right (both are [^] or
    [**]), [a op1 b op2 c] evaluates as [a op1 (b op2 c)] does. *)
Theorem grouping_to_the_right (R : Runtime) (variables : list (string * number))
  (a b c op1 op2 : string) (d1 d2 : descriptor) :
  numeric_literal a = true ->
  numeric_literal b = true ->
  numeric_literal c = true ->
  lookup op1 Parser.operators = Some d1 ->
  lookup op2 Parser.operators = Some d2 ->
  precedence d1 = precedence d2 ->
  assoc d2 = right ->
  outcome (evaluate_expression R (a ++ op1 ++ b ++ op2 ++ c) variables)
  = outcome (evaluate_expression R (a ++ op1 ++ "(" ++ b ++ op2 ++ c ++ ")")
               variables).
Proof.
  intros Ha Hb Hc H1 H2 Heq Hright.
  destruct (tokenize_infix a b c op1 op2 d1 d2 Ha Hb Hc H1 H2)
    as (p1 & p2 & p3 & p4 & p5 & Ht).
  destruct (tokenize_infix_parenthesized a b c op1 op2 d1 d2 Ha Hb Hc H1 H2)
    as (q1 & q2 & q3 & q4 & q5 & q6 & q7 & Hq).
  unfold evaluate_expression, parse_expression. rewrite Ht, Hq.
  change (validate_syntax _) with (true, "") at 1.
  change (validate_syntax _) with (true, "") at 1.
  cbn [negb].
  rewrite (postfix_infix_keeps a b c op1 op2).
  2: { rewrite (has_higher_precedence_spec (mkToken OPERATOR op1 p1)
                  (mkToken OPERATOR op2 p3) d1 d2 H1 H2).
       rewrite Heq, Nat.ltb_irrefl, Hright. apply andb_false_r. }
  rewrite postfix_infix_parenthesized.
  rewrite (evaluate_postfix_erase R variables
             [ mkToken NUMBER a 0; mkToken NUMBER b q3; mkToken NUMBER c q5;
               mkToken OPERATOR op2 q4; mkToken OPERATOR op1 q1 ]
             [ mkToken NUMBER a 0; mkToken NUMBER b p2; mkToken NUMBER c p4;
               mkToken OPERATOR op2 p3; mkToken OPERATOR op1 p1 ] eq_refl).
  now destruct (evaluate_postfix R _ variables).
Qed.

Lemma grouping_to_the_right_witness :
  outcome (evaluate_expression integer_runtime "2^3**2" [])
  = outcome (evaluate_expression integer_runtime "2^(3**2)" []).
Proof.
  apply (grouping_to_the_right integer_runtime [] "2" "3" "2" "^" "**"
           (mkDescriptor 3 right) (mkDescriptor 3 right));
    reflexivity.
Defined.

(** ** The evaluator on tokenized expressions *)

Module EvaluatorFacts2.
Import PyStr PyStrFacts Parser PyNum Evaluator Vocabulary Vocabulary2.
Import TokenizerFacts TokenizerFacts2 ConverterFacts ConverterFacts2 EvaluatorFacts.
Local Open Scope py_scope.


Lemma before_eof_body (body : list Token) (rest : list Token) (eof : Token) :
  Forall (fun token => type token <> EOF) body ->
  type eof = EOF ->
  before_eof (body ++ eof :: rest) = body.
Proof.
  intros Hbody He. induction Hbody as [|x l Hx _ IH]; cbn [app before_eof].
  - now rewrite He.
  - destruct (TokenType_eqb (type x) EOF) eqn:E.
    + apply ConverterFacts.TokenType_eqb_eq in E. contradiction.
    + now rewrite IH.
Qed.

(** The tokens of an expression that the validator and the converter read. *)
Lemma before_eof_tokenize (expression : string) :
  exists eof,
    type eof = EOF
    /\ tokenize expression = before_eof (tokenize expression) ++ [eof].
Proof.
  unfold tokenize.
  destruct (tokenize_loop_ends_with_EOF (remove_spaces expression)
              (S (String.length (remove_spaces expression))) 0)
    as [body [H1 H2]]; [lia|].
  rewrite H1.
  exists (mkToken EOF "" (Nat.max 0 (String.length (remove_spaces expression)))).
  split; [reflexivity|].
  now rewrite before_eof_body by (assumption || reflexivity).
Qed.

Lemma in_before_eof_tokenize (expression : string) (token : Token) :
  In token (tokenize expression) ->
  type token <> EOF ->
  In token (before_eof (tokenize expression)).
Proof.
  intros Hin Hne. destruct (before_eof_tokenize expression) as (eof & He & Ht).
  rewrite Ht in Hin. apply in_app_or in Hin as [Hin | [<- | []]];
    [assumption | contradiction].
Qed.

(** On an accepted expression the tokens of the postfix sequence are the
    value, operator and function tokens of the expression. *)
Lemma in_postfix_of_tokenize (expression : string) (token : Token) :
  fst (validate_syntax (tokenize expression)) = true ->
  (In token (parse_to_postfix (tokenize expression))
   <-> In token (tokenize expression) /\ is_emitted token = true).
Proof.
  intros Hv. pose proof (parse_to_postfix_accepted _ Hv) as Hp. split.
  - intros Hin. apply (Permutation_in _ Hp) in Hin.
    apply filter_In in Hin as [Hin Hem]. split; [|exact Hem].
    destruct (before_eof_tokenize expression) as (eof & _ & Ht).
    rewrite Ht. apply in_or_app. now left.
  - intros [Hin Hem]. apply (Permutation_in _ (Permutation_sym Hp)).
    apply filter_In. split; [|exact Hem].
    apply in_before_eof_tokenize; [exact Hin|].
    intros E. unfold is_emitted, is_value, has_type in Hem. rewrite E in Hem.
    discriminate.
Qed.

Section WithRuntime.
Variable R : Runtime.
Variable variables : list (string * number).

(** A token that raises on every stack makes the evaluation fail. *)
Lemma evaluate_postfix_with_raising_token (postfix : list Token)
  (token : Token) :
  In token postfix ->
  (forall stack, exists e, evaluate_token R variables token stack = inl e) ->
  exists e, evaluate_postfix R postfix variables = inl e.
Proof.
  intros Hin Hraise. apply in_split in Hin as (pre & post & ->).
  destruct (evaluate_loop R variables pre []) as [e|stack] eqn:Hpre.
  - exists e. unfold evaluate_postfix. now rewrite evaluate_loop_app, Hpre.
  - destruct (Hraise stack) as [e He]. exists e.
    now apply (evaluate_postfix_raise R variables pre post token stack e).
Qed.

Lemma evaluate_expression_with_raising_token (expression : string)
  (token : Token) :
  In token (tokenize expression) ->
  is_emitted token = true ->
  (forall stack, exists e, evaluate_token R variables token stack = inl e) ->
  exists message,
    evaluate_expression R expression variables = EvalFailure message expression.
Proof.
  intros Hin Hem Hraise. unfold evaluate_expression, parse_expression.
  destruct (validate_syntax (tokenize expression)) as [is_valid error] eqn:Hv.
  destruct is_valid; cbn [negb]; [|now exists error].
  assert (Hacc : fst (validate_syntax (tokenize expression)) = true)
    by now rewrite Hv.
  destruct (evaluate_postfix_with_raising_token
              (parse_to_postfix (tokenize expression)) token) as [e He].
  - apply in_postfix_of_tokenize; auto.
  - exact Hraise.
  - rewrite He. now exists (str_exn e).
Qed.



End WithRuntime.

(** A binding that no [VARIABLE] token names changes nothing. *)
Lemma evaluate_loop_unused_binding (R : Runtime)
  (variables : list (string * number)) (name : string) (v : number)
  (postfix : list Token) :
  Forall (fun token => type token = VARIABLE -> value token <> name) postfix ->
  forall stack,
    evaluate_loop R ((name, v) :: variables) postfix stack
    = evaluate_loop R variables postfix stack.
Proof.
  induction 1 as [|token rest Htok _ IH]; intros stack; [reflexivity|].
  cbn [evaluate_loop].
  assert (Hstep : evaluate_token R ((name, v) :: variables) token stack
                  = evaluate_token R variables token stack).
  { unfold evaluate_token. destruct (type token) eqn:Ht; try reflexivity.
    cbn [lookup].
    destruct (String.eqb_spec (value token) name) as [E|]; [|reflexivity].
    now elim (Htok eq_refl). }
  rewrite Hstep.
  destruct (evaluate_token R variables token stack); cbn [bind]; auto.
Qed.

End EvaluatorFacts2.

Import PyStr PyStrFacts Parser PyNum Evaluator Vocabulary Vocabulary2.
Import EvaluatorFacts2.

(** X9: an expression that names a variable without a value never
    evaluates: [evaluate_expression] returns a failure, whatever else the
    expression holds. *)
Theorem unbound_variable_fails (R : Runtime)
  (variables : list (string * number)) (expression : string) (token : Token) :
  In token (tokenize expression) ->
  type token = VARIABLE ->
  lookup (value token) variables = None ->
  exists message,
    evaluate_expression R expression variables = EvalFailure message expression.
Proof.
  intros Hin Ht Hl.
  apply (evaluate_expression_with_raising_token R variables expression token Hin).
  - unfold is_emitted, is_value, has_type. now rewrite Ht.
  - intros stack. unfold evaluate_token. rewrite Ht, Hl. eexists. reflexivity.
Qed.

Lemma unbound_variable_fails_witness :
  exists message,
    evaluate_expression integer_runtime "2*x + y" [("x", PyInt 3)]
    = EvalFailure message "2*x + y".
Proof.
  apply (unbound_variable_fails integer_runtime [("x", PyInt 3)] "2*x + y"
           (mkToken VARIABLE "y" 4)).
  - vm_compute. do 4 right. left. reflexivity.
  - reflexivity.
  - reflexivity.
Defined.

(** X10: [derivative], [integral], [diff] and [int] are functions for the
    parser and unknown to the evaluator: an expression that uses one of them
    never evaluates. *)
Theorem parser_only_function_fails (R : Runtime)
  (variables : list (string * number)) (expression : string) (token : Token) :
  In token (tokenize expression) ->
  type token = FUNCTION ->
  In (value token) ["derivative"; "integral"; "diff"; "int"] ->
  exists message,
    evaluate_expression R expression variables = EvalFailure message expression.
Proof.
  intros Hin Ht Hname.
  apply (evaluate_expression_with_raising_token R variables expression token Hin).
  - unfold is_emitted, is_value, has_type. rewrite Ht. reflexivity.
  - intros stack. unfold evaluate_token. rewrite Ht.
    destruct Hname as [<- | [<- | [<- | [<- | []]]]]; eexists; reflexivity.
Qed.

Lemma parser_only_function_fails_witness :
  exists message,
    evaluate_expression integer_runtime "integral(2*x + 5)" [("x", PyInt 1)]
    = EvalFailure message "integral(2*x + 5)".
Proof.
  apply (parser_only_function_fails integer_runtime [("x", PyInt 1)]
           "integral(2*x + 5)" (mkToken FUNCTION "integral" 0)).
  - vm_compute. left. reflexivity.
  - reflexivity.
  - right. left. reflexivity.
Defined.



Module EvaluatorFacts3.
Import PyStr PyStrFacts Parser PyNum Evaluator Vocabulary Vocabulary2.
Import TokenizerFacts TokenizerFacts2 ConverterFacts EvaluatorFacts EvaluatorFacts2.

(** A binding that no [VARIABLE] token of the expression names changes
    nothing. *)
Lemma evaluate_expression_unused_binding (R : Runtime)
  (variables : list (string * number)) (name : string) (v : number)
  (expression : string) :
  (forall token,
     In token (tokenize expression) -> type token = VARIABLE ->
     value token <> name) ->
  evaluate_expression R expression ((name, v) :: variables)
  = evaluate_expression R expression variables.
Proof.
  intros Hfree. unfold evaluate_expression, parse_expression.
  destruct (validate_syntax (tokenize expression)) as [is_valid error] eqn:Hv.
  destruct is_valid; cbn [negb]; [|reflexivity].
  assert (Hacc : fst (validate_syntax (tokenize expression)) = true)
    by now rewrite Hv.
  unfold evaluate_postfix. rewrite evaluate_loop_unused_binding; [reflexivity|].
  apply Forall_forall. intros token Hin.
  apply (in_postfix_of_tokenize expression token Hacc) in Hin as [Hin _].
  now apply Hfree.
Qed.

(** With nothing but spaces and characters it skips, the tokenizer
    returns the [EOF] token alone. *)
Lemma tokenize_loop_unrecognised (expression : string) :
  all_chars (fun c => negb (recognised c)) expression = true ->
  forall fuel position,
    String.length expression - position < fuel ->
    tokenize_loop fuel expression position
    = [mkToken EOF "" (Nat.max position (String.length expression))].
Proof.
  intros Hall. induction fuel as [|fuel IH]; intros position H; [lia|].
  cbn [tokenize_loop].
  destruct (String.get position expression) as [c|] eqn:G.
  - pose proof (all_chars_get _ _ Hall _ _ G) as Hc.
    apply get_Some_lt in G. unfold recognised in Hc.
    apply negb_true_iff in Hc.
    do 5 (apply orb_false_iff in Hc as [Hc ?]).
    rewrite Hc.
    repeat match goal with
           | E : ?b = false |- context [if ?b then _ else _] => rewrite E
           end.
    rewrite IH by lia. do 2 f_equal. lia.
  - apply get_None_ge in G. do 2 f_equal. lia.
Qed.

Lemma all_chars_unrecognised_remove_spaces (s : string) :
  all_chars (fun c => negb (recognised c)) s = true ->
  all_chars (fun c => negb (recognised c)) (remove_spaces s) = true.
Proof.
  induction s as [|c s IH]; [reflexivity|]. cbn [all_chars remove_spaces].
  intros H. apply andb_prop in H as [Hc Hs].
  destruct (Ascii.eqb c " "); [now apply IH|].
  cbn [all_chars]. now rewrite Hc, IH.
Qed.

End EvaluatorFacts3.

Import EvaluatorFacts3.

(** X12: the names of the parser's functions and constants cannot be
    bound: a value given for [pi], [e], [sin] or any other of them is never
    read, and the result of the evaluation is the same with it as without
    it. *)
Theorem reserved_names_are_never_read (R : Runtime)
  (variables : list (string * number)) (name : string) (v : number)
  (expression : string) :
  mem name Parser.functions || mem name Parser.constants = true ->
  evaluate_expression R expression ((name, v) :: variables)
  = evaluate_expression R expression variables.
Proof.
  intros Hname. apply evaluate_expression_unused_binding.
  intros token Hin Ht Heq. subst name. unfold tokenize in Hin.
  pose proof (tokenize_loop_classified _ _ _ _ Hin) as Hc.
  unfold well_classified in Hc. rewrite Ht in Hc.
  apply andb_prop in Hc as [Hc _]. apply andb_prop in Hc as [Hf Hk].
  apply negb_true_iff in Hf, Hk. rewrite Hf, Hk in Hname. discriminate.
Qed.

Lemma reserved_names_are_never_read_witness :
  evaluate_expression integer_runtime "2*pi" [("pi", PyInt 3)]
  = evaluate_expression integer_runtime "2*pi" [].
Proof.
  apply (reserved_names_are_never_read integer_runtime [] "pi" (PyInt 3) "2*pi").
  reflexivity.
Defined.

(** X13: an expression with nothing the tokenizer recognises -- the empty
    text, spaces, or characters it skips -- is refused as empty, whatever
    the variables. *)
Theorem unrecognised_text_is_an_empty_expression (R : Runtime)
  (variables : list (string * number)) (expression : string) :
  all_chars (fun c => negb (recognised c)) expression = true ->
  evaluate_expression R expression variables
  = EvalFailure "Empty expression" expression.
Proof.
  intros Hall. unfold evaluate_expression, parse_expression, tokenize.
  rewrite (tokenize_loop_unrecognised _
             (all_chars_unrecognised_remove_spaces _ Hall)) by lia.
  reflexivity.
Qed.

Lemma unrecognised_text_is_an_empty_expression_witness :
  evaluate_expression integer_runtime " [ ] = ! " [("x", PyInt 1)]
  = EvalFailure "Empty expression" " [ ] = ! ".
Proof.
  apply (unrecognised_text_is_an_empty_expression integer_runtime
           [("x", PyInt 1)] " [ ] = ! ").
  reflexivity.
Defined.

(** ** Calls, operations and variables *)

Module PipelineFacts.
Import PyStr PyStrFacts Parser PyNum Evaluator Vocabulary Vocabulary2.
Import TokenizerFacts EvaluatorFacts InfixFacts.
Local Open Scope py_scope.

Lemma isalpha_not_number (c : ascii) :
  isalpha c = true -> isdigit c || Ascii.eqb c "." = false.
Proof.
  destruct c as [[|] [|] [|] [|] [|] [|] [|] [|]];
    intros H; try reflexivity; vm_compute in H; discriminate H.
Qed.

Lemma identifier_inv (x : string) :
  identifier x = true ->
  exists c x', x = String c x' /\ isalpha c = true /\ identifier_prefix x = x.
Proof.
  destruct x as [|c x']; [discriminate|]. unfold identifier.
  intros H. apply andb_prop in H as [H1 H2]. apply String.eqb_eq in H2.
  now exists c, x'.
Qed.

Lemma identifier_prefix_app (x r : string) :
  identifier_prefix x = x ->
  stops_identifier r = true ->
  identifier_prefix (x ++ r) = x.
Proof.
  intros Hx Hr. induction x as [|c x IH]; cbn [append identifier_prefix] in *.
  - destruct r as [|d r]; [reflexivity|]. cbn [identifier_prefix].
    cbn [stops_identifier] in Hr. apply negb_true_iff in Hr. now rewrite Hr.
  - destruct (isalnum c || Ascii.eqb c "_"); [|discriminate].
    injection Hx as Hx. now rewrite (IH Hx).
Qed.

Lemma identifier_prefix_no_space (x : string) :
  identifier_prefix x = x -> remove_spaces x = x.
Proof.
  induction x as [|c x IH]; [reflexivity|]. cbn [identifier_prefix remove_spaces].
  destruct (isalnum c || Ascii.eqb c "_") eqn:E; [|discriminate].
  intros H. injection H as H.
  destruct (Ascii.eqb_spec c " ") as [-> | _]; [discriminate E|].
  now rewrite (IH H).
Qed.

Lemma identifier_no_space (x : string) :
  identifier x = true -> remove_spaces x = x.
Proof.
  intros H. destruct (identifier_inv x H) as (c & x' & _ & _ & Hp).
  now apply identifier_prefix_no_space.
Qed.

(** The tokenizer reads an identifier in one token. *)
Lemma tokenize_loop_identifier (x r : string) (fuel : nat) :
  identifier x = true ->
  stops_identifier r = true ->
  tokenize_loop (S fuel) (x ++ r) 0
  = mkToken (classify x) x 0
      :: map (shift (String.length x)) (tokenize_loop fuel r 0).
Proof.
  intros Hx Hr. destruct (identifier_inv x Hx) as (c & x' & -> & Hc & Hp).
  cbn [tokenize_loop append String.get].
  rewrite (isalpha_not_number c Hc), Hc.
  unfold _parse_identifier. cbn [drop].
  change (String c (x' ++ r)) with (String c x' ++ r)%string.
  rewrite (identifier_prefix_app _ _ Hp Hr). cbn [Nat.add].
  rewrite <- (tokenize_loop_shift (String c x') r fuel 0), Nat.add_0_r.
  unfold classify.
  destruct (mem (String c x') Parser.functions); [reflexivity|].
  destruct (mem (String c x') Parser.constants); reflexivity.
Qed.

(** The tokens of an operation [a op b]. *)
Lemma tokenize_operation (a b op : string) (d : descriptor) :
  numeric_literal a = true ->
  numeric_literal b = true ->
  lookup op Parser.operators = Some d ->
  exists p1 p2 p3,
    tokenize (a ++ op ++ b)
    = [ mkToken NUMBER a 0; mkToken OPERATOR op p1; mkToken NUMBER b p2;
        mkToken EOF "" p3 ].
Proof.
  intros Ha Hb Hop. unfold tokenize. rewrite !remove_spaces_app.
  rewrite (numeric_literal_no_space a Ha), (numeric_literal_no_space b Hb),
    (operator_no_space op d Hop).
  replace (a ++ op ++ b)%string with (a ++ op ++ b ++ "")%string
    by now rewrite app_empty_r.
  set (s := (a ++ op ++ b ++ "")%string).
  rewrite (tokenize_loop_fuel s (S (String.length s))
             (S (S (S (S (String.length s))))) 0) by lia.
  subst s.
  destruct (tokenize_loop_binary a b op "" d (S (String.length (a ++ op ++ b ++ "")))
              Ha Hb Hop eq_refl) as (p1 & p2 & tail & -> & -> & _).
  rewrite tokenize_loop_end. cbn [map shift type value position].
  do 3 eexists. reflexivity.
Qed.

(** The tokens of an identifier alone. *)
Lemma tokenize_identifier (x : string) :
  identifier x = true ->
  tokenize x
  = [ mkToken (classify x) x 0; mkToken EOF "" (String.length x) ].
Proof.
  intros Hx. unfold tokenize. rewrite (identifier_no_space x Hx).
  rewrite <- (app_empty_r x) at 2.
  rewrite (tokenize_loop_fuel (x ++ "") (S (String.length x))
             (S (S (String.length (x ++ "")))) 0)
    by (rewrite ?app_empty_r; lia).
  rewrite (tokenize_loop_identifier x "" _ Hx eq_refl), tokenize_loop_end.
  cbn [map]. unfold shift. cbn [type value position].
  now rewrite Nat.add_0_r.
Qed.

(** The names the evaluator knows are identifiers, functions for the
    parser and functions of one argument. *)
Lemma functions_inv (R : Runtime) (f : string)
  (func : number -> result number) :
  lookup f (Evaluator.functions R) = Some func ->
  identifier f = true /\ classify f = FUNCTION
  /\ mem f unary_functions = true.
Proof.
  unfold Evaluator.functions. cbn [lookup].
  repeat match goal with
         | |- context [String.eqb f ?k] =>
             destruct (String.eqb_spec f k) as [-> | _];
             [intros _; repeat split; reflexivity|]
         end.
  discriminate.
Qed.

Lemma operators_inv (R : Runtime) (op : string)
  (fn : number -> number -> result number) :
  lookup op (Evaluator.operators R) = Some fn ->
  exists d, lookup op Parser.operators = Some d.
Proof.
  unfold Evaluator.operators. cbn [lookup].
  repeat match goal with
         | |- context [String.eqb op ?k] =>
             destruct (String.eqb_spec op k) as [-> | _];
             [intros _; eexists; reflexivity|]
         end.
  discriminate.
Qed.

End PipelineFacts.

Import PipelineFacts.
Local Open Scope py_scope.

(** X14: for an operator [op] of the evaluator and numeric literals [a]
    and [b], [a op b] evaluates to the operation applied to the float of [a]
    on the left and the float of [b] on the right. *)
Theorem operation_applies_the_operator (R : Runtime)
  (variables : list (string * number)) (a b op : string)
  (fn : number -> number -> result number) :
  lookup op (Evaluator.operators R) = Some fn ->
  numeric_literal a = true ->
  numeric_literal b = true ->
  outcome (evaluate_expression R (a ++ op ++ b) variables)
  = reported (x <- py_float a ;; y <- py_float b ;; fn x y).
Proof.
  intros Hop Ha Hb. destruct (operators_inv R op fn Hop) as [d Hd].
  destruct (tokenize_operation a b op d Ha Hb Hd) as (p1 & p2 & p3 & Ht).
  unfold evaluate_expression, parse_expression. rewrite Ht.
  change (validate_syntax _) with (true, "") at 1. cbn [negb].
  change (parse_to_postfix _)
    with [mkToken NUMBER a 0; mkToken NUMBER b p2; mkToken OPERATOR op p1].
  unfold evaluate_postfix. cbn [evaluate_loop].
  unfold evaluate_token at 1. cbn [type value].
  destruct (py_float a) as [e|x]; [reflexivity|]. cbn [bind ret].
  unfold evaluate_token at 1. cbn [type value].
  destruct (py_float b) as [e|y]; [reflexivity|]. cbn [bind ret].
  unfold evaluate_token. cbn [type value]. rewrite Hop.
  destruct (fn x y) as [e|v]; reflexivity.
Qed.

Lemma operation_applies_the_operator_witness :
  outcome (evaluate_expression integer_runtime "7-2.5" [])
  = reported (x <- py_float "7" ;; y <- py_float "2.5" ;; py_sub integer_runtime x y).
Proof.
  apply (operation_applies_the_operator integer_runtime [] "7" "2.5" "-");
    reflexivity.
Defined.

(** X15: an expression that is one variable evaluates to the value bound
    to it, as it was given (integer, float or complex), and fails with
    [Undefined variable] when there is none. *)
Theorem variable_evaluates_to_its_binding (R : Runtime)
  (variables : list (string * number)) (x : string) :
  identifier x = true ->
  classify x = VARIABLE ->
  evaluate_expression R x variables
  = match lookup x variables with
    | Some v => EvalSuccess v x 1
    | None => EvalFailure ("Undefined variable: " ++ x) x
    end.
Proof.
  intros Hid Hcl. unfold evaluate_expression, parse_expression.
  rewrite (tokenize_identifier x Hid), Hcl.
  change (validate_syntax _) with (true, "") at 1. cbn [negb].
  change (parse_to_postfix _) with [mkToken VARIABLE x 0].
  unfold evaluate_postfix. cbn [evaluate_loop].
  unfold evaluate_token. cbn [type value].
  destruct (lookup x variables) as [v|]; reflexivity.
Qed.

Lemma variable_evaluates_to_its_binding_witness :
  evaluate_expression integer_runtime "x_1" [("y", PyInt 2); ("x_1", PyInt 7)]
  = EvalSuccess (PyInt 7) "x_1" 1.
Proof.
  apply (variable_evaluates_to_its_binding integer_runtime
           [("y", PyInt 2); ("x_1", PyInt 7)] "x_1");
    reflexivity.
Defined.

(** ** Fully parenthesised expressions *)

Module ExprFacts.
Import PyStr PyStrFacts Parser PyNum Evaluator Vocabulary Vocabulary2.
Import TokenizerFacts ConverterFacts EvaluatorFacts InfixFacts PipelineFacts.
Local Open Scope py_scope.

(** *** What the parts of a well-formed expression are *)

Lemma constants_inv (k : string) :
  mem k Parser.constants = true ->
  identifier k = true /\ classify k = CONSTANT.
Proof.
  unfold mem, Parser.constants. cbn [existsb].
  repeat match goal with
         | |- context [String.eqb k ?c] =>
             destruct (String.eqb_spec k c) as [-> | _];
             [intros _; split; reflexivity|]
         end.
  discriminate.
Qed.

Lemma parser_functions_inv (f : string) :
  mem f Parser.functions = true ->
  identifier f = true /\ classify f = FUNCTION.
Proof.
  intros H. split.
  - revert H. unfold mem, Parser.functions. cbn [existsb].
    repeat match goal with
           | |- context [String.eqb f ?c] =>
               destruct (String.eqb_spec f c) as [-> | _];
               [intros _; reflexivity|]
           end.
    discriminate.
  - unfold classify. now rewrite H.
Qed.

Lemma variable_inv (x : string) :
  identifier x && TokenType_eqb (classify x) VARIABLE = true ->
  identifier x = true /\ classify x = VARIABLE.
Proof.
  intros H. apply andb_prop in H as [H1 H2]. split; [exact H1|].
  now apply ConverterFacts.TokenType_eqb_eq.
Qed.

Lemma operator_inv (op : string) :
  match lookup op Parser.operators with Some _ => true | None => false end = true ->
  exists d, lookup op Parser.operators = Some d.
Proof.
  destruct (lookup op Parser.operators) as [d|]; [now exists d | discriminate].
Qed.

(** *** The tokenizer *)

Lemma closes_stops_number (r : string) :
  closes r = true -> stops_number r = true.
Proof.
  destruct r as [|c r]; [reflexivity|]. cbn [closes char_in stops_number].
  repeat match goal with
         | |- context [Ascii.eqb c ?k || _] =>
             destruct (Ascii.eqb_spec c k) as [-> | _]; [reflexivity|];
             cbn [orb]
         end.
  discriminate.
Qed.

Lemma closes_stops_identifier (r : string) :
  closes r = true -> stops_identifier r = true.
Proof.
  destruct r as [|c r]; [reflexivity|]. cbn [closes char_in stops_identifier].
  repeat match goal with
         | |- context [Ascii.eqb c ?k || _] =>
             destruct (Ascii.eqb_spec c k) as [-> | _]; [reflexivity|];
             cbn [orb]
         end.
  discriminate.
Qed.

Lemma closes_operator (op r : string) (d : descriptor) :
  lookup op Parser.operators = Some d -> closes (op ++ r) = true.
Proof.
  intros H. apply lookup_operators_inv in H. cbn [In] in H.
  now destruct H as [<- | [<- | [<- | [<- | [<- | [<- | []]]]]]].
Qed.

Lemma identifier_nonempty (x : string) :
  identifier x = true -> 1 <= String.length x.
Proof. destruct x; [discriminate|]. cbn. lia. Qed.

Lemma numeric_literal_nonempty (a : string) :
  numeric_literal a = true -> 1 <= String.length a.
Proof. destruct a; [discriminate|]. cbn. lia. Qed.

Lemma operator_nonempty (op : string) (d : descriptor) :
  lookup op Parser.operators = Some d -> 1 <= String.length op.
Proof. destruct op; [discriminate|]. cbn. lia. Qed.

(** One token read, the fuel being what it was. *)
Lemma tokenize_literal (a r : string) (fuel : nat) :
  numeric_literal a = true ->
  stops_number r = true ->
  String.length (a ++ r) < fuel ->
  tokenize_loop fuel (a ++ r) 0
  = mkToken NUMBER a 0 :: map (shift (String.length a)) (tokenize_loop fuel r 0).
Proof.
  intros Ha Hr Hf. pose proof (numeric_literal_nonempty a Ha).
  rewrite length_app in Hf. destruct fuel as [|fuel]; [lia|].
  rewrite (tokenize_loop_literal a r fuel Ha Hr). do 2 f_equal.
  apply tokenize_loop_fuel; lia.
Qed.

Lemma tokenize_name (x r : string) (fuel : nat) :
  identifier x = true ->
  stops_identifier r = true ->
  String.length (x ++ r) < fuel ->
  tokenize_loop fuel (x ++ r) 0
  = mkToken (classify x) x 0
      :: map (shift (String.length x)) (tokenize_loop fuel r 0).
Proof.
  intros Hx Hr Hf. pose proof (identifier_nonempty x Hx).
  rewrite length_app in Hf. destruct fuel as [|fuel]; [lia|].
  rewrite (tokenize_loop_identifier x r fuel Hx Hr). do 2 f_equal.
  apply tokenize_loop_fuel; lia.
Qed.

Lemma tokenize_operator (op r : string) (d : descriptor) (fuel : nat) :
  lookup op Parser.operators = Some d ->
  String.get 0 r <> Some "*"%char ->
  String.length (op ++ r) < fuel ->
  tokenize_loop fuel (op ++ r) 0
  = mkToken OPERATOR op 0
      :: map (shift (String.length op)) (tokenize_loop fuel r 0).
Proof.
  intros Hop Hr Hf. pose proof (operator_nonempty op d Hop).
  rewrite length_app in Hf. destruct fuel as [|fuel]; [lia|].
  rewrite (tokenize_loop_operator op r d fuel Hop Hr). do 2 f_equal.
  apply tokenize_loop_fuel; lia.
Qed.

Lemma tokenize_left_paren (r : string) (fuel : nat) :
  String.length ("(" ++ r) < fuel ->
  tokenize_loop fuel ("(" ++ r) 0
  = mkToken LEFT_PAREN "(" 0 :: map (shift 1) (tokenize_loop fuel r 0).
Proof.
  intros Hf. rewrite length_app in Hf. cbn [String.length] in Hf.
  destruct fuel as [|fuel]; [lia|].
  rewrite (tokenize_loop_left_paren r fuel). do 2 f_equal.
  apply tokenize_loop_fuel; lia.
Qed.

Lemma tokenize_right_paren (r : string) (fuel : nat) :
  String.length (")" ++ r) < fuel ->
  tokenize_loop fuel (")" ++ r) 0
  = mkToken RIGHT_PAREN ")" 0 :: map (shift 1) (tokenize_loop fuel r 0).
Proof.
  intros Hf. rewrite length_app in Hf. cbn [String.length] in Hf.
  destruct fuel as [|fuel]; [lia|].
  rewrite (tokenize_loop_right_paren r fuel). do 2 f_equal.
  apply tokenize_loop_fuel; lia.
Qed.

Lemma shift_infix (e : expr) :
  forall k p, map (shift k) (infix e p) = infix e (k + p).
Proof.
  induction e as [a | x | c | l IHl op r IHr | f arg IH]; intros k p;
    cbn [infix map]; try reflexivity.
  - rewrite map_app. cbn [map]. rewrite map_app. cbn [map].
    rewrite IHl, IHr. unfold shift. cbn [type value position].
    repeat (f_equal; try lia).
  - rewrite map_app. cbn [map]. rewrite IH. unfold shift.
    cbn [type value position]. repeat (f_equal; try lia).
Qed.

Lemma map_shift_shift (a b : nat) (tokens : list Token) :
  map (shift a) (map (shift b) tokens) = map (shift (a + b)) tokens.
Proof.
  rewrite map_map. apply map_ext. intros t. unfold shift.
  cbn [type value position]. f_equal. lia.
Qed.

(** A well-formed expression begins with a digit, a point, a letter or a
    left parenthesis. *)
Lemma written_not_star (e : expr) (r : string) :
  well_formed e = true -> String.get 0 (written e ++ r) <> Some "*"%char.
Proof.
  destruct e as [a | x | c | l op r' | f arg]; cbn [well_formed written];
    intros H.
  - now apply numeric_literal_not_star.
  - apply variable_inv in H as [H _].
    destruct (identifier_inv x H) as (c & x' & -> & Hc & _).
    cbn. intros [= ->]. discriminate.
  - apply constants_inv in H as [H _].
    destruct (identifier_inv c H) as (c' & x' & -> & Hc & _).
    cbn. intros [= ->]. discriminate.
  - cbn. discriminate.
  - apply andb_prop in H as [H _]. apply parser_functions_inv in H as [H _].
    destruct (identifier_inv f H) as (c' & x' & -> & Hc & _).
    cbn. intros [= ->]. discriminate.
Qed.

Lemma length_written_operation (l r : expr) (op : string) :
  String.length (written (Operation l op r))
  = 1 + String.length (written l) + String.length op
    + String.length (written r) + 1.
Proof.
  cbn [written]. rewrite !length_app. cbn [String.length]. lia.
Qed.

Lemma length_written_call (f : string) (arg : expr) :
  String.length (written (Call f arg))
  = String.length f + 1 + String.length (written arg) + 1.
Proof.
  cbn [written]. rewrite !length_app. cbn [String.length]. lia.
Qed.

(** The tokens of a well-formed expression followed by [r]. *)
Lemma tokenize_loop_written (e : expr) :
  well_formed e = true ->
  forall r fuel,
    closes r = true ->
    String.length (written e ++ r) < fuel ->
    tokenize_loop fuel (written e ++ r) 0
    = infix e 0
        ++ map (shift (String.length (written e))) (tokenize_loop fuel r 0).
Proof.
  induction e as [a | x | c | l IHl op r' IHr | f arg IH]; intros Hwf r fuel Hr Hf.
  - cbn [well_formed written infix] in *.
    now rewrite (tokenize_literal a r fuel Hwf (closes_stops_number r Hr) Hf).
  - cbn [well_formed written infix] in *. apply variable_inv in Hwf as [Hid Hcl].
    rewrite (tokenize_name x r fuel Hid (closes_stops_identifier r Hr) Hf).
    now rewrite Hcl.
  - cbn [well_formed written infix] in *. apply constants_inv in Hwf as [Hid Hcl].
    rewrite (tokenize_name c r fuel Hid (closes_stops_identifier r Hr) Hf).
    now rewrite Hcl.
  - rewrite length_written_operation.
    cbn [well_formed] in Hwf. apply andb_prop in Hwf as [Hwf Hwr].
    apply andb_prop in Hwf as [Hwl Hop]. apply operator_inv in Hop as [d Hop].
    cbn [written infix] in *.
    repeat rewrite app_assoc in *.
    assert (Hlen : String.length ("(" ++ written l ++ op ++ written r' ++ ")" ++ r)
                   = 1 + (String.length (written l) + (String.length op
                     + (String.length (written r') + (1 + String.length r)))))
      by (rewrite !length_app; reflexivity).
    rewrite tokenize_left_paren by exact Hf.
    rewrite (IHl Hwl) by
      (try (apply (closes_operator op _ d Hop));
       rewrite ?length_app in *; cbn [String.length] in *; lia).
    rewrite (tokenize_operator op _ d fuel Hop (written_not_star r' _ Hwr)) by
      (rewrite ?length_app in *; cbn [String.length] in *; lia).
    rewrite (IHr Hwr) by
      (try reflexivity; rewrite ?length_app in *; cbn [String.length] in *; lia).
    rewrite tokenize_right_paren by
      (rewrite ?length_app in *; cbn [String.length] in *; lia).
    cbn [app]. repeat (progress (rewrite ?map_app; cbn [map])).
    rewrite !map_shift_shift, !shift_infix.
    unfold shift. cbn [type value position].
    repeat (progress (rewrite <- ?List.app_assoc; cbn [app])).
    rewrite ?Nat.add_0_r, ?Nat.add_0_l, ?Nat.add_assoc. reflexivity.
  - rewrite length_written_call.
    cbn [well_formed] in Hwf. apply andb_prop in Hwf as [Hf' Hwa].
    apply parser_functions_inv in Hf' as [Hid Hcl].
    cbn [written infix] in *. repeat rewrite app_assoc in *.
    rewrite (tokenize_name f ("(" ++ written arg ++ ")" ++ r) fuel Hid eq_refl)
      by exact Hf.
    rewrite tokenize_left_paren by
      (rewrite ?length_app in *; cbn [String.length] in *; lia).
    rewrite (IH Hwa) by
      (try reflexivity; rewrite ?length_app in *; cbn [String.length] in *; lia).
    rewrite tokenize_right_paren by
      (rewrite ?length_app in *; cbn [String.length] in *; lia).
    rewrite Hcl.
    cbn [app]. repeat (progress (rewrite ?map_app; cbn [map])).
    rewrite !map_shift_shift, !shift_infix.
    unfold shift. cbn [type value position].
    repeat (progress (rewrite <- ?List.app_assoc; cbn [app])).
    rewrite ?Nat.add_0_r, ?Nat.add_0_l, ?Nat.add_assoc. reflexivity.
Qed.

Lemma written_no_space (e : expr) :
  well_formed e = true -> remove_spaces (written e) = written e.
Proof.
  induction e as [a | x | c | l IHl op r IHr | f arg IH];
    cbn [well_formed written]; intros Hwf.
  - now apply numeric_literal_no_space.
  - apply variable_inv in Hwf as [Hid _]. now apply identifier_no_space.
  - apply constants_inv in Hwf as [Hid _]. now apply identifier_no_space.
  - apply andb_prop in Hwf as [Hwf Hwr]. apply andb_prop in Hwf as [Hwl Hop].
    apply operator_inv in Hop as [d Hop].
    rewrite !remove_spaces_app, (IHl Hwl), (IHr Hwr), (operator_no_space op d Hop).
    reflexivity.
  - apply andb_prop in Hwf as [Hf Hwa]. apply parser_functions_inv in Hf as [Hid _].
    rewrite !remove_spaces_app, (IH Hwa), (identifier_no_space f Hid).
    reflexivity.
Qed.

(** The tokens of a well-formed expression. *)
Lemma tokenize_written (e : expr) :
  well_formed e = true ->
  tokenize (written e)
  = infix e 0 ++ [mkToken EOF "" (String.length (written e))].
Proof.
  intros Hwf. unfold tokenize. rewrite (written_no_space e Hwf).
  rewrite <- (app_empty_r (written e)) at 2.
  rewrite (tokenize_loop_written e Hwf "" _ eq_refl)
    by (rewrite app_empty_r; lia).
  cbn [tokenize_loop String.get map]. unfold shift. cbn [type value position].
  now rewrite Nat.add_0_r.
Qed.

(** *** The validator *)

Lemma infix_not_empty (e : expr) (p : nat) :
  exists first rest,
    infix e p = first :: rest /\ TokenType_eqb (type first) EOF = false.
Proof.
  destruct e; cbn [infix]; do 2 eexists; split; reflexivity.
Qed.

(** The validator passes over a well-formed expression. *)
Lemma validate_loop_infix (e : expr) :
  forall p rest count prev_token,
    (0 <= count)%Z ->
    starts_term prev_token = true ->
    exists last,
      validate_loop (infix e p ++ rest) count prev_token
      = validate_loop rest count (Some last)
      /\ ends_term last = true.
Proof.
  induction e as [a | x | c | l IHl op r IHr | f arg IH];
    intros p rest count prev_token Hc Hp.
  - exists (mkToken NUMBER a p). split; [|reflexivity].
    cbn [infix app validate_loop type]. cbn [TokenType_eqb andb].
    now rewrite andb_false_r.
  - exists (mkToken VARIABLE x p). split; [|reflexivity].
    cbn [infix app validate_loop type]. cbn [TokenType_eqb andb].
    now rewrite andb_false_r.
  - exists (mkToken CONSTANT c p). split; [|reflexivity].
    cbn [infix app validate_loop type]. cbn [TokenType_eqb andb].
    now rewrite andb_false_r.
  - cbn [infix]. cbv zeta. cbn [app validate_loop type].
    cbn [TokenType_eqb andb]. rewrite andb_false_r.
    destruct (IHl (p + 1) (mkToken OPERATOR op (p + 1 + String.length (written l))
                             :: infix r (p + 1 + String.length (written l)
                                         + String.length op)
                             ++ mkToken RIGHT_PAREN ")"
                                  (p + 1 + String.length (written l)
                                   + String.length op + String.length (written r))
                             :: rest)
                (count + 1)%Z (Some (mkToken LEFT_PAREN "(" p)))
      as (last1 & H1 & E1); [lia | reflexivity |].
    rewrite <- List.app_assoc. cbn [app]. rewrite <- List.app_assoc. cbn [app].
    rewrite H1. cbn [validate_loop type TokenType_eqb andb].
    assert (Hl1 : prev_has_type (Some last1) OPERATOR = false).
    { unfold ends_term, is_value, has_type in E1. cbn [prev_has_type].
      destruct (type last1); try reflexivity; discriminate. }
    rewrite Hl1. cbn [andb].
    destruct (IHr (p + 1 + String.length (written l) + String.length op)
                (mkToken RIGHT_PAREN ")"
                   (p + 1 + String.length (written l)
                    + String.length op + String.length (written r))
                   :: rest)
                (count + 1)%Z
                (Some (mkToken OPERATOR op (p + 1 + String.length (written l)))))
      as (last2 & H2 & E2); [lia | reflexivity |].
    rewrite H2. cbn [validate_loop type TokenType_eqb andb].
    destruct (Z.ltb_spec (count + 1 - 1) 0) as [Hlt | _]; [lia|].
    assert (Hl2 : prev_has_type (Some last2) OPERATOR = false).
    { unfold ends_term, is_value, has_type in E2. cbn [prev_has_type].
      destruct (type last2); try reflexivity; discriminate. }
    rewrite Hl2. cbn [andb].
    replace (count + 1 - 1)%Z with count by lia.
    eexists. split; reflexivity.
  - cbn [infix]. cbv zeta. cbn [app validate_loop type].
    cbn [TokenType_eqb andb]. rewrite andb_false_r.
    assert (Hfun : match prev_token with
                   | Some prev =>
                       negb (existsb (TokenType_eqb (type prev))
                               [OPERATOR; LEFT_PAREN; COMMA])
                   | None => false
                   end = false).
    { destruct prev_token as [prev|]; [|reflexivity]. cbn [starts_term] in Hp.
      cbn [existsb]. destruct (type prev); try discriminate; reflexivity. }
    rewrite Hfun. cbn [validate_loop type TokenType_eqb andb].
    destruct (IH (p + String.length f + 1)
                (mkToken RIGHT_PAREN ")"
                   (p + String.length f + 1 + String.length (written arg))
                   :: rest)
                (count + 1)%Z
                (Some (mkToken LEFT_PAREN "(" (p + String.length f))))
      as (last1 & H1 & E1); [lia | reflexivity |].
    rewrite <- List.app_assoc. cbn [app].
    rewrite H1. cbn [validate_loop type TokenType_eqb andb].
    destruct (Z.ltb_spec (count + 1 - 1) 0) as [Hlt | _]; [lia|].
    assert (Hl1 : prev_has_type (Some last1) OPERATOR = false).
    { unfold ends_term, is_value, has_type in E1. cbn [prev_has_type].
      destruct (type last1); try reflexivity; discriminate. }
    rewrite Hl1. cbn [andb].
    replace (count + 1 - 1)%Z with count by lia.
    eexists. split; reflexivity.
Qed.

Lemma validate_syntax_written (e : expr) :
  well_formed e = true ->
  validate_syntax (tokenize (written e)) = (true, "").
Proof.
  intros Hwf. rewrite (tokenize_written e Hwf).
  destruct (validate_loop_infix e 0
              [mkToken EOF "" (String.length (written e))] 0%Z None)
    as (last & H & E); [lia | reflexivity |].
  destruct (infix_not_empty e 0) as (first & rest & Hi & Hne).
  unfold validate_syntax. rewrite Hi in *. cbn [app] in *. rewrite Hne, H.
  cbn [validate_loop type TokenType_eqb validate_end Z.eqb negb].
  unfold ends_term, is_value, has_type in E.
  destruct (type last); try reflexivity; discriminate.
Qed.

(** *** The converter *)

(** The converter puts a well-formed expression in postfix order and
    leaves the operator stack as it found it. *)
Lemma postfix_loop_infix (e : expr) :
  forall p rest output operator_stack,
    no_function_on_top operator_stack = true ->
    postfix_loop (infix e p ++ rest) output operator_stack
    = postfix_loop rest (output ++ postfix e p) operator_stack.
Proof.
  induction e as [a | x | c | l IHl op r IHr | f arg IH];
    intros p rest output operator_stack Hs; try reflexivity.
  - cbn [infix postfix]. cbv zeta. cbn [app postfix_loop type].
    rewrite <- List.app_assoc. cbn [app]. rewrite <- List.app_assoc. cbn [app].
    rewrite IHl by reflexivity.
    cbn [postfix_loop type pop_higher_precedence TokenType_eqb andb].
    rewrite IHr by reflexivity.
    cbn [postfix_loop type pop_until_left_paren TokenType_eqb List.tl].
    rewrite !List.app_assoc.
    destruct operator_stack as [|top below]; [reflexivity|].
    cbn [no_function_on_top] in Hs. apply negb_true_iff in Hs. now rewrite Hs.
  - cbn [infix postfix]. cbv zeta. cbn [app postfix_loop type].
    rewrite <- List.app_assoc. cbn [app].
    rewrite IH by reflexivity.
    cbn [postfix_loop type pop_until_left_paren TokenType_eqb List.tl].
    now rewrite !List.app_assoc.
Qed.

Lemma parse_to_postfix_written (e : expr) :
  well_formed e = true ->
  parse_to_postfix (tokenize (written e)) = postfix e 0.
Proof.
  intros Hwf. rewrite (tokenize_written e Hwf). unfold parse_to_postfix.
  rewrite postfix_loop_infix by reflexivity.
  cbn [postfix_loop type app]. now rewrite List.app_nil_r.
Qed.

(** *** The evaluator *)

Section WithRuntime.
Variable R : Runtime.
Variable variables : list (string * number).

(** The evaluator computes the meaning of a postfix expression and pushes
    it. *)
Lemma evaluate_loop_postfix (e : expr) :
  well_formed e = true ->
  forall p stack,
    evaluate_loop R variables (postfix e p) stack
    = (v <- meaning R variables e ;; ret (v :: stack)).
Proof.
  induction e as [a | x | c | l IHl op r IHr | f arg IH]; intros Hwf p stack.
  - cbn [postfix evaluate_loop meaning]. unfold evaluate_token. cbn [type value].
    now destruct (py_float a).
  - cbn [postfix evaluate_loop meaning]. unfold evaluate_token. cbn [type value].
    now destruct (lookup x variables).
  - cbn [postfix evaluate_loop meaning]. unfold evaluate_token. cbn [type value].
    now destruct (lookup c Evaluator.constants).
  - cbn [well_formed] in Hwf. apply andb_prop in Hwf as [Hwf Hwr].
    apply andb_prop in Hwf as [Hwl _].
    cbn [postfix meaning]. cbv zeta.
    rewrite evaluate_loop_app, (IHl Hwl).
    destruct (meaning R variables l) as [err|a]; [reflexivity|]. cbn [bind ret].
    rewrite evaluate_loop_app, (IHr Hwr).
    destruct (meaning R variables r) as [err|b]; [reflexivity|]. cbn [bind ret].
    cbn [evaluate_loop]. unfold evaluate_token. cbn [type value].
    destruct (lookup op (Evaluator.operators R)) as [fn|]; [|reflexivity].
    now destruct (fn a b).
  - cbn [well_formed] in Hwf. apply andb_prop in Hwf as [_ Hwa].
    cbn [postfix meaning]. cbv zeta.
    rewrite evaluate_loop_app, (IH Hwa).
    destruct (meaning R variables arg) as [err|x]; [reflexivity|]. cbn [bind ret].
    cbn [evaluate_loop]. unfold evaluate_token. cbn [type value].
    destruct (lookup f (Evaluator.functions R)) as [func|] eqn:Hf; [|reflexivity].
    destruct (functions_inv R f func Hf) as (_ & _ & Hun). rewrite Hun.
    now destruct (func x).
Qed.

End WithRuntime.

End ExprFacts.

Import ExprFacts.

(** X16: a well-formed, fully parenthesised expression evaluates to its
    meaning: each operation [(l op r)] is the operator applied to the value
    of [l] and the value of [r], in this order, each call [f(arg)] is the
    function applied to the value of [arg], and the first failure met from
    left to right is the one reported. *)
Theorem parenthesised_expression_has_its_meaning (R : Runtime)
  (variables : list (string * number)) (e : expr) :
  well_formed e = true ->
  outcome (evaluate_expression R (written e) variables)
  = reported (meaning R variables e).
Proof.
  intros Hwf. unfold evaluate_expression, parse_expression.
  rewrite (validate_syntax_written e Hwf). cbn [negb].
  rewrite (parse_to_postfix_written e Hwf). unfold evaluate_postfix.
  rewrite (evaluate_loop_postfix R variables e Hwf).
  now destruct (meaning R variables e).
Qed.

Lemma parenthesised_expression_has_its_meaning_witness :
  outcome (evaluate_expression integer_runtime "((x-2.5)/abs((1-pi)))"
             [("x", PyInt 7)])
  = reported
      (meaning integer_runtime [("x", PyInt 7)]
         (Operation (Operation (Var "x") "-" (Literal "2.5")) "/"
            (Call "abs" (Operation (Literal "1") "-" (Const "pi"))))).
Proof.
  apply (parenthesised_expression_has_its_meaning integer_runtime
           [("x", PyInt 7)]
           (Operation (Operation (Var "x") "-" (Literal "2.5")) "/"
              (Call "abs" (Operation (Literal "1") "-" (Const "pi"))))).
  reflexivity.
Defined.

(** X17: the tokens of a well-formed, fully parenthesised expression are
    those of its parts, each at its offset in the text, and the validator
    accepts them. *)
Theorem parenthesised_expression_is_accepted (e : expr) :
  well_formed e = true ->
  tokenize (written e)
  = infix e 0 ++ [mkToken EOF "" (String.length (written e))]
  /\ validate_syntax (tokenize (written e)) = (true, "")
  /\ parse_to_postfix (tokenize (written e)) = postfix e 0.
Proof.
  intros Hwf. split; [now apply tokenize_written|]. split.
  - now apply validate_syntax_written.
  - now apply parse_to_postfix_written.
Qed.

Lemma parenthesised_expression_is_accepted_witness :
  tokenize "sqrt((a1+2))"
  = infix (Call "sqrt" (Operation (Var "a1") "+" (Literal "2"))) 0
      ++ [mkToken EOF "" 12]
  /\ validate_syntax (tokenize "sqrt((a1+2))") = (true, "")
  /\ parse_to_postfix (tokenize "sqrt((a1+2))")
     = postfix (Call "sqrt" (Operation (Var "a1") "+" (Literal "2"))) 0.
Proof.
  apply (parenthesised_expression_is_accepted
           (Call "sqrt" (Operation (Var "a1") "+" (Literal "2")))).
  reflexivity.
Defined.
